(** * ABYTETRACKER playback engine: a shallow embedding and its properties

    The development follows the Go sources of the repository:
    - [pkg/tracker/types.go]   song data (Note, Effect, Instrument, Ornament,
                               Pattern, ChannelConfig, Song);
    - [pkg/audio/oscillator.go] Oscillator and ChannelState;
    - [pkg/audio/player.go]    Player: scheduler, effect processor, echo bus
                               and sample renderer (the revision that has
                               [AdvanceTime] and the duty effect).
    - [pkg/audio/output.go]    WAV writer and [ExportWAV].

    Conventions.
    - Go integers are [Z]; every arithmetic operation writes its wrap-around
      out ([GoInt]).
    - [float64] is a type class [Float64]: the engine is written once over
      the class, and run on IEEE binary64 (Rocq's primitive floats,
      bit-exact).  [math.Pow] and [math.Tanh] belong to Go's runtime library
      and are fields of the class.
    - A run-time panic (index out of range, integer division by zero) is the
      result [None].
    - [Player.Channels] holds one freshly allocated [ChannelState] (with its
      own [Oscillator]) per channel and no code stores into the slice again,
      so the slice of pointers is a list of values. *)

From Stdlib Require Import ZArith Lia Bool List.
From Stdlib Require Import PrimFloat FloatOps SpecFloat Uint63.
From Stdlib Require Ascii String.
From stdpp Require Import base option list.

#[local] Open Scope Z_scope.

(* ===================================================================== *)
(** * Go integer types *)
(* ===================================================================== *)

Module GoInt.

(** Two's complement wrap-around of a signed [w]-bit integer. *)
Definition swrap (w : Z) (z : Z) : Z :=
  (z + 2 ^ (w - 1)) mod 2 ^ w - 2 ^ (w - 1).

(** Wrap-around of an unsigned [w]-bit integer. *)
Definition uwrap (w : Z) (z : Z) : Z := z mod 2 ^ w.

Definition int8 := swrap 8.
Definition int32 := swrap 32.
Definition int := swrap 64.
Definition uint8 := uwrap 8.
Definition uint32 := uwrap 32.

Definition min_int : Z := - 2 ^ 63.
Definition max_int : Z := 2 ^ 63 - 1.

(** The values of Go's [int]. *)
Definition is_int (z : Z) : Prop := min_int <= z <= max_int.

Definition add (a b : Z) : Z := int (a + b).
Definition sub (a b : Z) : Z := int (a - b).
Definition mul (a b : Z) : Z := int (a * b).

(** [a % b]: truncated remainder; panics when [b] is zero. *)
Definition rem (a b : Z) : option Z :=
  if b =? 0 then None else Some (Z.rem a b).

(** [a[i]] with an [int] index: panics outside [0 .. len a - 1]. *)
Definition index {A} (l : list A) (i : Z) : option A :=
  if i <? 0 then None else l !! Z.to_nat i.

(** [a[i] = x]; [None] when the store panics. *)
Definition store {A} (l : list A) (i : Z) (x : A) : option (list A) :=
  if i <? 0 then None
  else match l !! Z.to_nat i with
       | Some _ => Some (<[Z.to_nat i := x]> l)
       | None => None
       end.

Definition len {A} (l : list A) : Z := Z.of_nat (length l).

End GoInt.

#[global] Arguments GoInt.swrap : simpl never.
#[global] Arguments GoInt.uwrap : simpl never.
#[global] Arguments GoInt.int : simpl never.
#[global] Arguments GoInt.int8 : simpl never.
#[global] Arguments GoInt.add : simpl never.
#[global] Arguments GoInt.sub : simpl never.
#[global] Arguments GoInt.mul : simpl never.
#[global] Arguments GoInt.rem : simpl never.
#[global] Arguments GoInt.index : simpl never.
#[global] Arguments GoInt.store : simpl never.
#[global] Arguments GoInt.len : simpl never.

(* ===================================================================== *)
(** * float64 *)
(* ===================================================================== *)

(** The operations of [float64] the engine uses, written [⊕ ⊖ ⊗ ⊘] for the
    rounded arithmetic and [<. <=. ==.] for the comparisons.  [f_trunc] is the integer
    part (towards zero) of a finite value, [None] for NaN and the infinities. *)
Class Float64 (F : Type) := {
  f_add : F -> F -> F;
  f_sub : F -> F -> F;
  f_mul : F -> F -> F;
  f_div : F -> F -> F;
  f_neg : F -> F;
  f_eqb : F -> F -> bool;
  f_ltb : F -> F -> bool;
  f_leb : F -> F -> bool;
  f_of_Z : Z -> F;
  f_trunc : F -> option Z;
  math_Pow : F -> F -> F;
  math_Tanh : F -> F;
  math_Sqrt : F -> F
}.

Declare Scope go_scope.
Delimit Scope go_scope with go.
Infix "⊕" := f_add (at level 50, left associativity) : go_scope.
Infix "⊖" := f_sub (at level 50, left associativity) : go_scope.
Infix "⊗" := f_mul (at level 40, left associativity) : go_scope.
Infix "⊘" := f_div (at level 40, left associativity) : go_scope.
Notation "⊖ x" := (f_neg x) (at level 35, right associativity) : go_scope.
Infix "==." := f_eqb (at level 70, no associativity) : go_scope.
Infix "<." := f_ltb (at level 70, no associativity) : go_scope.
Infix "<=." := f_leb (at level 70, no associativity) : go_scope.
Notation "x >. y" := (f_ltb y x) (at level 70, no associativity) : go_scope.
Notation "x >=. y" := (f_leb y x) (at level 70, no associativity) : go_scope.
Notation "x !=. y" := (negb (f_eqb x y)) (at level 70, no associativity) : go_scope.
#[local] Open Scope go_scope.

Section Conversions.
Context {F : Type} `{Float64 F}.

(** An integer constant used as a [float64]: [4], [64.0], [20000]. *)
Definition fz (z : Z) : F := f_of_Z z.

(** A decimal constant [n/d] ([0.1] is [fdec 1 10]): Go rounds the exact
    value once, which is what the division of two exactly represented
    integers does. *)
Definition fdec (n d : Z) : F := f_of_Z n ⊘ f_of_Z d.

(** [int(x)] for a [float64] [x].  A value outside [int] (NaN included)
    converts to the "integer indefinite" value of amd64, [min_int]; the
    language leaves that case to the implementation. *)
Definition int_of_float (x : F) : Z :=
  match f_trunc x with
  | Some z => if (GoInt.min_int <=? z) && (z <=? GoInt.max_int) then z else GoInt.min_int
  | None => GoInt.min_int
  end.

(** [uint32(x)]: on amd64 the 64-bit conversion, of which the low 32 bits
    are kept. *)
Definition uint32_of_float (x : F) : Z := GoInt.uint32 (int_of_float x).

End Conversions.

(** ** IEEE binary64 *)

Module Binary64.

(** [float64(z)] for [z] in the range of [int]. *)
Definition of_Z (z : Z) : float :=
  if z =? GoInt.min_int then (-0x1p63)%float
  else if z <? 0 then PrimFloat.opp (PrimFloat.of_uint63 (Uint63.of_Z (- z)))
  else PrimFloat.of_uint63 (Uint63.of_Z z).

Definition trunc (x : float) : option Z :=
  match Prim2SF x with
  | S754_zero _ => Some 0
  | S754_finite s m e =>
      let a := Z.shiftl (Z.pos m) e in
      Some (if s then - a else a)
  | S754_infinity _ | S754_nan => None
  end.

(** The instance, given the two library functions that Rocq's floats do
    not have.  [math.Sqrt] is the correctly rounded square root. *)
Definition ops (pow : float -> float -> float) (tanh : float -> float) : Float64 float :=
  {| f_add := PrimFloat.add; f_sub := PrimFloat.sub;
     f_mul := PrimFloat.mul; f_div := PrimFloat.div;
     f_neg := PrimFloat.opp;
     f_eqb := PrimFloat.eqb; f_ltb := PrimFloat.ltb; f_leb := PrimFloat.leb;
     f_of_Z := of_Z; f_trunc := trunc;
     math_Pow := pow; math_Tanh := tanh; math_Sqrt := PrimFloat.sqrt |}.

(** Stand-ins for [math.Pow] and [math.Tanh] where a run needs some
    function: [2^y] by repeated squaring on the integer part of [y] and
    linear in between, and the clamp of [x] to [-1, 1]. *)
Fixpoint pow2_nat (n : nat) : float :=
  match n with O => 1%float | S k => (2 * pow2_nat k)%float end.

Definition pow_approx (x y : float) : float :=
  match trunc y with
  | Some z =>
      let fl := if PrimFloat.ltb y (of_Z z) then z - 1 else z in
      let fr := PrimFloat.sub y (of_Z fl) in
      let p := pow2_nat (Z.abs_nat fl) in
      let base := if fl <? 0 then PrimFloat.div 1 p else p in
      PrimFloat.mul base (PrimFloat.add 1 fr)
  | None => y
  end.

Definition tanh_approx (x : float) : float :=
  if PrimFloat.ltb x (-1)%float then (-1)%float
  else if PrimFloat.ltb 1%float x then 1%float else x.

Definition run : Float64 float := ops pow_approx tanh_approx.

(** Two floats are different when the IEEE comparison separates them. *)
Lemma neq_of_eqb (x y : float) : PrimFloat.eqb x y = false -> PrimFloat.eqb x x = true -> x <> y.
Proof. intros Hxy Hxx ->. congruence. Qed.

End Binary64.

(* ===================================================================== *)
(** * Song data ([pkg/tracker/types.go]) *)
(* ===================================================================== *)

(** Fields the playback engine never reads (names, sample data, formula,
    detune, pan, solo, the envelope's loop flag) are left out. *)

(** Effect types. *)
Definition FxNone : Z := 0x00.
Definition FxArpeggio : Z := 0x00.
Definition FxSlideUp : Z := 0x01.
Definition FxSlideDown : Z := 0x02.
Definition FxPortamento : Z := 0x03.
Definition FxVibrato : Z := 0x04.
Definition FxVolSlide : Z := 0x0A.
Definition FxJump : Z := 0x0B.
Definition FxVolume : Z := 0x0C.
Definition FxBreak : Z := 0x0D.
Definition FxEcho : Z := 0x0E.
Definition FxSpeed : Z := 0x0F.
Definition FxOrnament : Z := 0x10.
Definition FxDelay : Z := 0x11.
Definition FxRetrigger : Z := 0x12.
Definition FxCut : Z := 0x13.
Definition FxDuty : Z := 0x14.

(** Generator types ([type Generator uint8]). *)
Definition GenTriangle : Z := 0.
Definition GenSawtooth : Z := 1.
Definition GenSquare : Z := 2.
Definition GenSawBig : Z := 3.
Definition GenNoise : Z := 4.
Definition GenSample : Z := 5.
Definition GenBytebeat : Z := 6.

Module Effect.
Record t := mk {
  Type_ : Z;  (* uint8, the field [Type] *)
  Param : Z   (* uint8 *)
}.
Definition none : t := mk 0 0.
End Effect.

Module Note.
Record t := mk {
  Pitch : Z;       (* int8: 0-95, -1 = empty, -2 = note off *)
  Instrument : Z;  (* uint8: 0 = no change *)
  Volume : Z;      (* int8: 0-64, -1 = no change *)
  Effect : Effect.t
}.
(** The cell [NewPattern] fills a pattern with. *)
Definition empty : t := mk (-1) 0 (-1) Effect.none.
End Note.

Module Envelope.
Record t := mk {
  Attack : Z; Decay : Z; Sustain : Z; Release : Z  (* uint8 *)
}.
End Envelope.

Module Instrument.
Record t := mk {
  Generator : Z;          (* Generator *)
  Envelope : Envelope.t;
  Ornament : Z;           (* uint8: default ornament, 0 = none *)
  Volume : Z;             (* uint8: default volume 0-64 *)
  Duty : Z                (* uint8 *)
}.
End Instrument.

Module Ornament.
Record t := mk {
  Loop : Z;          (* int8: loop point, -1 = no loop *)
  Values : list Z    (* []int8 *)
}.
End Ornament.

Module Pattern.
Record t := mk {
  Rows : Z;                     (* int *)
  Channels : Z;                 (* int *)
  Notes : list (list Note.t)    (* [row][channel] *)
}.

Definition NewPattern (rows channels : Z) : t :=
  mk rows channels
     (replicate (Z.to_nat rows) (replicate (Z.to_nat channels) Note.empty)).
End Pattern.

Module ChannelConfig.
Record t := mk {
  Generator : Z;   (* Generator *)
  Volume : Z;      (* uint8 *)
  Muted : bool;
  EchoSource : Z;  (* int8: -1 = none *)
  EchoDelay : Z;   (* uint8: rows *)
  EchoVolume : Z   (* int8 *)
}.
End ChannelConfig.

Module Song.
Record t := mk {
  Speed : Z;        (* uint8: ticks per row *)
  Tempo : Z;        (* uint8 *)
  SampleRate : Z;   (* int *)
  Channels : Z;     (* int *)
  Instruments : list Instrument.t;
  Ornaments : list Ornament.t;
  Patterns : list Pattern.t;
  Order : list Z;   (* []uint8 *)
  ChanConfig : list ChannelConfig.t
}.

Definition set_Speed (v : Z) (s : t) : t :=
  mk v (Tempo s) (SampleRate s) (Channels s) (Instruments s) (Ornaments s)
     (Patterns s) (Order s) (ChanConfig s).
Definition set_Tempo (v : Z) (s : t) : t :=
  mk (Speed s) v (SampleRate s) (Channels s) (Instruments s) (Ornaments s)
     (Patterns s) (Order s) (ChanConfig s).

(** The instruments and ornaments of [NewSong]. *)
Definition default_instruments : list Instrument.t :=
  [ Instrument.mk GenTriangle (Envelope.mk 0 20 48 30) 0 64 0;
    Instrument.mk GenSawtooth (Envelope.mk 0 40 40 20) 0 56 0;
    Instrument.mk GenSquare (Envelope.mk 30 10 50 50) 0 40 0;
    Instrument.mk GenNoise (Envelope.mk 0 15 0 10) 0 64 0;
    Instrument.mk GenNoise (Envelope.mk 0 25 0 15) 0 56 0;
    Instrument.mk GenNoise (Envelope.mk 0 8 0 5) 0 32 0 ].

Definition default_ornaments : list Ornament.t :=
  [ Ornament.mk 0 [0; 4; 7];
    Ornament.mk 0 [0; 3; 7];
    Ornament.mk 0 [0; 4; 7; 10];
    Ornament.mk 0 [0; 12; 0; 12];
    Ornament.mk 0 [0; 1; 0; -1];
    Ornament.mk 0 [0; 1; 2; 1; 0; -1; -2; -1];
    Ornament.mk (-1) [0; 1; 2; 3; 4; 5; 6; 7; 8; 9; 10; 11; 12];
    Ornament.mk (-1) [0; -1; -2; -3; -4; -5; -6; -7; -8; -9; -10; -11; -12] ].

Definition default_generators : list Z :=
  [GenTriangle; GenSawtooth; GenSquare; GenSquare; GenNoise; GenNoise].

Definition NewSong (channels : Z) : t :=
  let channels := if channels <? 1 then 4 else channels in
  mk 6 125 44100 channels default_instruments default_ornaments
     [Pattern.NewPattern 64 channels] [0]
     (map (fun i => ChannelConfig.mk (nth i default_generators GenTriangle) 64 false (-1) 0 0)
          (seq 0 (Z.to_nat channels))).
End Song.

(** ** Note names *)

(** A Go [string] is its sequence of bytes. *)
Module NoteName.
Import Stdlib.Strings.Ascii Stdlib.Strings.String.

(** [string(rune(r))] for a rune that comes from an [int8]: the one-byte
    encoding of an ASCII code point, and U+FFFD for a negative value. *)
Definition string_of_rune (r : Z) : string :=
  if (0 <=? r) && (r <? 128) then String (ascii_of_N (Z.to_N r)) EmptyString
  else String (ascii_of_N 239) (String (ascii_of_N 191) (String (ascii_of_N 189) EmptyString)).

Definition names : list string :=
  ["C-"; "C#"; "D-"; "D#"; "E-"; "F-"; "F#"; "G-"; "G#"; "A-"; "A#"; "B-"]%string.

(** [NoteToString(pitch int8)]. *)
Definition NoteToString (pitch : Z) : option string :=
  if pitch <? 0 then Some (if pitch =? -2 then "OFF"%string else "---"%string)
  else
    let octave := GoInt.int8 (Z.quot pitch 12) in
    let note := GoInt.int8 (Z.rem pitch 12) in
    name ← GoInt.index names note;
    Some (String.append name (string_of_rune (GoInt.int8 (48 + octave)))).

(** The map literal of [StringToNote]. *)
Definition pitches : list (string * Z) :=
  [("C-"%string, 0); ("C#"%string, 1); ("D-"%string, 2); ("D#"%string, 3);
   ("E-"%string, 4); ("F-"%string, 5); ("F#"%string, 6); ("G-"%string, 7);
   ("G#"%string, 8); ("A-"%string, 9); ("A#"%string, 10); ("B-"%string, 11)].

Fixpoint lookup_name (k : string) (m : list (string * Z)) : option Z :=
  match m with
  | [] => None
  | (k', v) :: m => if String.eqb k k' then Some v else lookup_name k m
  end.

(** [StringToNote(s string)]; [s[2]] exists because [len(s) >= 3]. *)
Definition StringToNote (s : string) : Z :=
  if (Z.of_nat (String.length s) <? 3) || String.eqb s "---"%string then -1
  else if String.eqb s "OFF"%string then -2
  else
    match lookup_name (substring 0 2 s) pitches with
    | None => -1
    | Some note =>
        match get 2 s with
        | Some c =>
            let octave := GoInt.int8 (GoInt.uint8 (Z.of_N (N_of_ascii c) - 48)) in
            GoInt.int8 (octave * 12 + note)
        | None => -1
        end
    end.

End NoteName.

(* ===================================================================== *)
(** * Oscillator ([pkg/audio/oscillator.go]) *)
(* ===================================================================== *)

Section NoteToFreq.
Context {F : Type} `{Float64 F}.

(** [NoteToFreq(note int8)]: A4 = note 57 = 440 Hz.  The subtraction is
    done in [int8]. *)
Definition NoteToFreq (note : Z) : F :=
  fz 440 ⊗ math_Pow (fz 2) (f_of_Z (GoInt.int8 (note - 57)) ⊘ fz 12).
End NoteToFreq.

Module Oscillator.
Section WithFloat.
Context {F : Type}.

Record t := mk {
  Type_ : Z;       (* tracker.Generator, the field [Type] *)
  Phase : F;
  Frequency : F;
  SampleRate : F;
  Duty : F         (* duty cycle 0.0-1.0 *)
}.

Definition set_Type_ v (x : t) : t :=
  mk v (Phase x) (Frequency x) (SampleRate x) (Duty x).
Definition set_Phase v (x : t) : t :=
  mk (Type_ x) v (Frequency x) (SampleRate x) (Duty x).
Definition set_Frequency v (x : t) : t :=
  mk (Type_ x) (Phase x) v (SampleRate x) (Duty x).
Definition set_SampleRate v (x : t) : t :=
  mk (Type_ x) (Phase x) (Frequency x) v (Duty x).
Definition set_Duty v (x : t) : t :=
  mk (Type_ x) (Phase x) (Frequency x) (SampleRate x) v.

Context `{Float64 F}.

Definition NewOscillator (genType : Z) (sampleRate : F) : t :=
  mk genType (fz 0) (fz 0) sampleRate (fdec 5 10).

Definition SetDuty (duty : F) (o : t) : t :=
  let duty := if duty <. fz 0 then fz 0 else duty in
  let duty := if duty >. fz 1 then fz 1 else duty in
  set_Duty duty o.

Definition SetFrequency (freq : F) (o : t) : t := set_Frequency freq o.

(** Triangle wave. *)
Definition triangle (o : t) : F :=
  let p := Phase o in
  if p <. fdec 5 10 then fz 4 ⊗ p ⊖ fz 1 else fz 3 ⊖ fz 4 ⊗ p.

(** Sawtooth wave. *)
Definition sawtooth (o : t) : F := fz 2 ⊗ Phase o ⊖ fz 1.

(** Square wave. *)
Definition square (o : t) : F :=
  if Phase o <. Duty o then fz 1 else ⊖ fz 1.

(** SawBig: 11-bit sawtooth. *)
Definition sawBig (o : t) : F :=
  let val := Z.land (int_of_float (Phase o ⊗ fz 2048)) 2047 in
  f_of_Z val ⊘ fz 1024 ⊖ fz 1.

(** Noise: a linear congruential step on the quantised phase. *)
Definition noise (o : t) : F :=
  let seed := uint32_of_float (Phase o ⊗ fz 1000000) in
  let seed := GoInt.uint32 (seed * 1103515245 + 12345) in
  f_of_Z (GoInt.int32 seed) ⊘ f_of_Z 2147483647.

(** [Sample]: the oscillator after the call and the value returned. *)
Definition Sample (o : t) : t * F :=
  if Frequency o <=. fz 0 then (o, fz 0)
  else
    let phaseInc := Frequency o ⊘ SampleRate o in
    let o := set_Phase (Phase o ⊕ phaseInc) o in
    let o := if Phase o >=. fz 1 then set_Phase (Phase o ⊖ fz 1) o else o in
    (o,
     if Type_ o =? GenTriangle then triangle o
     else if Type_ o =? GenSawtooth then sawtooth o
     else if Type_ o =? GenSquare then square o
     else if Type_ o =? GenSawBig then sawBig o
     else if Type_ o =? GenNoise then noise o
     else fz 0).

Definition Reset (o : t) : t := set_Phase (fz 0) o.

End WithFloat.
Arguments t : clear implicits.
End Oscillator.

(* ===================================================================== *)
(** * Channel voice state *)
(* ===================================================================== *)

Module ChannelState.
Section WithFloat.
Context {F : Type}.

Record t := mk {
  Active : bool;
  Oscillator : Oscillator.t F;
  Instrument : Z;   (* int *)
  Note : Z;         (* int8 *)
  BaseNote : Z;     (* int8: note before ornament/effects *)
  Volume : F;
  TargetVol : F;
  Frequency : F;
  EnvPhase : Z;     (* int: 0=attack, 1=decay, 2=sustain, 3=release *)
  EnvPos : F;
  Ornament : Z;     (* int *)
  OrnPos : Z;       (* int *)
  OrnTick : Z;      (* int *)
  PortaTarget : F;
  PortaSpeed : F;
  VibDepth : F;
  VibSpeed : F;
  VibPos : F;
  SlideSpeed : F;
  EchoSource : Z;   (* int8 *)
  EchoDelay : Z;    (* int *)
  EchoVolMod : F
}.

Definition set_Active v (x : t) : t :=
  mk v (Oscillator x) (Instrument x) (Note x) (BaseNote x) (Volume x)
    (TargetVol x) (Frequency x) (EnvPhase x) (EnvPos x) (Ornament x)
    (OrnPos x) (OrnTick x) (PortaTarget x) (PortaSpeed x) (VibDepth x)
    (VibSpeed x) (VibPos x) (SlideSpeed x) (EchoSource x) (EchoDelay x)
    (EchoVolMod x).
Definition set_Oscillator v (x : t) : t :=
  mk (Active x) v (Instrument x) (Note x) (BaseNote x) (Volume x)
    (TargetVol x) (Frequency x) (EnvPhase x) (EnvPos x) (Ornament x)
    (OrnPos x) (OrnTick x) (PortaTarget x) (PortaSpeed x) (VibDepth x)
    (VibSpeed x) (VibPos x) (SlideSpeed x) (EchoSource x) (EchoDelay x)
    (EchoVolMod x).
Definition set_Instrument v (x : t) : t :=
  mk (Active x) (Oscillator x) v (Note x) (BaseNote x) (Volume x)
    (TargetVol x) (Frequency x) (EnvPhase x) (EnvPos x) (Ornament x)
    (OrnPos x) (OrnTick x) (PortaTarget x) (PortaSpeed x) (VibDepth x)
    (VibSpeed x) (VibPos x) (SlideSpeed x) (EchoSource x) (EchoDelay x)
    (EchoVolMod x).
Definition set_Note v (x : t) : t :=
  mk (Active x) (Oscillator x) (Instrument x) v (BaseNote x) (Volume x)
    (TargetVol x) (Frequency x) (EnvPhase x) (EnvPos x) (Ornament x)
    (OrnPos x) (OrnTick x) (PortaTarget x) (PortaSpeed x) (VibDepth x)
    (VibSpeed x) (VibPos x) (SlideSpeed x) (EchoSource x) (EchoDelay x)
    (EchoVolMod x).
Definition set_BaseNote v (x : t) : t :=
  mk (Active x) (Oscillator x) (Instrument x) (Note x) v (Volume x)
    (TargetVol x) (Frequency x) (EnvPhase x) (EnvPos x) (Ornament x)
    (OrnPos x) (OrnTick x) (PortaTarget x) (PortaSpeed x) (VibDepth x)
    (VibSpeed x) (VibPos x) (SlideSpeed x) (EchoSource x) (EchoDelay x)
    (EchoVolMod x).
Definition set_Volume v (x : t) : t :=
  mk (Active x) (Oscillator x) (Instrument x) (Note x) (BaseNote x) v
    (TargetVol x) (Frequency x) (EnvPhase x) (EnvPos x) (Ornament x)
    (OrnPos x) (OrnTick x) (PortaTarget x) (PortaSpeed x) (VibDepth x)
    (VibSpeed x) (VibPos x) (SlideSpeed x) (EchoSource x) (EchoDelay x)
    (EchoVolMod x).
Definition set_TargetVol v (x : t) : t :=
  mk (Active x) (Oscillator x) (Instrument x) (Note x) (BaseNote x)
    (Volume x) v (Frequency x) (EnvPhase x) (EnvPos x) (Ornament x)
    (OrnPos x) (OrnTick x) (PortaTarget x) (PortaSpeed x) (VibDepth x)
    (VibSpeed x) (VibPos x) (SlideSpeed x) (EchoSource x) (EchoDelay x)
    (EchoVolMod x).
Definition set_Frequency v (x : t) : t :=
  mk (Active x) (Oscillator x) (Instrument x) (Note x) (BaseNote x)
    (Volume x) (TargetVol x) v (EnvPhase x) (EnvPos x) (Ornament x)
    (OrnPos x) (OrnTick x) (PortaTarget x) (PortaSpeed x) (VibDepth x)
    (VibSpeed x) (VibPos x) (SlideSpeed x) (EchoSource x) (EchoDelay x)
    (EchoVolMod x).
Definition set_EnvPhase v (x : t) : t :=
  mk (Active x) (Oscillator x) (Instrument x) (Note x) (BaseNote x)
    (Volume x) (TargetVol x) (Frequency x) v (EnvPos x) (Ornament x)
    (OrnPos x) (OrnTick x) (PortaTarget x) (PortaSpeed x) (VibDepth x)
    (VibSpeed x) (VibPos x) (SlideSpeed x) (EchoSource x) (EchoDelay x)
    (EchoVolMod x).
Definition set_EnvPos v (x : t) : t :=
  mk (Active x) (Oscillator x) (Instrument x) (Note x) (BaseNote x)
    (Volume x) (TargetVol x) (Frequency x) (EnvPhase x) v (Ornament x)
    (OrnPos x) (OrnTick x) (PortaTarget x) (PortaSpeed x) (VibDepth x)
    (VibSpeed x) (VibPos x) (SlideSpeed x) (EchoSource x) (EchoDelay x)
    (EchoVolMod x).
Definition set_Ornament v (x : t) : t :=
  mk (Active x) (Oscillator x) (Instrument x) (Note x) (BaseNote x)
    (Volume x) (TargetVol x) (Frequency x) (EnvPhase x) (EnvPos x) v
    (OrnPos x) (OrnTick x) (PortaTarget x) (PortaSpeed x) (VibDepth x)
    (VibSpeed x) (VibPos x) (SlideSpeed x) (EchoSource x) (EchoDelay x)
    (EchoVolMod x).
Definition set_OrnPos v (x : t) : t :=
  mk (Active x) (Oscillator x) (Instrument x) (Note x) (BaseNote x)
    (Volume x) (TargetVol x) (Frequency x) (EnvPhase x) (EnvPos x)
    (Ornament x) v (OrnTick x) (PortaTarget x) (PortaSpeed x) (VibDepth x)
    (VibSpeed x) (VibPos x) (SlideSpeed x) (EchoSource x) (EchoDelay x)
    (EchoVolMod x).
Definition set_OrnTick v (x : t) : t :=
  mk (Active x) (Oscillator x) (Instrument x) (Note x) (BaseNote x)
    (Volume x) (TargetVol x) (Frequency x) (EnvPhase x) (EnvPos x)
    (Ornament x) (OrnPos x) v (PortaTarget x) (PortaSpeed x) (VibDepth x)
    (VibSpeed x) (VibPos x) (SlideSpeed x) (EchoSource x) (EchoDelay x)
    (EchoVolMod x).
Definition set_PortaTarget v (x : t) : t :=
  mk (Active x) (Oscillator x) (Instrument x) (Note x) (BaseNote x)
    (Volume x) (TargetVol x) (Frequency x) (EnvPhase x) (EnvPos x)
    (Ornament x) (OrnPos x) (OrnTick x) v (PortaSpeed x) (VibDepth x)
    (VibSpeed x) (VibPos x) (SlideSpeed x) (EchoSource x) (EchoDelay x)
    (EchoVolMod x).
Definition set_PortaSpeed v (x : t) : t :=
  mk (Active x) (Oscillator x) (Instrument x) (Note x) (BaseNote x)
    (Volume x) (TargetVol x) (Frequency x) (EnvPhase x) (EnvPos x)
    (Ornament x) (OrnPos x) (OrnTick x) (PortaTarget x) v (VibDepth x)
    (VibSpeed x) (VibPos x) (SlideSpeed x) (EchoSource x) (EchoDelay x)
    (EchoVolMod x).
Definition set_VibDepth v (x : t) : t :=
  mk (Active x) (Oscillator x) (Instrument x) (Note x) (BaseNote x)
    (Volume x) (TargetVol x) (Frequency x) (EnvPhase x) (EnvPos x)
    (Ornament x) (OrnPos x) (OrnTick x) (PortaTarget x) (PortaSpeed x) v
    (VibSpeed x) (VibPos x) (SlideSpeed x) (EchoSource x) (EchoDelay x)
    (EchoVolMod x).
Definition set_VibSpeed v (x : t) : t :=
  mk (Active x) (Oscillator x) (Instrument x) (Note x) (BaseNote x)
    (Volume x) (TargetVol x) (Frequency x) (EnvPhase x) (EnvPos x)
    (Ornament x) (OrnPos x) (OrnTick x) (PortaTarget x) (PortaSpeed x)
    (VibDepth x) v (VibPos x) (SlideSpeed x) (EchoSource x) (EchoDelay x)
    (EchoVolMod x).
Definition set_VibPos v (x : t) : t :=
  mk (Active x) (Oscillator x) (Instrument x) (Note x) (BaseNote x)
    (Volume x) (TargetVol x) (Frequency x) (EnvPhase x) (EnvPos x)
    (Ornament x) (OrnPos x) (OrnTick x) (PortaTarget x) (PortaSpeed x)
    (VibDepth x) (VibSpeed x) v (SlideSpeed x) (EchoSource x) (EchoDelay x)
    (EchoVolMod x).
Definition set_SlideSpeed v (x : t) : t :=
  mk (Active x) (Oscillator x) (Instrument x) (Note x) (BaseNote x)
    (Volume x) (TargetVol x) (Frequency x) (EnvPhase x) (EnvPos x)
    (Ornament x) (OrnPos x) (OrnTick x) (PortaTarget x) (PortaSpeed x)
    (VibDepth x) (VibSpeed x) (VibPos x) v (EchoSource x) (EchoDelay x)
    (EchoVolMod x).
Definition set_EchoSource v (x : t) : t :=
  mk (Active x) (Oscillator x) (Instrument x) (Note x) (BaseNote x)
    (Volume x) (TargetVol x) (Frequency x) (EnvPhase x) (EnvPos x)
    (Ornament x) (OrnPos x) (OrnTick x) (PortaTarget x) (PortaSpeed x)
    (VibDepth x) (VibSpeed x) (VibPos x) (SlideSpeed x) v (EchoDelay x)
    (EchoVolMod x).
Definition set_EchoDelay v (x : t) : t :=
  mk (Active x) (Oscillator x) (Instrument x) (Note x) (BaseNote x)
    (Volume x) (TargetVol x) (Frequency x) (EnvPhase x) (EnvPos x)
    (Ornament x) (OrnPos x) (OrnTick x) (PortaTarget x) (PortaSpeed x)
    (VibDepth x) (VibSpeed x) (VibPos x) (SlideSpeed x) (EchoSource x) v
    (EchoVolMod x).
Definition set_EchoVolMod v (x : t) : t :=
  mk (Active x) (Oscillator x) (Instrument x) (Note x) (BaseNote x)
    (Volume x) (TargetVol x) (Frequency x) (EnvPhase x) (EnvPos x)
    (Ornament x) (OrnPos x) (OrnTick x) (PortaTarget x) (PortaSpeed x)
    (VibDepth x) (VibSpeed x) (VibPos x) (SlideSpeed x) (EchoSource x)
    (EchoDelay x) v.

Context `{Float64 F}.

Definition NewChannelState (sampleRate : F) : t :=
  mk false (Oscillator.NewOscillator GenTriangle sampleRate) 0 0 0
     (fz 0) (fz 0) (fz 0) 0 (fz 0) 0 0 0
     (fz 0) (fz 0) (fz 0) (fz 0) (fz 0) (fz 0) (-1) 0 (fz 0).

(** [TriggerNote(note int8, inst *Instrument, volume int8)]. *)
Definition TriggerNote (note : Z) (inst : option Instrument.t) (volume : Z)
    (cs : t) : t :=
  let cs := set_Active true cs in
  let cs := set_Note note cs in
  let cs := set_BaseNote note cs in
  let cs := set_Frequency (NoteToFreq note) cs in
  let cs := set_Oscillator (Oscillator.SetFrequency (Frequency cs) (Oscillator cs)) cs in
  let cs := set_Oscillator (Oscillator.Reset (Oscillator cs)) cs in
  let cs :=
    match inst with
    | Some inst =>
        let cs := set_Oscillator
                    (Oscillator.set_Type_ (Instrument.Generator inst) (Oscillator cs)) cs in
        let cs := set_Ornament (Instrument.Ornament inst) cs in
        let cs :=
          if Instrument.Duty inst >? 0
          then set_Oscillator
                 (Oscillator.SetDuty (f_of_Z (Instrument.Duty inst) ⊘ fz 255) (Oscillator cs)) cs
          else set_Oscillator (Oscillator.SetDuty (fdec 5 10) (Oscillator cs)) cs in
        if volume <? 0
        then set_TargetVol (f_of_Z (Instrument.Volume inst) ⊘ fz 64) cs
        else cs
    | None => cs
    end in
  let cs := if volume >=? 0 then set_TargetVol (f_of_Z volume ⊘ fz 64) cs else cs in
  let cs := set_EnvPhase 0 cs in
  let cs := set_EnvPos (fz 0) cs in
  let cs := set_OrnPos 0 cs in
  set_OrnTick 0 cs.

Definition NoteOff (cs : t) : t :=
  set_EnvPos (fz 0) (set_EnvPhase 3 cs).

(** [ProcessEnvelope(env *Envelope, tickSamples int)]; the value the Go
    method returns is the [Volume] of the result. *)
Definition ProcessEnvelope (env : option Envelope.t) (tickSamples : Z)
    (cs : t) : t :=
  match env with
  | None => set_Volume (TargetVol cs) cs
  | Some env =>
      if EnvPhase cs =? 0 then
        if Envelope.Attack env =? 0 then
          set_EnvPhase 1 (set_Volume (TargetVol cs) cs)
        else
          let cs := set_EnvPos (EnvPos cs ⊕ fz 1 ⊘ f_of_Z (Envelope.Attack env)) cs in
          let cs := set_Volume (TargetVol cs ⊗ EnvPos cs) cs in
          if EnvPos cs >=. fz 1
          then set_EnvPos (fz 0) (set_EnvPhase 1 (set_Volume (TargetVol cs) cs))
          else cs
      else if EnvPhase cs =? 1 then
        if Envelope.Decay env =? 0 then set_EnvPhase 2 cs
        else
          let sustainLevel := f_of_Z (Envelope.Sustain env) ⊘ fz 64 ⊗ TargetVol cs in
          let cs := set_EnvPos (EnvPos cs ⊕ fz 1 ⊘ f_of_Z (Envelope.Decay env)) cs in
          let cs := set_Volume
                      (TargetVol cs ⊖ (TargetVol cs ⊖ sustainLevel) ⊗ EnvPos cs) cs in
          if EnvPos cs >=. fz 1
          then set_EnvPos (fz 0) (set_EnvPhase 2 (set_Volume sustainLevel cs))
          else cs
      else if EnvPhase cs =? 2 then
        set_Volume (f_of_Z (Envelope.Sustain env) ⊘ fz 64 ⊗ TargetVol cs) cs
      else if EnvPhase cs =? 3 then
        if (Envelope.Release env =? 0) || (Volume cs <=. fdec 1 1000) then
          set_Active false (set_Volume (fz 0) cs)
        else
          let cs := set_EnvPos (EnvPos cs ⊕ fz 1 ⊘ f_of_Z (Envelope.Release env)) cs in
          let cs := set_Volume (Volume cs ⊗ (fz 1 ⊖ EnvPos cs ⊗ fdec 1 10)) cs in
          if Volume cs <=. fdec 1 1000
          then set_Active false (set_Volume (fz 0) cs)
          else cs
      else cs
  end.

(** [ProcessOrnament(orn *Ornament)]; [None] when [orn.Values[cs.OrnPos]]
    is out of range. *)
Definition ProcessOrnament (orn : option Ornament.t) (cs : t) : option t :=
  match orn with
  | None => Some cs
  | Some orn =>
      if GoInt.len (Ornament.Values orn) =? 0 then Some cs
      else
        offset ← GoInt.index (Ornament.Values orn) (OrnPos cs);
        let cs := set_Note (GoInt.int8 (BaseNote cs + offset)) cs in
        let cs := set_Frequency (NoteToFreq (Note cs)) cs in
        let cs := set_Oscillator (Oscillator.SetFrequency (Frequency cs) (Oscillator cs)) cs in
        let cs := set_OrnTick (GoInt.add (OrnTick cs) 1) cs in
        Some
          (if OrnTick cs >=? 1 then
             let cs := set_OrnTick 0 cs in
             let cs := set_OrnPos (GoInt.add (OrnPos cs) 1) cs in
             if OrnPos cs >=? GoInt.len (Ornament.Values orn) then
               if Ornament.Loop orn >=? 0
               then set_OrnPos (Ornament.Loop orn) cs
               else set_OrnPos (GoInt.sub (GoInt.len (Ornament.Values orn)) 1) cs
             else cs
           else cs)
  end.

(** [GenerateSample]: the voice after the call and the sample. *)
Definition GenerateSample (cs : t) : t * F :=
  if negb (Active cs) || (Volume cs <=. fz 0) then (cs, fz 0)
  else
    let '(o, v) := Oscillator.Sample (Oscillator cs) in
    (set_Oscillator o cs, v ⊗ Volume cs).

End WithFloat.
Arguments t : clear implicits.
End ChannelState.

(* ===================================================================== *)
(** * Player ([pkg/audio/player.go]) *)
(* ===================================================================== *)

Module Player.
Section WithFloat.
Context {F : Type}.

(** [LastTime], [Callbacks] and the mutex are not modelled.  [RowLog] is a
    history variable, absent from the Go struct and read by no operation:
    [ProcessRow] appends (position, pattern, row) each time it gets past
    its guards and walks the cells of a row. *)
Record t := mk {
  Song : Song.t;
  Channels : list (ChannelState.t F);
  SampleRate : Z;       (* int *)
  Playing : bool;
  Position : Z;         (* int: current position in order *)
  Pattern : Z;          (* int: current pattern *)
  Row : Z;              (* int: current row *)
  Tick : Z;             (* int: current tick within row *)
  TickSamples : Z;      (* int: samples per tick *)
  TickCounter : Z;      (* int: sample counter for current tick *)
  EchoBuffers : list (list F);
  EchoPos : list Z;
  RowLog : list (Z * Z * Z)
}.

Definition set_Song v (x : t) : t :=
  mk v (Channels x) (SampleRate x) (Playing x) (Position x) (Pattern x)
    (Row x) (Tick x) (TickSamples x) (TickCounter x) (EchoBuffers x)
    (EchoPos x) (RowLog x).
Definition set_Channels v (x : t) : t :=
  mk (Song x) v (SampleRate x) (Playing x) (Position x) (Pattern x) (Row x)
    (Tick x) (TickSamples x) (TickCounter x) (EchoBuffers x) (EchoPos x)
    (RowLog x).
Definition set_SampleRate v (x : t) : t :=
  mk (Song x) (Channels x) v (Playing x) (Position x) (Pattern x) (Row x)
    (Tick x) (TickSamples x) (TickCounter x) (EchoBuffers x) (EchoPos x)
    (RowLog x).
Definition set_Playing v (x : t) : t :=
  mk (Song x) (Channels x) (SampleRate x) v (Position x) (Pattern x) (Row x)
    (Tick x) (TickSamples x) (TickCounter x) (EchoBuffers x) (EchoPos x)
    (RowLog x).
Definition set_Position v (x : t) : t :=
  mk (Song x) (Channels x) (SampleRate x) (Playing x) v (Pattern x) (Row x)
    (Tick x) (TickSamples x) (TickCounter x) (EchoBuffers x) (EchoPos x)
    (RowLog x).
Definition set_Pattern v (x : t) : t :=
  mk (Song x) (Channels x) (SampleRate x) (Playing x) (Position x) v (Row x)
    (Tick x) (TickSamples x) (TickCounter x) (EchoBuffers x) (EchoPos x)
    (RowLog x).
Definition set_Row v (x : t) : t :=
  mk (Song x) (Channels x) (SampleRate x) (Playing x) (Position x)
    (Pattern x) v (Tick x) (TickSamples x) (TickCounter x) (EchoBuffers x)
    (EchoPos x) (RowLog x).
Definition set_Tick v (x : t) : t :=
  mk (Song x) (Channels x) (SampleRate x) (Playing x) (Position x)
    (Pattern x) (Row x) v (TickSamples x) (TickCounter x) (EchoBuffers x)
    (EchoPos x) (RowLog x).
Definition set_TickSamples v (x : t) : t :=
  mk (Song x) (Channels x) (SampleRate x) (Playing x) (Position x)
    (Pattern x) (Row x) (Tick x) v (TickCounter x) (EchoBuffers x)
    (EchoPos x) (RowLog x).
Definition set_TickCounter v (x : t) : t :=
  mk (Song x) (Channels x) (SampleRate x) (Playing x) (Position x)
    (Pattern x) (Row x) (Tick x) (TickSamples x) v (EchoBuffers x)
    (EchoPos x) (RowLog x).
Definition set_EchoBuffers v (x : t) : t :=
  mk (Song x) (Channels x) (SampleRate x) (Playing x) (Position x)
    (Pattern x) (Row x) (Tick x) (TickSamples x) (TickCounter x) v
    (EchoPos x) (RowLog x).
Definition set_EchoPos v (x : t) : t :=
  mk (Song x) (Channels x) (SampleRate x) (Playing x) (Position x)
    (Pattern x) (Row x) (Tick x) (TickSamples x) (TickCounter x)
    (EchoBuffers x) v (RowLog x).
Definition set_RowLog v (x : t) : t :=
  mk (Song x) (Channels x) (SampleRate x) (Playing x) (Position x)
    (Pattern x) (Row x) (Tick x) (TickSamples x) (TickCounter x)
    (EchoBuffers x) (EchoPos x) v.

Context `{Float64 F}.

(** [UpdateTiming]: samples per tick = SampleRate / (Tempo * 2 / 5). *)
Definition UpdateTiming (p : t) : t :=
  let ticksPerSecond := f_of_Z (Song.Tempo (Song p)) ⊗ fz 2 ⊘ fz 5 in
  set_TickSamples (int_of_float (f_of_Z (SampleRate p) ⊘ ticksPerSecond)) p.

(** The channel voice [NewPlayer] builds for channel [i]. *)
Definition newChannel (song : Song.t) (i : nat) : ChannelState.t F :=
  let cs := ChannelState.NewChannelState (f_of_Z (Song.SampleRate song)) in
  match Song.ChanConfig song !! i with
  | Some cfg =>
      let cs := ChannelState.set_Oscillator
                  (Oscillator.set_Type_ (ChannelConfig.Generator cfg)
                     (ChannelState.Oscillator cs)) cs in
      let cs := ChannelState.set_EchoSource (ChannelConfig.EchoSource cfg) cs in
      let cs := ChannelState.set_EchoDelay (ChannelConfig.EchoDelay cfg) cs in
      ChannelState.set_EchoVolMod (f_of_Z (ChannelConfig.EchoVolume cfg) ⊘ fz 64) cs
  | None => cs
  end.

(** [NewPlayer]; [make] panics on a negative length. *)
Definition NewPlayer (song : Song.t) : option t :=
  if Song.Channels song <? 0 then None
  else if (0 <? Song.Channels song) && (Song.SampleRate song <? 0) then None
  else
    let n := Z.to_nat (Song.Channels song) in
    Some (UpdateTiming
      (mk song (map (newChannel song) (seq 0 n)) (Song.SampleRate song)
          false 0 0 0 0 0 0
          (replicate n (replicate (Z.to_nat (Song.SampleRate song)) (fz 0)))
          (replicate n 0) [])).

(** [p.Channels[ch] = cs] for a voice fetched from that slot. *)
Definition put_channel (ch : Z) (cs : ChannelState.t F) (p : t) : t :=
  set_Channels (<[Z.to_nat ch := cs]> (Channels p)) p.

(** [processEffect(ch int, fx tracker.Effect)]. *)
Definition processEffect (ch : Z) (fx : Effect.t) (p : t) : option t :=
  let ty := Effect.Type_ fx in
  let param := Effect.Param fx in
  if (ty =? 0) && (param =? 0) then Some p
  else
    cs ← GoInt.index (Channels p) ch;
    Some
      (if ty =? FxArpeggio then
         if negb (param =? 0)
         then put_channel ch (ChannelState.set_BaseNote (ChannelState.Note cs) cs) p
         else p
       else if ty =? FxSlideUp then
         put_channel ch (ChannelState.set_SlideSpeed (f_of_Z param ⊗ fz 4) cs) p
       else if ty =? FxSlideDown then
         put_channel ch (ChannelState.set_SlideSpeed (⊖ f_of_Z param ⊗ fz 4) cs) p
       else if ty =? FxPortamento then
         put_channel ch (ChannelState.set_PortaSpeed (f_of_Z param ⊗ fz 4) cs) p
       else if ty =? FxVibrato then
         let cs := ChannelState.set_VibSpeed
                     (f_of_Z (Z.land (Z.shiftr param 4) 0x0F)) cs in
         let cs := ChannelState.set_VibDepth (f_of_Z (Z.land param 0x0F)) cs in
         put_channel ch cs p
       else if ty =? FxVolume then
         if param <=? 64 then
           let cs := ChannelState.set_TargetVol (f_of_Z param ⊘ fz 64) cs in
           let cs := ChannelState.set_Volume (ChannelState.TargetVol cs) cs in
           put_channel ch cs p
         else p
       else if ty =? FxSpeed then
         if param <? 32 then set_Song (Song.set_Speed param (Song p)) p
         else UpdateTiming (set_Song (Song.set_Tempo param (Song p)) p)
       else if ty =? FxOrnament then
         if param <? GoInt.len (Song.Ornaments (Song p)) then
           let cs := ChannelState.set_Ornament param cs in
           let cs := ChannelState.set_OrnPos 0 cs in
           let cs := ChannelState.set_OrnTick 0 cs in
           put_channel ch cs p
         else p
       else if ty =? FxEcho then
         let srcCh := GoInt.int8 (Z.land (Z.shiftr param 4) 0x0F) in
         let delay := Z.land param 0x0F in
         let cs := ChannelState.set_EchoSource srcCh cs in
         let cs := ChannelState.set_EchoDelay delay cs in
         put_channel ch cs p
       else if ty =? FxDuty then
         put_channel ch
           (ChannelState.set_Oscillator
              (Oscillator.SetDuty (f_of_Z param ⊘ fz 255) (ChannelState.Oscillator cs)) cs) p
       else p).

(** The instrument a note-on resolves to, and the voice with its
    [Instrument] index updated when the cell names a valid one. *)
Definition resolveInstrument (note : Note.t) (cs : ChannelState.t F) (p : t)
    : option (option Instrument.t * ChannelState.t F) :=
  let insts := Song.Instruments (Song p) in
  let instNum := GoInt.sub (Note.Instrument note) 1 in
  if (instNum >=? 0) && (instNum <? GoInt.len insts) then
    inst ← GoInt.index insts instNum;
    Some (Some inst, ChannelState.set_Instrument instNum cs)
  else if (ChannelState.Instrument cs >=? 0)
          && (ChannelState.Instrument cs <? GoInt.len insts) then
    inst ← GoInt.index insts (ChannelState.Instrument cs);
    Some (Some inst, cs)
  else Some (None, cs).

(** The body of the channel loop of [ProcessRow] for the cell [note]. *)
Definition processCell (ch : Z) (note : Note.t) (p : t) : option t :=
  cs ← GoInt.index (Channels p) ch;
  p ← (if Note.Pitch note =? -2 then
         Some (put_channel ch (ChannelState.NoteOff cs) p)
       else if Note.Pitch note >=? 0 then
         '(inst, cs) ← resolveInstrument note cs p;
         Some (put_channel ch
                 (ChannelState.TriggerNote (Note.Pitch note) inst (Note.Volume note) cs) p)
       else Some p);
  processEffect ch (Note.Effect note) p.

(** [for ch := 0; ch < p.Song.Channels && ch < len(pat.Notes[p.Row]); ch++],
    with [cells] the cells of the row from [ch] on.  The counter of a
    channel loop stays below an [int] bound, so [ch++] never wraps. *)
Fixpoint rowLoop (cells : list Note.t) (ch : Z) (p : t) : option t :=
  match cells with
  | [] => Some p
  | note :: rest =>
      if ch <? Song.Channels (Song p) then
        p ← processCell ch note p;
        rowLoop rest (ch + 1) p
      else Some p
  end.

(** [ProcessRow]: the current row triggers its notes and effects. *)
Definition ProcessRow (p : t) : option t :=
  if Pattern p >=? GoInt.len (Song.Patterns (Song p)) then Some p
  else
    pat ← GoInt.index (Song.Patterns (Song p)) (Pattern p);
    if Row p >=? Pattern.Rows pat then Some p
    else
      let p := set_RowLog (RowLog p ++ [(Position p, Pattern p, Row p)]) p in
      if 0 <? Song.Channels (Song p) then
        cells ← GoInt.index (Pattern.Notes pat) (Row p);
        rowLoop cells 0 p
      else Some p.

(** [Play]. *)
Definition Play (p : t) : option t := ProcessRow (set_Playing true p).

(** [Stop]: every voice is silenced. *)
Definition Stop (p : t) : t :=
  set_Channels
    (map (fun cs => ChannelState.set_Volume (fz 0) (ChannelState.set_Active false cs))
         (Channels p))
    (set_Playing false p).

(** [SetPosition(pos, row int)]. *)
Definition SetPosition (pos row : Z) (p : t) : option t :=
  let p := set_Position pos p in
  p ← (if pos <? GoInt.len (Song.Order (Song p)) then
         pat ← GoInt.index (Song.Order (Song p)) pos;
         Some (set_Pattern pat p)
       else Some p);
  Some (set_TickCounter 0 (set_Tick 0 (set_Row row p))).

Definition GetPlaybackInfo (p : t) : Z * Z * Z * Z * bool :=
  (Position p, Pattern p, Row p, Tick p, Playing p).

(** [vibOffset(pos)]: [float64(int(pos*256)&255-128) / 128.0]. *)
Definition vibOffset (pos : F) : F :=
  f_of_Z (GoInt.sub (Z.land (int_of_float (pos ⊗ fz 256)) 255) 128) ⊘ fz 128.

(** The effects of one tick on an active voice, up to the envelope. *)
Definition tickVibrato (cs : ChannelState.t F) : ChannelState.t F :=
  if ChannelState.VibDepth cs >. fz 0 then
    let cs := ChannelState.set_VibPos
                (ChannelState.VibPos cs ⊕ ChannelState.VibSpeed cs ⊗ fdec 1 10) cs in
    let vibOffset := ChannelState.VibDepth cs ⊗ fdec 5 10
                     ⊗ (fz 1 ⊕ fdec 5 10 ⊗ vibOffset (ChannelState.VibPos cs)) in
    let freq := NoteToFreq (ChannelState.BaseNote cs) ⊗ (fz 1 ⊕ vibOffset ⊘ fz 100) in
    ChannelState.set_Oscillator
      (Oscillator.SetFrequency freq (ChannelState.Oscillator cs)) cs
  else cs.

Definition tickSlide (cs : ChannelState.t F) : ChannelState.t F :=
  if ChannelState.SlideSpeed cs !=. fz 0 then
    let cs := ChannelState.set_Frequency
                (ChannelState.Frequency cs ⊕ ChannelState.SlideSpeed cs) cs in
    let cs := if ChannelState.Frequency cs <. fz 20
              then ChannelState.set_Frequency (fz 20) cs else cs in
    let cs := if ChannelState.Frequency cs >. fz 20000
              then ChannelState.set_Frequency (fz 20000) cs else cs in
    ChannelState.set_Oscillator
      (Oscillator.SetFrequency (ChannelState.Frequency cs) (ChannelState.Oscillator cs)) cs
  else cs.

Definition tickPortamento (cs : ChannelState.t F) : ChannelState.t F :=
  if (ChannelState.PortaSpeed cs >. fz 0) && (ChannelState.PortaTarget cs >. fz 0) then
    let cs :=
      if ChannelState.Frequency cs <. ChannelState.PortaTarget cs then
        let cs := ChannelState.set_Frequency
                    (ChannelState.Frequency cs ⊕ ChannelState.PortaSpeed cs) cs in
        if ChannelState.Frequency cs >. ChannelState.PortaTarget cs
        then ChannelState.set_Frequency (ChannelState.PortaTarget cs) cs else cs
      else if ChannelState.Frequency cs >. ChannelState.PortaTarget cs then
        let cs := ChannelState.set_Frequency
                    (ChannelState.Frequency cs ⊖ ChannelState.PortaSpeed cs) cs in
        if ChannelState.Frequency cs <. ChannelState.PortaTarget cs
        then ChannelState.set_Frequency (ChannelState.PortaTarget cs) cs else cs
      else cs in
    ChannelState.set_Oscillator
      (Oscillator.SetFrequency (ChannelState.Frequency cs) (ChannelState.Oscillator cs)) cs
  else cs.

(** The envelope [ProcessTick] hands to [ProcessEnvelope]. *)
Definition tickEnvelope (song : Song.t) (cs : ChannelState.t F) : option Envelope.t :=
  let insts := Song.Instruments song in
  if (ChannelState.Instrument cs >=? 0)
     && (ChannelState.Instrument cs <? GoInt.len insts)
  then Instrument.Envelope <$> GoInt.index insts (ChannelState.Instrument cs)
  else None.

(** The body of the channel loop of [ProcessTick]. *)
Definition tickChannel (ch : Z) (p : t) : option t :=
  cs ← GoInt.index (Channels p) ch;
  if negb (ChannelState.Active cs) then Some p
  else
    let orns := Song.Ornaments (Song p) in
    cs ← (if (ChannelState.Ornament cs >? 0)
             && (ChannelState.Ornament cs <=? GoInt.len orns) then
            orn ← GoInt.index orns (GoInt.sub (ChannelState.Ornament cs) 1);
            ChannelState.ProcessOrnament (Some orn) cs
          else Some cs);
    let cs := tickVibrato cs in
    let cs := tickSlide cs in
    let cs := tickPortamento cs in
    let cs := ChannelState.ProcessEnvelope (tickEnvelope (Song p) cs) (TickSamples p) cs in
    Some (put_channel ch cs p).

(** [for ch := 0; ch < p.Song.Channels; ch++], [n] channels to go. *)
Fixpoint tickLoop (n : nat) (ch : Z) (p : t) : option t :=
  match n with
  | O => Some p
  | S n => p ← tickChannel ch p; tickLoop n (ch + 1) p
  end.

(** [ProcessTick]: the effects that happen every tick. *)
Definition ProcessTick (p : t) : option t :=
  tickLoop (Z.to_nat (Song.Channels (Song p))) 0 p.

(** The row advance shared by [GenerateSamples] and [AdvanceTime]: the
    next row, and the next order position at the end of the pattern. *)
Definition advanceRow (p : t) : option t :=
  let p := set_Tick 0 p in
  let p := set_Row (GoInt.add (Row p) 1) p in
  if Pattern p <? GoInt.len (Song.Patterns (Song p)) then
    pat ← GoInt.index (Song.Patterns (Song p)) (Pattern p);
    if Row p >=? Pattern.Rows pat then
      let p := set_Row 0 p in
      let p := set_Position (GoInt.add (Position p) 1) p in
      let p := if Position p >=? GoInt.len (Song.Order (Song p))
               then set_Position 0 p else p in
      pat ← GoInt.index (Song.Order (Song p)) (Position p);
      Some (set_Pattern pat p)
    else Some p
  else Some p.

(** One pass of the loop of [AdvanceTime]; the number of passes comes
    from the wall clock and is an input here. *)
Definition advanceTimeStep (p : t) : option t :=
  let p := set_TickCounter (GoInt.add (TickCounter p) 1) p in
  if TickCounter p >=? TickSamples p then
    let p := set_TickCounter 0 p in
    p ← ProcessTick p;
    let p := set_Tick (GoInt.add (Tick p) 1) p in
    if Tick p >=? Song.Speed (Song p) then
      p ← advanceRow p;
      ProcessRow p
    else Some p
  else Some p.

Fixpoint advanceTimeLoop (n : nat) (p : t) : option t :=
  match n with
  | O => Some p
  | S n => p ← advanceTimeStep p; advanceTimeLoop n p
  end.

Definition AdvanceTime (samplesElapsed : Z) (p : t) : option t :=
  if negb (Playing p) then Some p
  else advanceTimeLoop (Z.to_nat samplesElapsed) p.

(** The scheduler part of one pass of the loop of [GenerateSamples]. *)
Definition advance (p : t) : option t :=
  if Playing p then
    let p := set_TickCounter (GoInt.add (TickCounter p) 1) p in
    if TickCounter p >=? TickSamples p then
      let p := set_TickCounter 0 p in
      p ← (if Tick p =? 0 then ProcessRow p else Some p);
      p ← ProcessTick p;
      let p := set_Tick (GoInt.add (Tick p) 1) p in
      if Tick p >=? Song.Speed (Song p) then advanceRow p else Some p
    else Some p
  else Some p.

(** The echo term of channel [ch] with voice [cs]: [None] is a panic,
    [Some None] no echo, [Some (Some e)] the sample to add. *)
Definition echoSample (cs : ChannelState.t F) (p : t) : option (option F) :=
  if (ChannelState.EchoSource cs >=? 0)
     && (ChannelState.EchoSource cs <? GoInt.len (Channels p))
     && (ChannelState.EchoDelay cs >? 0) then
    let delaySamples :=
      GoInt.mul (GoInt.mul (ChannelState.EchoDelay cs) (TickSamples p))
                (Song.Speed (Song p)) in
    let srcCh := ChannelState.EchoSource cs in
    pos ← GoInt.index (EchoPos p) srcCh;
    buf ← GoInt.index (EchoBuffers p) srcCh;
    echoIdx ← GoInt.rem (GoInt.add (GoInt.sub pos delaySamples) (GoInt.len buf))
                        (GoInt.len buf);
    x ← GoInt.index buf echoIdx;
    Some (Some (x ⊗ (fz 1 ⊕ ChannelState.EchoVolMod cs)))
  else Some None.

(** The body of the channel loop of the renderer: the player after the
    voice has produced its sample, and the sample with its echo. *)
Definition renderChannel (ch : Z) (p : t) : option (t * F) :=
  cs ← GoInt.index (Channels p) ch;
  let '(cs, chSample) := ChannelState.GenerateSample cs in
  let p := put_channel ch cs p in
  let chSample :=
    match GoInt.index (Song.ChanConfig (Song p)) ch with
    | Some cfg =>
        if negb (ChannelConfig.Muted cfg)
        then chSample ⊗ (f_of_Z (ChannelConfig.Volume cfg) ⊘ fz 64)
        else chSample
    | None => chSample
    end in
  buf ← GoInt.index (EchoBuffers p) ch;
  pos ← GoInt.index (EchoPos p) ch;
  buf ← GoInt.store buf pos chSample;
  let p := set_EchoBuffers (<[Z.to_nat ch := buf]> (EchoBuffers p)) p in
  pos ← GoInt.rem (GoInt.add pos 1) (GoInt.len buf);
  let p := set_EchoPos (<[Z.to_nat ch := pos]> (EchoPos p)) p in
  e ← echoSample cs p;
  Some (p, match e with Some e => chSample ⊕ e | None => chSample end).

(** [for ch := 0; ch < len(p.Channels); ch++], [n] channels to go. *)
Fixpoint renderLoop (n : nat) (ch : Z) (sample : F) (p : t) : option (t * F) :=
  match n with
  | O => Some (p, sample)
  | S n =>
      '(p, chSample) ← renderChannel ch p;
      renderLoop n (ch + 1) (sample ⊕ chSample) p
  end.

(** Mix-down and soft limiter. *)
Definition mixdown (numChannels : Z) (sample : F) : F :=
  let numCh := f_of_Z numChannels in
  let sample := if numCh >. fz 1 then sample ⊘ math_Sqrt numCh else sample in
  if sample >. fdec 9 10 then
    fdec 9 10 ⊕ fdec 1 10 ⊗ math_Tanh ((sample ⊖ fdec 9 10) ⊗ fz 10)
  else if sample <. ⊖ fdec 9 10 then
    ⊖ fdec 9 10 ⊕ fdec 1 10 ⊗ math_Tanh ((sample ⊕ fdec 9 10) ⊗ fz 10)
  else sample.

(** One pass of the loop of [GenerateSamples]: the player and [buffer[i]]. *)
Definition sampleStep (p : t) : option (t * F) :=
  p ← advance p;
  '(p, sample) ← renderLoop (length (Channels p)) 0 (fz 0) p;
  Some (p, mixdown (GoInt.len (Channels p)) sample).

(** [GenerateSamples(buffer)] for a buffer of [n] samples: the player and
    the contents of the buffer afterwards. *)
Fixpoint GenerateSamples (n : nat) (p : t) : option (t * list F) :=
  match n with
  | O => Some (p, [])
  | S n =>
      '(p, x) ← sampleStep p;
      '(p, xs) ← GenerateSamples n p;
      Some (p, x :: xs)
  end.

End WithFloat.
Arguments t : clear implicits.
End Player.

(* ===================================================================== *)
(** * WAV export ([pkg/audio/output.go]) *)
(* ===================================================================== *)

(** The [io.Writer] is the list of the bytes written to it so far (a byte
    is a [Z] in 0..255); it never returns an error. *)
Module WAV.

(** [binary.Write] of an unsigned [n]-byte integer, little endian. *)
Definition le (n : nat) (z : Z) : list Z :=
  map (fun i => (z / 2 ^ (8 * Z.of_nat i)) mod 256) (seq 0 n).

Definition uint16 (z : Z) : list Z := le 2 (GoInt.uwrap 16 z).
Definition uint32 (z : Z) : list Z := le 4 (GoInt.uint32 z).

(** The four-byte tags "RIFF", "WAVE", "fmt " and "data". *)
Definition RIFF : list Z := [82; 73; 70; 70].
Definition WAVE : list Z := [87; 65; 86; 69].
Definition fmt_ : list Z := [102; 109; 116; 32].
Definition data : list Z := [100; 97; 116; 97].

(** [WriteHeader(dataSize)] of a writer for [sampleRate] and [channels]:
    the bytes it writes. *)
Definition WriteHeader (sampleRate channels dataSize : Z) : list Z :=
  let byteRate := GoInt.mul (GoInt.mul sampleRate channels) 2 in
  let blockAlign := GoInt.mul channels 2 in
  RIFF ++ uint32 (GoInt.add dataSize 36) ++ WAVE
  ++ fmt_ ++ uint32 16 ++ uint16 1 ++ uint16 channels ++ uint32 sampleRate
  ++ uint32 byteRate ++ uint16 blockAlign ++ uint16 16
  ++ data ++ uint32 dataSize.

(** The outcome of a loop that is run with a bound on its passes. *)
Inductive outcome (A : Type) : Type :=
  | Returned (a : A)
  | Panicked
  | OutOfFuel.
Arguments Returned {A} a.
Arguments Panicked {A}.
Arguments OutOfFuel {A}.

Section WithFloat.
Context {F : Type} `{Float64 F}.

(** [int16(x)]: the 64-bit conversion, of which the low 16 bits are kept. *)
Definition int16_of_float (x : F) : Z := GoInt.swrap 16 (int_of_float x).

(** One pass of the loop of [WriteSamples]: clamp to [-1, 1], scale to 16
    bits, write two bytes. *)
Definition pcm16 (s : F) : list Z :=
  let s := if s >. fz 1 then fz 1 else s in
  let s := if s <. fz (-1) then fz (-1) else s in
  uint16 (int16_of_float (s ⊗ fz 32767)).

(** [WriteSamples(samples)]: the bytes it writes. *)
Definition WriteSamples (samples : list F) : list Z := flat_map pcm16 samples.

Definition chunkSize : Z := 4096.

(** The chunk loop of [ExportWAV]:
    [for written := 0; written < totalSamples; { ... }], with [bufLen] the
    length of [buffer] and [out] the bytes written so far. *)
Fixpoint exportLoop (fuel : nat) (totalSamples written bufLen : Z)
    (p : Player.t F) (out : list Z) : outcome (Player.t F * list Z) :=
  if written <? totalSamples then
    match fuel with
    | O => OutOfFuel
    | S fuel =>
        let remaining := GoInt.sub totalSamples written in
        let bufLen := if remaining <? chunkSize then remaining else bufLen in
        match Player.GenerateSamples (Z.to_nat bufLen) p with
        | None => Panicked
        | Some (p, buffer) =>
            exportLoop fuel totalSamples (GoInt.add written (GoInt.len buffer)) bufLen p
                       (out ++ WriteSamples buffer)
        end
    end
  else Returned (p, out).

(** [ExportWAV(player, writer, durationSeconds)] on an empty writer: the
    player and the bytes written. *)
Definition ExportWAV (fuel : nat) (p : Player.t F) (durationSeconds : F)
    : outcome (Player.t F * list Z) :=
  let sampleRate := Player.SampleRate p in
  let totalSamples := int_of_float (durationSeconds ⊗ f_of_Z sampleRate) in
  let dataSize := GoInt.mul totalSamples 2 in
  let out := WriteHeader sampleRate 1 dataSize in
  match Player.SetPosition 0 0 p ≫= Player.Play with
  | None => Panicked
  | Some p =>
      match exportLoop fuel totalSamples 0 chunkSize p out with
      | Returned (p, out) => Returned (Player.Stop p, out)
      | Panicked => Panicked
      | OutOfFuel => OutOfFuel
      end
  end.

End WithFloat.
End WAV.

(* ===================================================================== *)
(** * Properties *)
(* ===================================================================== *)

(** ** Integers *)

Lemma int_id (z : Z) : GoInt.is_int z -> GoInt.int z = z.
Proof.
  unfold GoInt.is_int, GoInt.min_int, GoInt.max_int, GoInt.int, GoInt.swrap.
  intros Hz. rewrite Z.mod_small; lia.
Qed.

Lemma int8_id (z : Z) : -128 <= z <= 127 -> GoInt.int8 z = z.
Proof.
  unfold GoInt.int8, GoInt.swrap. intros Hz. rewrite Z.mod_small; lia.
Qed.

Lemma add_id (a b : Z) : GoInt.is_int (a + b) -> GoInt.add a b = a + b.
Proof. apply int_id. Qed.

Lemma sub_id (a b : Z) : GoInt.is_int (a - b) -> GoInt.sub a b = a - b.
Proof. apply int_id. Qed.

Lemma mul_id (a b : Z) : GoInt.is_int (a * b) -> GoInt.mul a b = a * b.
Proof. apply int_id. Qed.


Lemma index_Some {A} (l : list A) (i : Z) (x : A) :
  GoInt.index l i = Some x <-> 0 <= i /\ l !! Z.to_nat i = Some x.
Proof.
  unfold GoInt.index. destruct (Z.ltb_spec i 0); split; intros; try easy; lia.
Qed.

Lemma index_lt {A} (l : list A) (i : Z) (x : A) :
  GoInt.index l i = Some x -> 0 <= i < GoInt.len l.
Proof.
  intros [Hi Hl]%index_Some. apply lookup_lt_Some in Hl. unfold GoInt.len. lia.
Qed.

Lemma index_is_Some {A} (l : list A) (i : Z) :
  0 <= i < GoInt.len l -> is_Some (GoInt.index l i).
Proof.
  unfold GoInt.len, GoInt.index. intros Hi.
  destruct (Z.ltb_spec i 0); [lia|]. apply lookup_lt_is_Some_2. lia.
Qed.

Lemma index_nat {A} (l : list A) (n : nat) : GoInt.index l (Z.of_nat n) = l !! n.
Proof.
  unfold GoInt.index. destruct (Z.ltb_spec (Z.of_nat n) 0); [lia|].
  by rewrite Nat2Z.id.
Qed.

(** ** Oscillator *)

(** The phase of [o] lies in [0, 1). *)
Definition phase_in_unit {F} `{Float64 F} (o : Oscillator.t F) : Prop :=
  (fz 0 <=. Oscillator.Phase o) = true /\ (Oscillator.Phase o <. fz 1) = true.

(** [Sample] keeps the phase in [0, 1) when 0 < Frequency <= SampleRate. *)
Definition Sample_keeps_phase {F} `(Float64 F) : Prop :=
  forall o : Oscillator.t F,
    phase_in_unit o ->
    (fz 0 <. Oscillator.Frequency o) = true ->
    (Oscillator.Frequency o <=. Oscillator.SampleRate o) = true ->
    phase_in_unit (fst (Oscillator.Sample o)).

(** The largest phase below 1 with the frequency at the sample rate. *)
Definition phase_corner : Oscillator.t float :=
  Oscillator.mk GenTriangle 0x1.fffffffffffffp-1%float 44100%float 44100%float 0.5%float.

Section OscillatorProperties.
Context {F : Type} `{Float64 F}.
Implicit Types (o : Oscillator.t F).

Lemma Sample_silent o :
  (Oscillator.Frequency o <=. fz 0) = true -> Oscillator.Sample o = (o, fz 0).
Proof. intros Hf. unfold Oscillator.Sample. by rewrite Hf. Qed.

Lemma waveforms_of_phase o1 o2 :
  Oscillator.Phase o1 = Oscillator.Phase o2 ->
  Oscillator.noise o1 = Oscillator.noise o2
  /\ Oscillator.sawBig o1 = Oscillator.sawBig o2.
Proof. unfold Oscillator.noise, Oscillator.sawBig. by intros ->. Qed.

(** What [Sample] returns once the phase has advanced, as a function of
    the generator type and the new phase, for the two generators. *)
Lemma Sample_value o :
  (Oscillator.Frequency o <=. fz 0) = false ->
  let o' := fst (Oscillator.Sample o) in
  (Oscillator.Type_ o = GenSawBig -> snd (Oscillator.Sample o) = Oscillator.sawBig o')
  /\ (Oscillator.Type_ o = GenNoise -> snd (Oscillator.Sample o) = Oscillator.noise o').
Proof.
  intros Hf. unfold Oscillator.Sample. rewrite Hf. cbn.
  split; intros Ht; repeat case_match; cbn in *; rewrite ?Ht in *; try done.
Qed.

(** C9: the noise and wide-sawtooth values depend on the oscillator's
    phase alone.  Two runs whose oscillators go through the same sequence
    of phases -- whatever their frequencies, sample rates, duty cycles and
    generator types -- yield the same sequence of noise values and the same
    sequence of wide-sawtooth values; and when [Sample] runs on two noise
    (or two wide-sawtooth) oscillators and leaves them at the same phase,
    it returns the same value. *)
Theorem noise_sawBig_functions_of_phase (run1 run2 : list (Oscillator.t F)) :
  map Oscillator.Phase run1 = map Oscillator.Phase run2 ->
  map Oscillator.noise run1 = map Oscillator.noise run2
  /\ map Oscillator.sawBig run1 = map Oscillator.sawBig run2
  /\ forall o1 o2,
      (Oscillator.Frequency o1 <=. fz 0) = false ->
      (Oscillator.Frequency o2 <=. fz 0) = false ->
      Oscillator.Type_ o1 = Oscillator.Type_ o2 ->
      Oscillator.Type_ o1 = GenNoise \/ Oscillator.Type_ o1 = GenSawBig ->
      Oscillator.Phase (fst (Oscillator.Sample o1))
      = Oscillator.Phase (fst (Oscillator.Sample o2)) ->
      snd (Oscillator.Sample o1) = snd (Oscillator.Sample o2).
Proof.
  intros Hph. split; [|split].
  - revert run2 Hph. induction run1 as [|o1 run1 IH]; intros [|o2 run2] Hph;
      try discriminate; [done|].
    injection Hph as Ho Hrest. cbn.
    destruct (waveforms_of_phase o1 o2 Ho) as [-> _]. f_equal. by apply IH.
  - revert run2 Hph. induction run1 as [|o1 run1 IH]; intros [|o2 run2] Hph;
      try discriminate; [done|].
    injection Hph as Ho Hrest. cbn.
    destruct (waveforms_of_phase o1 o2 Ho) as [_ ->]. f_equal. by apply IH.
  - intros o1 o2 Hf1 Hf2 Hty Hgen Hp.
    destruct (Sample_value o1 Hf1) as [Hs1 Hn1].
    destruct (Sample_value o2 Hf2) as [Hs2 Hn2].
    destruct (waveforms_of_phase _ _ Hp) as [Hn Hs].
    destruct Hgen as [Hg|Hg].
    + rewrite Hn1, Hn2 by congruence. exact Hn.
    + rewrite Hs1, Hs2 by congruence. exact Hs.
Qed.

End OscillatorProperties.

(** C10 fails in binary64 when the frequency is at the sample rate.
    [phase_corner] has its phase in [0, 1) and 0 < Frequency <= SampleRate;
    its phase increment is 1, the sum [Phase + 1] rounds up to 2, and the
    single subtraction of the wrap leaves the phase at 1, outside [0, 1),
    where the next call leaves it again.  So [Sample] does not keep the phase
    in [0, 1) under the preconditions of the claim, whatever [math.Pow] and
    [math.Tanh] are.  The other half of the claim holds in every arithmetic:
    an oscillator with Frequency <= 0 returns 0 and is left unchanged, phase
    included. *)
Theorem Sample_phase_reaches_one (pow : float -> float -> float) (tanh : float -> float) :
  let A := Binary64.ops pow tanh in
  let o' := fst (Oscillator.Sample (H:=A) phase_corner) in
  (phase_in_unit (H:=A) phase_corner
   /\ PrimFloat.ltb 0 (Oscillator.Frequency phase_corner) = true
   /\ PrimFloat.leb (Oscillator.Frequency phase_corner) (Oscillator.SampleRate phase_corner)
      = true)
  /\ (PrimFloat.div (Oscillator.Frequency phase_corner) (Oscillator.SampleRate phase_corner)
      = 1%float
      /\ PrimFloat.add (Oscillator.Phase phase_corner) 1 = 2%float
      /\ Oscillator.Phase o' = 1%float
      /\ PrimFloat.ltb (Oscillator.Phase o') 1 = false
      /\ Oscillator.Phase (fst (Oscillator.Sample (H:=A) o')) = 1%float)
  /\ ~ Sample_keeps_phase A
  /\ forall (F : Type) (B : Float64 F) (o : Oscillator.t F),
      (Oscillator.Frequency o <=. fz 0) = true -> Oscillator.Sample o = (o, fz 0).
Proof.
  intros A o'. subst o' A.
  split; [repeat split; vm_compute; reflexivity|].
  split; [repeat split; vm_compute; reflexivity|].
  split; [|intros F B o; apply Sample_silent].
  intros Hkeep.
  destruct (Hkeep phase_corner) as [_ Hlt];
    try (split; vm_compute; reflexivity); try (vm_compute; reflexivity).
  vm_compute in Hlt. discriminate.
Qed.

Lemma noise_sawBig_functions_of_phase_witness :
  let run1 := [Oscillator.mk GenNoise 0.25%float 440%float 44100%float 0.5%float;
               Oscillator.mk GenNoise 0.5%float 440%float 44100%float 0.5%float] in
  let run2 := [Oscillator.mk GenSawBig 0.25%float 220%float 48000%float 0.25%float;
               Oscillator.mk GenSquare 0.5%float 880%float 8000%float 1%float] in
  map (Oscillator.noise (H:=Binary64.run)) run1 = map (Oscillator.noise (H:=Binary64.run)) run2
  /\ map (Oscillator.sawBig (H:=Binary64.run)) run1
     = map (Oscillator.sawBig (H:=Binary64.run)) run2.
Proof.
  intros run1 run2.
  destruct (noise_sawBig_functions_of_phase (H:=Binary64.run) run1 run2) as (Hn & Hs & _).
  - reflexivity.
  - split; [exact Hn | exact Hs].
Defined.

(** ** Ornament engine *)


Section OrnamentProperties.
Context {F : Type} `{Float64 F}.
Implicit Types (cs : ChannelState.t F) (orn : Ornament.t).





End OrnamentProperties.


(** ** What the operations of the player leave alone *)

(** Two songs that differ at most in [Speed] and [Tempo]. *)
Definition song_fixed (s s' : Song.t) : Prop :=
  Song.SampleRate s' = Song.SampleRate s
  /\ Song.Channels s' = Song.Channels s
  /\ Song.Instruments s' = Song.Instruments s
  /\ Song.Ornaments s' = Song.Ornaments s
  /\ Song.Patterns s' = Song.Patterns s
  /\ Song.Order s' = Song.Order s
  /\ Song.ChanConfig s' = Song.ChanConfig s.

Section Frame.
Context {F : Type} `{Float64 F}.
Implicit Types (p : Player.t F) (cs : ChannelState.t F).

(** The playback cursor. *)
Definition cursor p : bool * Z * Z * Z * Z * Z :=
  (Player.Playing p, Player.Position p, Player.Pattern p, Player.Row p,
   Player.Tick p, Player.TickCounter p).

(** What the length of a row in samples depends on. *)
Definition timing p : Z * Z * Z :=
  (Song.Speed (Player.Song p), Song.Tempo (Player.Song p), Player.TickSamples p).

(** [p'] has the song data, the cursor and the number of voices of [p]. *)
Definition frame p p' : Prop :=
  song_fixed (Player.Song p) (Player.Song p')
  /\ Player.SampleRate p' = Player.SampleRate p
  /\ cursor p' = cursor p
  /\ length (Player.Channels p') = length (Player.Channels p).

Lemma song_fixed_refl s : song_fixed s s.
Proof. by repeat split. Qed.

Lemma song_fixed_trans s1 s2 s3 : song_fixed s1 s2 -> song_fixed s2 s3 -> song_fixed s1 s3.
Proof. unfold song_fixed. intros (?&?&?&?&?&?&?) (?&?&?&?&?&?&?). repeat split; congruence. Qed.

Lemma frame_refl p : frame p p.
Proof. split; [apply song_fixed_refl|done]. Qed.

Lemma frame_trans p1 p2 p3 : frame p1 p2 -> frame p2 p3 -> frame p1 p3.
Proof.
  intros (Hs1&?&?&?) (Hs2&?&?&?). split; [by eapply song_fixed_trans|].
  repeat split; congruence.
Qed.

Ltac frame_tac :=
  unfold frame, song_fixed, cursor, timing; cbn; rewrite ?length_insert;
  repeat split; try done.

Lemma processEffect_frame ch fx p p' :
  Player.processEffect ch fx p = Some p' ->
  frame p p'
  /\ Player.EchoBuffers p' = Player.EchoBuffers p
  /\ Player.EchoPos p' = Player.EchoPos p
  /\ Player.RowLog p' = Player.RowLog p
  /\ (forall j : nat, j <> Z.to_nat ch -> Player.Channels p' !! j = Player.Channels p !! j)
  /\ (Effect.Type_ fx <> FxSpeed -> timing p' = timing p).
Proof.
  unfold Player.processEffect. intros Hp.
  repeat case_match; simplify_option_eq; frame_tac;
    try (intros; by rewrite ?list_lookup_insert_ne);
    try (intros Hne; exfalso; apply Hne; lia).
Qed.
(** The cell carries no set-speed-or-tempo command (Fxx). *)
Definition noSpeedFx (note : Note.t) : Prop :=
  Effect.Type_ (Note.Effect note) <> FxSpeed.

Lemma resolveInstrument_Some (note : Note.t) cs p :
  exists inst cs', Player.resolveInstrument note cs p = Some (inst, cs')
    /\ (cs' = cs \/ cs' = ChannelState.set_Instrument (GoInt.sub (Note.Instrument note) 1) cs).
Proof.
  unfold Player.resolveInstrument.
  repeat case_match; try (eexists _, _; split; [reflexivity|]; auto; fail).
  - destruct (index_is_Some (Song.Instruments (Player.Song p))
                (GoInt.sub (Note.Instrument note) 1)) as [i Hi]; [lia|].
    rewrite Hi. cbn. eauto.
  - destruct (index_is_Some (Song.Instruments (Player.Song p))
                (ChannelState.Instrument cs)) as [i Hi]; [lia|].
    rewrite Hi. cbn. eauto.
Qed.

Lemma processCell_frame ch note p p' :
  Player.processCell ch note p = Some p' ->
  frame p p'
  /\ Player.EchoBuffers p' = Player.EchoBuffers p
  /\ Player.EchoPos p' = Player.EchoPos p
  /\ Player.RowLog p' = Player.RowLog p
  /\ (forall j : nat, j <> Z.to_nat ch -> Player.Channels p' !! j = Player.Channels p !! j)
  /\ (noSpeedFx note -> timing p' = timing p).
Proof.
  unfold Player.processCell. intros Hp.
  destruct (GoInt.index (Player.Channels p) ch) as [cs|] eqn:Hcs; [|done].
  cbn in Hp.
  match type of Hp with (?m ≫= _) = _ => destruct m as [pm|] eqn:Hm; [|done] end.
  cbn in Hp. apply processEffect_frame in Hp as (Hf & He & Hpos & Hlog & Hoth & Htim).
  assert (Hpm : pm = p \/ exists cs', pm = Player.put_channel ch cs' p).
  { destruct (Note.Pitch note =? -2); [simplify_eq; eauto|].
    destruct (Note.Pitch note >=? 0); [|simplify_eq; eauto].
    destruct (resolveInstrument_Some note cs p) as (i & c & Hr & _).
    rewrite Hr in Hm. cbn in Hm. simplify_eq. eauto. }
  destruct Hpm as [->|[cs' ->]]; [done|].
  split; [|repeat split; try done].
  - eapply frame_trans; [|exact Hf]. frame_tac.
  - intros j Hj. rewrite Hoth by done. cbn. by rewrite list_lookup_insert_ne.
Qed.

Lemma rowLoop_frame cells : forall k p p',
  0 <= k ->
  Player.rowLoop cells k p = Some p' ->
  frame p p'
  /\ Player.EchoBuffers p' = Player.EchoBuffers p
  /\ Player.EchoPos p' = Player.EchoPos p
  /\ Player.RowLog p' = Player.RowLog p
  /\ (forall j : nat, (j < Z.to_nat k)%nat -> Player.Channels p' !! j = Player.Channels p !! j)
  /\ (Forall noSpeedFx cells -> timing p' = timing p).
Proof.
  induction cells as [|note rest IH]; intros k p p' Hk Hrun; cbn in Hrun.
  - simplify_eq. split; [apply frame_refl|done].
  - destruct (k <? Song.Channels (Player.Song p)); [|simplify_eq; split; [apply frame_refl|done]].
    destruct (Player.processCell k note p) as [pa|] eqn:Hcell; [|done]. cbn in Hrun.
    apply processCell_frame in Hcell as (Hf1 & He1 & Hp1 & Hl1 & Ho1 & Ht1).
    apply IH in Hrun as (Hf2 & He2 & Hp2 & Hl2 & Ho2 & Ht2); [|lia].
    split; [by eapply frame_trans|]. repeat split; try congruence.
    + intros j Hj. rewrite Ho2 by lia. apply Ho1. lia.
    + intros [Hn Hr]%Forall_cons. rewrite Ht2, Ht1; done.
Qed.

(** The pattern whose current row [ProcessRow] walks, if it walks one. *)
Definition liveRow p : option Pattern.t :=
  if Player.Pattern p >=? GoInt.len (Song.Patterns (Player.Song p)) then None
  else match GoInt.index (Song.Patterns (Player.Song p)) (Player.Pattern p) with
       | Some pat => if Player.Row p >=? Pattern.Rows pat then None else Some pat
       | None => None
       end.

(** What [ProcessRow] appends to the log. *)
Definition rowEntry p : list (Z * Z * Z) :=
  match liveRow p with
  | Some _ => [(Player.Position p, Player.Pattern p, Player.Row p)]
  | None => []
  end.

(** No cell of the current row carries a set-speed-or-tempo command. *)
Definition rowKeepsTiming p : Prop :=
  forall pat cells,
    GoInt.index (Song.Patterns (Player.Song p)) (Player.Pattern p) = Some pat ->
    GoInt.index (Pattern.Notes pat) (Player.Row p) = Some cells ->
    Forall noSpeedFx cells.

Lemma ProcessRow_frame p p' :
  Player.ProcessRow p = Some p' ->
  frame p p'
  /\ Player.EchoBuffers p' = Player.EchoBuffers p
  /\ Player.EchoPos p' = Player.EchoPos p
  /\ Player.RowLog p' = Player.RowLog p ++ rowEntry p
  /\ (rowKeepsTiming p -> timing p' = timing p).
Proof.
  unfold Player.ProcessRow, rowEntry, liveRow, rowKeepsTiming. intros Hp.
  destruct (Player.Pattern p >=? _); [simplify_eq; rewrite app_nil_r; split; [apply frame_refl|done]|].
  destruct (GoInt.index (Song.Patterns _) _) as [pat|] eqn:Hpat; [|done]. cbn in Hp.
  destruct (Player.Row p >=? _); [simplify_eq; rewrite app_nil_r; split; [apply frame_refl|done]|].
  cbn in Hp. destruct (0 <? _); [|simplify_eq; frame_tac].
  destruct (GoInt.index (Pattern.Notes pat) _) as [cells|] eqn:Hcells; [|done]. cbn in Hp.
  apply rowLoop_frame in Hp as (Hf & He & Hpos & Hlog & _ & Htim); [|lia].
  split; [|repeat split; try done].
  - eapply frame_trans; [|exact Hf]. frame_tac.
  - intros Hq. by rewrite Htim by eauto.
Qed.

(** [p'] is [p] up to the voices, the echo buffers and their cursors. *)
Definition quiet p p' : Prop :=
  Player.Song p' = Player.Song p
  /\ Player.SampleRate p' = Player.SampleRate p
  /\ Player.TickSamples p' = Player.TickSamples p
  /\ cursor p' = cursor p
  /\ Player.RowLog p' = Player.RowLog p
  /\ length (Player.Channels p') = length (Player.Channels p).

Lemma quiet_refl p : quiet p p.
Proof. by repeat split. Qed.

Lemma quiet_trans p1 p2 p3 : quiet p1 p2 -> quiet p2 p3 -> quiet p1 p3.
Proof. intros (?&?&?&?&?&?) (?&?&?&?&?&?). repeat split; congruence. Qed.

Lemma tickChannel_frame ch p p' :
  Player.tickChannel ch p = Some p' ->
  quiet p p'
  /\ Player.EchoBuffers p' = Player.EchoBuffers p
  /\ Player.EchoPos p' = Player.EchoPos p
  /\ (forall j : nat, j <> Z.to_nat ch -> Player.Channels p' !! j = Player.Channels p !! j)
  /\ (forall cs, GoInt.index (Player.Channels p) ch = Some cs ->
                 ChannelState.Active cs = false -> p' = p).
Proof.
  unfold Player.tickChannel. intros Hp.
  destruct (GoInt.index (Player.Channels p) ch) as [cs|] eqn:Hcs; [|done].
  cbn [mbind option_bind] in Hp.
  destruct (ChannelState.Active cs) eqn:Hact; cbn [negb] in Hp.
  - match type of Hp with (?m ≫= _) = _ => destruct m as [cs1|] eqn:Hm; [|done] end.
    cbn [mbind option_bind] in Hp.
    match type of Hp with Some (Player.put_channel _ ?x _) = _ =>
      generalize dependent x; intros cs2 Hp end.
    injection Hp as <-. unfold quiet, cursor. cbn. rewrite length_insert.
    repeat split; try done.
    + intros j Hj. by rewrite list_lookup_insert_ne.
    + intros cs' ? Hcs'. simplify_eq. congruence.
  - simplify_eq. split; [apply quiet_refl|]. repeat split; try done.
Qed.

Lemma tickLoop_frame n : forall k p p',
  0 <= k ->
  Player.tickLoop n k p = Some p' ->
  quiet p p'
  /\ Player.EchoBuffers p' = Player.EchoBuffers p
  /\ Player.EchoPos p' = Player.EchoPos p
  /\ (forall j : nat, (j < Z.to_nat k)%nat -> Player.Channels p' !! j = Player.Channels p !! j)
  /\ (forall (j : nat) cs, Player.Channels p !! j = Some cs ->
                           ChannelState.Active cs = false -> Player.Channels p' !! j = Some cs).
Proof.
  induction n as [|n IH]; intros k p p' Hk Hrun; cbn in Hrun.
  - simplify_eq. split; [apply quiet_refl|done].
  - destruct (Player.tickChannel k p) as [pa|] eqn:Hch; [|done]. cbn in Hrun.
    apply tickChannel_frame in Hch as (Hq1 & He1 & Hp1 & Ho1 & Hin1).
    apply IH in Hrun as (Hq2 & He2 & Hp2 & Ho2 & Hin2); [|lia].
    split; [by eapply quiet_trans|]. repeat split; try congruence.
    + intros j Hj. rewrite Ho2 by lia. apply Ho1. lia.
    + intros j cs Hj Hact. apply Hin2; [|done].
      destruct (decide (j = Z.to_nat k)) as [->|Hne].
      * rewrite (Hin1 cs); [done| |done]. apply index_Some. split; [lia|done].
      * by rewrite Ho1.
Qed.

Lemma ProcessTick_frame p p' :
  Player.ProcessTick p = Some p' ->
  quiet p p'
  /\ Player.EchoBuffers p' = Player.EchoBuffers p
  /\ Player.EchoPos p' = Player.EchoPos p
  /\ (forall (j : nat) cs, Player.Channels p !! j = Some cs ->
                           ChannelState.Active cs = false -> Player.Channels p' !! j = Some cs).
Proof.
  intros Hp. apply tickLoop_frame in Hp as (?&?&?&_&?); [done|lia].
Qed.

(** [GenerateSample] moves the phase of the oscillator and nothing else. *)
Lemma GenerateSample_voice cs :
  exists o, fst (ChannelState.GenerateSample cs) = ChannelState.set_Oscillator o cs.
Proof.
  unfold ChannelState.GenerateSample.
  destruct (negb _ || _); [|destruct (Oscillator.Sample _)]; cbn; eauto.
  exists (ChannelState.Oscillator cs). by destruct cs.
Qed.

Lemma GenerateSample_inactive cs :
  ChannelState.Active cs = false ->
  ChannelState.GenerateSample cs = (cs, fz 0).
Proof. intros Hact. unfold ChannelState.GenerateSample. by rewrite Hact. Qed.

Lemma renderChannel_frame ch p p' x :
  Player.renderChannel ch p = Some (p', x) ->
  quiet p p'
  /\ (forall j : nat, j <> Z.to_nat ch -> Player.Channels p' !! j = Player.Channels p !! j)
  /\ (exists cs, GoInt.index (Player.Channels p) ch = Some cs
                 /\ GoInt.index (Player.Channels p') ch
                    = Some (fst (ChannelState.GenerateSample cs))).
Proof.
  unfold Player.renderChannel. intros Hp.
  destruct (GoInt.index (Player.Channels p) ch) as [cs|] eqn:Hcs; [|done]. cbn in Hp.
  destruct (ChannelState.GenerateSample cs) as [cs' smp] eqn:Hgen.
  repeat (match type of Hp with (?m ≫= _) = _ => destruct m eqn:?; [|done] end; cbn in Hp).
  simplify_eq. unfold quiet. cbn. rewrite length_insert. repeat split; try done.
  - intros j Hj. by rewrite list_lookup_insert_ne.
  - exists cs. split; [done|]. apply index_Some in Hcs as [Hch Hl].
    apply index_Some. split; [done|]. cbn. rewrite list_lookup_insert_eq; [by rewrite Hgen|].
    by eapply lookup_lt_Some.
Qed.

Lemma renderLoop_frame n : forall k acc p p' x,
  0 <= k ->
  Player.renderLoop n k acc p = Some (p', x) ->
  quiet p p'
  /\ (forall j : nat, (j < Z.to_nat k)%nat -> Player.Channels p' !! j = Player.Channels p !! j)
  /\ (forall (j : nat) cs, Player.Channels p !! j = Some cs ->
                           ChannelState.Active cs = false -> Player.Channels p' !! j = Some cs).
Proof.
  induction n as [|n IH]; intros k acc p p' x Hk Hrun; cbn in Hrun.
  - simplify_eq. split; [apply quiet_refl|done].
  - destruct (Player.renderChannel k p) as [[pa y]|] eqn:Hch; [|done]. cbn in Hrun.
    apply renderChannel_frame in Hch as (Hq1 & Ho1 & (cs0 & Hc0 & Hc1)).
    apply IH in Hrun as (Hq2 & Ho2 & Hin2); [|lia].
    split; [by eapply quiet_trans|]. split.
    + intros j Hj. rewrite Ho2 by lia. apply Ho1. lia.
    + intros j cs Hj Hact. apply Hin2; [|done].
      destruct (decide (j = Z.to_nat k)) as [->|Hne]; [|by rewrite Ho1].
      apply index_Some in Hc0 as [_ Hc0], Hc1 as [_ Hc1].
      rewrite Hc1. rewrite Hj in Hc0. simplify_eq.
      by rewrite GenerateSample_inactive.
Qed.

Lemma advanceRow_frame p p' :
  Player.advanceRow p = Some p' ->
  Player.Song p' = Player.Song p
  /\ Player.SampleRate p' = Player.SampleRate p
  /\ Player.TickSamples p' = Player.TickSamples p
  /\ Player.Playing p' = Player.Playing p
  /\ Player.TickCounter p' = Player.TickCounter p
  /\ Player.Tick p' = 0
  /\ Player.RowLog p' = Player.RowLog p
  /\ Player.Channels p' = Player.Channels p
  /\ Player.EchoBuffers p' = Player.EchoBuffers p
  /\ Player.EchoPos p' = Player.EchoPos p.
Proof.
  unfold Player.advanceRow. intros Hp.
  repeat (first [progress simplify_option_eq | case_match]); by repeat split.
Qed.

End Frame.

(** ** The scheduler on its own *)

(** The state the scheduler works on, and its steps when the rows it
    processes change neither speed nor tempo.  [Sched.view] takes the state
    out of a player; [GenerateSamples_sched] relates the two. *)
Module Sched.

Record t := mk {
  song : Song.t;
  tickSamples : Z;
  playing : bool;
  position : Z;
  pattern : Z;
  row : Z;
  tick : Z;
  tickCounter : Z;
  log : list (Z * Z * Z)
}.

Definition liveRow (s : t) : option Pattern.t :=
  if pattern s >=? GoInt.len (Song.Patterns (song s)) then None
  else match GoInt.index (Song.Patterns (song s)) (pattern s) with
       | Some pat => if row s >=? Pattern.Rows pat then None else Some pat
       | None => None
       end.

Definition rowEntry (s : t) : list (Z * Z * Z) :=
  match liveRow s with
  | Some _ => [(position s, pattern s, row s)]
  | None => []
  end.

Definition processRow (s : t) : t :=
  mk (song s) (tickSamples s) (playing s) (position s) (pattern s) (row s)
     (tick s) (tickCounter s) (log s ++ rowEntry s).

Definition advanceRow (s : t) : option t :=
  let row' := GoInt.add (row s) 1 in
  let stay := mk (song s) (tickSamples s) (playing s) (position s) (pattern s) row'
                 0 (tickCounter s) (log s) in
  if pattern s <? GoInt.len (Song.Patterns (song s)) then
    pat ← GoInt.index (Song.Patterns (song s)) (pattern s);
    if row' >=? Pattern.Rows pat then
      let pos := GoInt.add (position s) 1 in
      let pos := if pos >=? GoInt.len (Song.Order (song s)) then 0 else pos in
      pat ← GoInt.index (Song.Order (song s)) pos;
      Some (mk (song s) (tickSamples s) (playing s) pos pat 0 0 (tickCounter s) (log s))
    else Some stay
  else Some stay.

Definition advance (s : t) : option t :=
  if playing s then
    let tc := GoInt.add (tickCounter s) 1 in
    if tc >=? tickSamples s then
      let s := mk (song s) (tickSamples s) (playing s) (position s) (pattern s) (row s)
                  (tick s) 0 (log s) in
      let s := if tick s =? 0 then processRow s else s in
      let s := mk (song s) (tickSamples s) (playing s) (position s) (pattern s) (row s)
                  (GoInt.add (tick s) 1) (tickCounter s) (log s) in
      if tick s >=? Song.Speed (song s) then advanceRow s else Some s
    else Some (mk (song s) (tickSamples s) (playing s) (position s) (pattern s) (row s)
                  (tick s) tc (log s))
  else Some s.

Fixpoint run (n : nat) (s : t) : option t :=
  match n with
  | O => Some s
  | S n => s ← advance s; run n s
  end.

(** The next tick boundary processes a row. *)
Definition fires (s : t) : Prop :=
  playing s = true /\ GoInt.add (tickCounter s) 1 >= tickSamples s /\ tick s = 0.

(** No cell of the current row carries a set-speed-or-tempo command. *)
Definition keeps (s : t) : Prop :=
  forall pat cells,
    GoInt.index (Song.Patterns (song s)) (pattern s) = Some pat ->
    GoInt.index (Pattern.Notes pat) (row s) = Some cells ->
    Forall (fun note => Effect.Type_ (Note.Effect note) <> FxSpeed) cells.

Definition view {F} (p : Player.t F) : t :=
  mk (Player.Song p) (Player.TickSamples p) (Player.Playing p) (Player.Position p)
     (Player.Pattern p) (Player.Row p) (Player.Tick p) (Player.TickCounter p)
     (Player.RowLog p).

End Sched.

Section Refinement.
Context {F : Type} `{Float64 F}.
Implicit Types (p : Player.t F).

Lemma view_quiet p p' : quiet p p' -> Sched.view p' = Sched.view p.
Proof.
  intros (Hs & _ & Ht & Hc & Hl & _). unfold cursor in Hc. simplify_eq.
  unfold Sched.view. congruence.
Qed.

Lemma ProcessRow_sched p p' :
  Player.ProcessRow p = Some p' -> Sched.keeps (Sched.view p) ->
  Sched.view p' = Sched.processRow (Sched.view p).
Proof.
  intros (Hf & _ & _ & Hlog & Htim)%ProcessRow_frame Hkeep.
  specialize (Htim Hkeep).
  destruct Hf as (Hsong & _ & Hc & _). unfold cursor, timing in *. simplify_eq.
  unfold Sched.view, Sched.processRow. cbn.
  assert (Player.Song p' = Player.Song p) as ->.
  { destruct Hsong as (?&?&?&?&?&?&?). destruct (Player.Song p'), (Player.Song p).
    cbn in *. congruence. }
  f_equal; done.
Qed.

Lemma advanceRow_sched p p' :
  Player.advanceRow p = Some p' -> Sched.advanceRow (Sched.view p) = Some (Sched.view p').
Proof.
  unfold Player.advanceRow, Sched.advanceRow, Sched.view. cbn. intros Hp.
  repeat (first [progress simplify_option_eq | case_match]); done.
Qed.

Lemma ProcessTick_sched p p' :
  Player.ProcessTick p = Some p' -> Sched.view p' = Sched.view p.
Proof. intros (Hq & _)%ProcessTick_frame. by apply view_quiet. Qed.

Lemma advance_sched p p' :
  Player.advance p = Some p' ->
  (Sched.fires (Sched.view p) -> Sched.keeps (Sched.view p)) ->
  Sched.advance (Sched.view p) = Some (Sched.view p').
Proof.
  unfold Player.advance, Sched.advance. intros Hp Hkeep.
  change (Sched.playing (Sched.view p)) with (Player.Playing p).
  destruct (Player.Playing p) eqn:Hplay; [|by simplify_eq].
  cbn in Hp |- *.
  destruct (Z.geb_spec (GoInt.add (Player.TickCounter p) 1) (Player.TickSamples p))
    as [Hge|Hlt].
  2:{ simplify_eq. unfold Sched.view. cbn. by rewrite Hplay. }
  destruct (Z.eqb_spec (Player.Tick p) 0) as [Ht0|Ht0].
  - destruct (Player.ProcessRow _) as [p1|] eqn:Hrow; [|done]. cbn in Hp.
    destruct (Player.ProcessTick p1) as [p2|] eqn:Htick; [|done]. cbn in Hp.
    apply ProcessRow_sched in Hrow.
    2:{ intros pat cells. cbn. apply Hkeep. repeat split; cbn; [done|lia|done]. }
    apply ProcessTick_sched in Htick.
    assert (Hv := Htick). rewrite Hrow in Hv.
    unfold Sched.view in Hv. cbn in Hv. unfold Sched.processRow in Hv. cbn in Hv.
    injection Hv as Hs Hts Hpl Hpos Hpat Hr Htk Htc Hlg.
    unfold Sched.processRow. cbn.
    rewrite <- Hs, <- Htk.
    destruct (GoInt.add (Player.Tick p2) 1 >=? Song.Speed (Player.Song p2)) eqn:E;
      rewrite ?E.
    + apply advanceRow_sched in Hp. rewrite <- Hp. unfold Sched.view. cbn.
      rewrite ?Hs, ?Hts, ?Hpl, ?Hpos, ?Hpat, ?Hr, ?Htc, ?Hlg, ?Hplay; congruence.
    + simplify_eq. unfold Sched.view. cbn.
      rewrite ?Hs, ?Hts, ?Hpl, ?Hpos, ?Hpat, ?Hr, ?Htc, ?Hlg, ?Hplay; congruence.
  - cbn in Hp.
    destruct (Player.ProcessTick _) as [p2|] eqn:Htick; [|done]. cbn in Hp.
    apply ProcessTick_sched in Htick.
    unfold Sched.view in Htick. cbn in Htick.
    injection Htick as Hs Hts Hpl Hpos Hpat Hr Htk Htc Hlg.
    cbn. rewrite <- Hs, <- Htk.
    destruct (GoInt.add (Player.Tick p2) 1 >=? Song.Speed (Player.Song p2)) eqn:E;
      rewrite ?E.
    + apply advanceRow_sched in Hp. rewrite <- Hp. unfold Sched.view. cbn.
      rewrite ?Hs, ?Hts, ?Hpl, ?Hpos, ?Hpat, ?Hr, ?Htc, ?Hlg, ?Hplay. congruence.
    + simplify_eq. unfold Sched.view. cbn.
      rewrite ?Hs, ?Hts, ?Hpl, ?Hpos, ?Hpat, ?Hr, ?Htc, ?Hlg, ?Hplay. congruence.
Qed.
End Refinement.

Section Refinement2.
Context {F : Type} `{Float64 F}.
Implicit Types (p : Player.t F).

Lemma sampleStep_sched p p' x :
  Player.sampleStep p = Some (p', x) ->
  (Sched.fires (Sched.view p) -> Sched.keeps (Sched.view p)) ->
  Sched.advance (Sched.view p) = Some (Sched.view p').
Proof.
  unfold Player.sampleStep. intros Hp Hkeep.
  destruct (Player.advance p) as [q|] eqn:Hadv; [|done]. cbn in Hp.
  destruct (Player.renderLoop _ _ _ _) as [[q' y]|] eqn:Hren; [|done]. cbn in Hp.
  simplify_eq. apply renderLoop_frame in Hren as (Hq & _); [|lia].
  rewrite (view_quiet _ _ Hq). by apply advance_sched.
Qed.

Lemma GenerateSamples_sched n : forall p p' buf,
  Player.GenerateSamples n p = Some (p', buf) ->
  (forall (k : nat) s, (k < n)%nat -> Sched.run k (Sched.view p) = Some s ->
                       Sched.fires s -> Sched.keeps s) ->
  Sched.run n (Sched.view p) = Some (Sched.view p') /\ length buf = n.
Proof.
  induction n as [|n IH]; intros p p' buf Hrun Hkeep; cbn in Hrun.
  - by simplify_eq.
  - destruct (Player.sampleStep p) as [[p1 x]|] eqn:Hstep; [|done]. cbn in Hrun.
    destruct (Player.GenerateSamples n p1) as [[p2 xs]|] eqn:Hrest; [|done].
    cbn in Hrun. simplify_eq.
    apply sampleStep_sched in Hstep; [|apply (Hkeep 0%nat); [lia|done]].
    destruct (IH _ _ _ Hrest) as [Hr Hl].
    { intros k s Hk Hs. apply (Hkeep (S k)); [lia|]. cbn. by rewrite Hstep. }
    split; [|cbn; by rewrite Hl]. cbn. by rewrite Hstep.
Qed.

End Refinement2.

(** ** The scheduler between two rows *)

Lemma run_snoc n : forall s, Sched.run (S n) s = Sched.run n s ≫= Sched.advance.
Proof.
  induction n as [|n IH]; intros s.
  - cbn. by destruct (Sched.advance s).
  - change (Sched.run (S (S n)) s) with (Sched.advance s ≫= Sched.run (S n)).
    change (Sched.run (S n) s) with (Sched.advance s ≫= Sched.run n).
    destruct (Sched.advance s) as [s1|]; [|done]. cbn. apply IH.
Qed.

Lemma run_app n m : forall s, Sched.run (n + m) s = Sched.run n s ≫= Sched.run m.
Proof.
  induction n as [|n IH]; intros s; [done|].
  cbn. destruct (Sched.advance s) as [s1|]; [|done]. cbn. apply IH.
Qed.

Lemma divmod_next_wrap (T k : Z) :
  1 <= T -> 0 <= k -> k mod T + 1 >= T -> (k + 1) / T = k / T + 1 /\ (k + 1) mod T = 0.
Proof.
  intros HT Hk Hw.
  assert (Hm := Z.mod_pos_bound k T ltac:(lia)).
  assert (Hd := Z.div_mod k T ltac:(lia)).
  assert (Hk1 : k + 1 = (k / T + 1) * T + 0) by nia.
  split.
  - symmetry. apply (Z.div_unique_pos (k + 1) T (k / T + 1) 0); lia.
  - symmetry. apply (Z.mod_unique_pos (k + 1) T (k / T + 1) 0); lia.
Qed.

Lemma divmod_next (T k : Z) :
  1 <= T -> 0 <= k -> k mod T + 1 < T ->
  (k + 1) / T = k / T /\ (k + 1) mod T = k mod T + 1.
Proof.
  intros HT Hk Hw.
  assert (Hm := Z.mod_pos_bound k T ltac:(lia)).
  assert (Hd := Z.div_mod k T ltac:(lia)).
  split.
  - symmetry. apply (Z.div_unique_pos (k + 1) T (k / T) (k mod T + 1)); lia.
  - symmetry. apply (Z.mod_unique_pos (k + 1) T (k / T) (k mod T + 1)); lia.
Qed.

Section SchedRow.
Variables (T S : Z).
Hypothesis HT : 1 <= T <= GoInt.max_int.
Hypothesis HS : 1 <= S <= GoInt.max_int.

(** The scheduler [k] samples into a row that started in [s]. *)
Definition inRow (s : Sched.t) (k : Z) : Sched.t :=
  Sched.mk (Sched.song s) T true (Sched.position s) (Sched.pattern s) (Sched.row s)
           (k / T) (k mod T)
           (Sched.log s ++ if T <=? k then Sched.rowEntry s else []).

(** The start of a row: playing, at tick 0 and sample 0 of the tick. *)
Definition rowStart (s : Sched.t) : Prop :=
  Sched.playing s = true /\ Sched.tickSamples s = T
  /\ Song.Speed (Sched.song s) = S /\ Sched.tick s = 0 /\ Sched.tickCounter s = 0.

Lemma inRow_0 s : rowStart s -> inRow s 0 = s.
Proof using HT.
  intros (Hp & Ht & _ & Htk & Htc). unfold inRow.
  rewrite Z.div_0_l, Z.mod_0_l by lia.
  destruct (Z.leb_spec T 0); [lia|]. rewrite app_nil_r.
  destruct s; cbn in *. congruence.
Qed.

Lemma rowEntry_inRow s k : Sched.rowEntry (inRow s k) = Sched.rowEntry s.
Proof. reflexivity. Qed.

Lemma advance_inRow s k :
  Song.Speed (Sched.song s) = S ->
  0 <= k -> k + 1 < S * T ->
  Sched.advance (inRow s k) = Some (inRow s (k + 1)).
Proof using HT HS.
  intros HSp Hk Hk1. unfold Sched.advance. cbn [inRow Sched.playing Sched.tickCounter
    Sched.tickSamples Sched.tick Sched.song Sched.position Sched.pattern Sched.row Sched.log].
  assert (Hm := Z.mod_pos_bound k T ltac:(lia)).
  assert (Hdiv : 0 <= k / T) by (apply Z.div_pos; lia).
  rewrite add_id by (unfold GoInt.is_int, GoInt.min_int, GoInt.max_int in *; lia).
  destruct (Z.geb_spec (k mod T + 1) T) as [Hw|Hw].
  - destruct (divmod_next_wrap T k) as [Hd' Hm']; [lia..|].
    assert (Hdm := Z.div_mod (k + 1) T ltac:(lia)). rewrite Hd', Hm' in Hdm.
    assert (Hlt : k / T + 1 < S) by nia.
    assert (Hlog : (if k / T =? 0
                    then Sched.log (Sched.processRow
                           (Sched.mk (Sched.song s) T true (Sched.position s) (Sched.pattern s)
                              (Sched.row s) (k / T) 0
                              (Sched.log s ++ if T <=? k then Sched.rowEntry s else [])))
                    else Sched.log s ++ (if T <=? k then Sched.rowEntry s else []))
                   = Sched.log s ++ if T <=? k + 1 then Sched.rowEntry s else []).
    { destruct (Z.leb_spec T (k + 1)); [|nia].
      destruct (Z.eqb_spec (k / T) 0) as [H0|H0].
      - destruct (Z.leb_spec T k); [nia|]. cbn. by rewrite app_nil_r.
      - destruct (Z.leb_spec T k); [done|]. 
        assert (k / T = 0) by (apply Z.div_small; lia). lia. }
    destruct (Z.eqb_spec (k / T) 0) as [H0|H0]; cbn;
      rewrite add_id by (unfold GoInt.is_int, GoInt.min_int, GoInt.max_int in *; lia);
      rewrite HSp; (destruct (Z.geb_spec (k / T + 1) S); [lia|]);
      unfold inRow; rewrite Hd', Hm', <- Hlog; cbn; 
      try (destruct (Z.eqb_spec (k / T) 0); [|lia]); try (destruct (Z.eqb_spec (k / T) 0); [lia|]); done.
  - destruct (divmod_next T k) as [Hd' Hm']; [lia..|].
    unfold inRow. rewrite Hd', Hm'.
    destruct (Z.leb_spec T k), (Z.leb_spec T (k + 1)); try done; try lia.
    assert (k = T - 1) by lia. subst k.
    rewrite Z.mod_small in Hw by lia. lia.
Qed.

Lemma run_inRow s (k : nat) :
  rowStart s -> Z.of_nat k < S * T ->
  Sched.run k s = Some (inRow s (Z.of_nat k)).
Proof using HT HS.
  intros Hs. induction k as [|k IH]; intros Hk.
  - cbn. by rewrite inRow_0.
  - rewrite run_snoc, IH by lia. cbn [mbind option_bind].
    rewrite advance_inRow; [|apply Hs|lia|lia]. do 2 f_equal. lia.
Qed.

(** The last sample of the row: the scheduler takes the row advance, with
    the row logged. *)
Lemma run_row s :
  rowStart s ->
  Sched.run (Z.to_nat (S * T)) s
  = Sched.advanceRow
      (Sched.mk (Sched.song s) T true (Sched.position s) (Sched.pattern s) (Sched.row s)
                S 0 (Sched.log s ++ Sched.rowEntry s)).
Proof using HT HS.
  intros Hs.
  assert (HST : 1 <= S * T) by nia.
  replace (Z.to_nat (S * T)) with (Datatypes.S (Z.to_nat (S * T - 1))) by lia.
  rewrite run_snoc, (run_inRow s _ Hs) by lia. cbn [mbind option_bind].
  rewrite Z2Nat.id by lia.
  assert (Hm : (S * T - 1) mod T = T - 1).
  { symmetry. apply (Z.mod_unique_pos _ T (S - 1)); lia. }
  assert (Hd : (S * T - 1) / T = S - 1).
  { symmetry. apply (Z.div_unique_pos _ T (S - 1) (T - 1)); lia. }
  destruct Hs as (_ & _ & HSp & _ & _).
  unfold Sched.advance, inRow. rewrite Hm, Hd.
  cbn [Sched.playing Sched.tickCounter Sched.tickSamples Sched.tick Sched.song
       Sched.position Sched.pattern Sched.row Sched.log].
  rewrite add_id by (unfold GoInt.is_int, GoInt.min_int, GoInt.max_int in *; lia).
  destruct (Z.geb_spec (T - 1 + 1) T); [|lia].
  destruct (Z.eqb_spec (S - 1) 0) as [H1|H1].
  - unfold Sched.processRow, Sched.rowEntry at 2, Sched.liveRow.
    cbn [Sched.playing Sched.tickCounter Sched.tickSamples Sched.tick Sched.song
         Sched.position Sched.pattern Sched.row Sched.log].
    rewrite add_id by (unfold GoInt.is_int, GoInt.min_int, GoInt.max_int in *; lia).
    rewrite HSp. destruct (Z.geb_spec (S - 1 + 1) S); [|lia].
    destruct (Z.leb_spec T (S * T - 1)); [nia|]. rewrite app_nil_r.
    replace (S - 1 + 1) with S by lia. reflexivity.
  - cbn [Sched.playing Sched.tickCounter Sched.tickSamples Sched.tick Sched.song
         Sched.position Sched.pattern Sched.row Sched.log].
    rewrite add_id by (unfold GoInt.is_int, GoInt.min_int, GoInt.max_int in *; lia).
    rewrite HSp. destruct (Z.geb_spec (S - 1 + 1) S); [|lia].
    destruct (Z.leb_spec T (S * T - 1)); [|nia].
    replace (S - 1 + 1) with S by lia. reflexivity.
Qed.

(** Every scheduler state before the end of the row is on the row of [s]. *)
Lemma keeps_in_row s (k : nat) s' :
  rowStart s -> Sched.keeps s -> Z.of_nat k < S * T ->
  Sched.run k s = Some s' -> Sched.keeps s'.
Proof using HT HS.
  intros Hs Hkeep Hk Hrun. rewrite (run_inRow s k Hs Hk) in Hrun. by simplify_eq.
Qed.

End SchedRow.

(** The row advance inside a pattern, and at its end. *)
Lemma advanceRow_next s pat :
  GoInt.index (Song.Patterns (Sched.song s)) (Sched.pattern s) = Some pat ->
  GoInt.is_int (Sched.row s + 1) -> Sched.row s + 1 < Pattern.Rows pat ->
  Sched.advanceRow s
  = Some (Sched.mk (Sched.song s) (Sched.tickSamples s) (Sched.playing s) (Sched.position s)
                   (Sched.pattern s) (Sched.row s + 1) 0 (Sched.tickCounter s) (Sched.log s)).
Proof.
  intros Hpat Hint Hrow. unfold Sched.advanceRow. rewrite add_id by done.
  apply index_lt in Hpat as Hlt.
  destruct (Z.ltb_spec (Sched.pattern s) (GoInt.len (Song.Patterns (Sched.song s)))); [|lia].
  rewrite Hpat. cbn. destruct (Z.geb_spec (Sched.row s + 1) (Pattern.Rows pat)); [lia|done].
Qed.

Lemma advanceRow_wrap s pat pat' :
  GoInt.index (Song.Patterns (Sched.song s)) (Sched.pattern s) = Some pat ->
  GoInt.is_int (Sched.row s + 1) -> Sched.row s + 1 >= Pattern.Rows pat ->
  GoInt.is_int (Sched.position s + 1) ->
  Sched.position s + 1 >= GoInt.len (Song.Order (Sched.song s)) ->
  GoInt.index (Song.Order (Sched.song s)) 0 = Some pat' ->
  Sched.advanceRow s
  = Some (Sched.mk (Sched.song s) (Sched.tickSamples s) (Sched.playing s) 0 pat' 0 0
                   (Sched.tickCounter s) (Sched.log s)).
Proof.
  intros Hpat Hint Hrow Hint' Hpos Hord. unfold Sched.advanceRow. rewrite !add_id by done.
  apply index_lt in Hpat as Hlt.
  destruct (Z.ltb_spec (Sched.pattern s) (GoInt.len (Song.Patterns (Sched.song s)))); [|lia].
  rewrite Hpat. cbn. destruct (Z.geb_spec (Sched.row s + 1) (Pattern.Rows pat)); [|lia].
  destruct (Z.geb_spec (Sched.position s + 1) (GoInt.len (Song.Order (Sched.song s)))); [|lia].
  by rewrite Hord.
Qed.

Section RowAdvance.
Context {F : Type} `{Float64 F}.
Implicit Types (p : Player.t F).

(** One row of [S] ticks of [T] samples each, inside a pattern. *)
Lemma GenerateSamples_row (T S : Z) p p' buf pat :
  1 <= T <= GoInt.max_int -> 1 <= S <= GoInt.max_int ->
  rowStart T S (Sched.view p) ->
  GoInt.index (Song.Patterns (Player.Song p)) (Player.Pattern p) = Some pat ->
  GoInt.is_int (Player.Row p + 1) -> Player.Row p + 1 < Pattern.Rows pat ->
  rowKeepsTiming p ->
  Player.GenerateSamples (Z.to_nat (S * T)) p = Some (p', buf) ->
  Sched.view p'
  = Sched.mk (Player.Song p) T true (Player.Position p) (Player.Pattern p)
             (Player.Row p + 1) 0 0 (Player.RowLog p ++ Sched.rowEntry (Sched.view p))
  /\ length buf = Z.to_nat (S * T).
Proof.
  intros HT HS Hs Hpat Hint Hrow Hkeep Hrun.
  apply GenerateSamples_sched in Hrun as [Hrun Hlen].
  2:{ intros k s Hk Hks _. eapply (keeps_in_row T S HT HS); [exact Hs|exact Hkeep| |exact Hks].
      nia. }
  split; [|done].
  rewrite (run_row T S HT HS _ Hs) in Hrun.
  rewrite (advanceRow_next _ pat) in Hrun by done.
  cbn in Hrun. by simplify_eq.
Qed.

End RowAdvance.

(** ** Row advance under the classic timing *)

(** C1: with Speed 6, Tempo 125 and SampleRate 44100, [UpdateTiming] sets
    TickSamples to 882 (in binary64, whatever the library functions); and from
    a playing state at tick 0 and tick sample counter 0, on a row of the
    current pattern that has a row after it (a pattern of more than one row,
    for its first row) and no set-speed-or-tempo command, a [GenerateSamples]
    call that fills a buffer of 5292 samples leaves the row counter advanced by
    exactly 1, at tick 0 of the next row, in the same pattern and order
    position. *)
Theorem row_advance_after_5292_samples
    (pow : float -> float -> float) (tanh : float -> float)
    (p p' : Player.t float) (buf : list float) (pat : Pattern.t) :
  Song.Speed (Player.Song p) = 6 ->
  Song.Tempo (Player.Song p) = 125 ->
  Player.SampleRate p = 44100 ->
  Player.TickSamples (Player.UpdateTiming (H:=Binary64.ops pow tanh) p) = 882
  /\ (Player.TickSamples p = 882 ->
      Player.Playing p = true -> Player.Tick p = 0 -> Player.TickCounter p = 0 ->
      GoInt.index (Song.Patterns (Player.Song p)) (Player.Pattern p) = Some pat ->
      0 <= Player.Row p -> Player.Row p + 1 < Pattern.Rows pat ->
      Pattern.Rows pat <= GoInt.max_int ->
      rowKeepsTiming p ->
      Player.GenerateSamples (H:=Binary64.ops pow tanh) 5292 p = Some (p', buf) ->
      Player.Row p' = Player.Row p + 1
      /\ Player.Tick p' = 0 /\ Player.TickCounter p' = 0
      /\ Player.Pattern p' = Player.Pattern p /\ Player.Position p' = Player.Position p
      /\ length buf = 5292%nat).
Proof.
  intros Hspeed Htempo Hrate. split.
  - unfold Player.UpdateTiming. cbn. rewrite Htempo, Hrate. vm_compute. reflexivity.
  - intros HT Hplay Htick Htc Hpat Hrow0 Hrow Hrows Hkeep Hrun.
    assert (HT' : 1 <= 882 <= GoInt.max_int) by (unfold GoInt.max_int; lia).
    assert (HS' : 1 <= 6 <= GoInt.max_int) by (unfold GoInt.max_int; lia).
    assert (Hstart : rowStart 882 6 (Sched.view p)) by (by repeat split).
    assert (Hint : GoInt.is_int (Player.Row p + 1)).
    { unfold GoInt.is_int, GoInt.min_int, GoInt.max_int in *. lia. }
    replace 5292%nat with (Z.to_nat (6 * 882)) in Hrun by reflexivity.
    destruct (GenerateSamples_row (H:=Binary64.ops pow tanh) 882 6 p p' buf pat
                HT' HS' Hstart Hpat Hint Hrow Hkeep Hrun) as [Hv Hlen].
    unfold Sched.view in Hv. injection Hv as _ _ _ Hpos Hpt Hr Htk Htcnt _.
    by repeat split.
Qed.

(** The player of [NewSong(1)], playing from its first row, with an echo
    ring of 64 samples in place of the 44100 of [NewPlayer]. *)
Definition default_player : Player.t float :=
  Player.set_Playing true
    (Player.set_EchoBuffers [replicate 64 0%float]
       (default (Player.mk (Song.NewSong 1) [] 0 false 0 0 0 0 0 0 [] [] [])
                (Player.NewPlayer (H:=Binary64.run) (Song.NewSong 1)))).

(** The call returned (it did not panic). *)
Definition returned {A} (r : option A) : bool :=
  match r with Some _ => true | None => false end.

Lemma default_player_row_returns :
  returned (Player.GenerateSamples (H:=Binary64.run) 5292 default_player) = true.
Proof. vm_compute. reflexivity. Qed.

Lemma row_advance_after_5292_samples_witness :
  Player.TickSamples (Player.UpdateTiming (H:=Binary64.run) default_player) = 882
  /\ exists p' buf,
      Player.GenerateSamples (H:=Binary64.run) 5292 default_player = Some (p', buf)
      /\ Player.Row default_player = 0 /\ Player.Row p' = 1.
Proof.
  pose proof default_player_row_returns as Hret.
  destruct (Player.GenerateSamples (H:=Binary64.run) 5292 default_player)
    as [[p' buf]|] eqn:Hrun; [|discriminate Hret].
  destruct (row_advance_after_5292_samples Binary64.pow_approx Binary64.tanh_approx
              default_player p' buf (Pattern.NewPattern 64 1)) as [Htiming Hrow];
    [reflexivity..|].
  split; [exact Htiming|]. exists p', buf. split; [reflexivity|]. split; [reflexivity|].
  destruct Hrow as [Hrow _].
  - reflexivity.
  - reflexivity.
  - reflexivity.
  - reflexivity.
  - reflexivity.
  - vm_compute. discriminate.
  - vm_compute. reflexivity.
  - vm_compute. discriminate.
  - intros pat cells Hpat Hcells. vm_compute in Hpat. injection Hpat as <-.
    vm_compute in Hcells. injection Hcells as <-.
    repeat constructor; vm_compute; discriminate.
  - exact Hrun.
  - rewrite Hrow. reflexivity.
Defined.

(** ** Effect processor *)

Section EffectProperties.
Context {F : Type} `{Float64 F}.
Implicit Types (p : Player.t F) (cs : ChannelState.t F).

Lemma processEffect_total ch fx p :
  0 <= ch < GoInt.len (Player.Channels p) -> is_Some (Player.processEffect ch fx p).
Proof.
  intros Hch. unfold Player.processEffect.
  destruct (index_is_Some (Player.Channels p) ch Hch) as [cs Hcs]. rewrite Hcs.
  destruct (_ && _); eauto.
Qed.

(** The outcome of an effect on its channel and on the song reads no other
    voice: replacing the other voices changes neither. *)
Lemma processEffect_reads_own ch fx p p' (others : list (ChannelState.t F)) :
  Player.processEffect ch fx p = Some p' ->
  GoInt.index others ch = GoInt.index (Player.Channels p) ch ->
  exists q',
    Player.processEffect ch fx (Player.set_Channels others p) = Some q'
    /\ GoInt.index (Player.Channels q') ch = GoInt.index (Player.Channels p') ch
    /\ Player.Song q' = Player.Song p'
    /\ Player.TickSamples q' = Player.TickSamples p'.
Proof.
  unfold Player.processEffect. intros Hp Hsame.
  destruct (_ && _) eqn:Hnone.
  { simplify_eq. eexists. split; [reflexivity|]. by repeat split. }
  cbn [Player.Channels Player.set_Channels].
  destruct (GoInt.index (Player.Channels p) ch) as [cs|] eqn:Hcs; [|done].
  rewrite Hsame. pose proof Hcs as Hcs0. pose proof Hsame as Hsame0.
  apply index_Some in Hcs as [Hch Hcs]. apply index_Some in Hsame as [_ Hsame].
  assert (Hl1 := lookup_lt_Some _ _ _ Hcs). assert (Hl2 := lookup_lt_Some _ _ _ Hsame).
  assert (Hi1 : forall x, GoInt.index (<[Z.to_nat ch := x]> (Player.Channels p)) ch = Some x).
  { intros x. apply index_Some. split; [done|]. by apply list_lookup_insert_eq. }
  assert (Hi2 : forall x, GoInt.index (<[Z.to_nat ch := x]> others) ch = Some x).
  { intros x. apply index_Some. split; [done|]. by apply list_lookup_insert_eq. }
  cbn [mbind option_bind] in Hp |- *. injection Hp as <-.
  eexists. split; [reflexivity|].
  repeat case_match; cbn; rewrite ?Hi1, ?Hi2, ?Hsame0, ?Hcs0; try by repeat split.
  all: cbn [Player.Song Player.set_Channels] in *; congruence.
Qed.

(** C8: [processEffect(ch, fx)], for every channel index, effect type and
    parameter, leaves every voice other than [ch] as it was (and the number of
    voices); it returns for every channel index inside the voices (outside
    them an effect other than 0/0 panics); and what it does to voice [ch], to
    the song and to the timing is the same whatever the other voices hold: no
    effect reads or writes another channel's voice. *)
Theorem processEffect_confined ch fx p :
  (0 <= ch < GoInt.len (Player.Channels p) -> is_Some (Player.processEffect ch fx p))
  /\ forall p', Player.processEffect ch fx p = Some p' ->
      length (Player.Channels p') = length (Player.Channels p)
      /\ (forall j : Z, j <> ch ->
            GoInt.index (Player.Channels p') j = GoInt.index (Player.Channels p) j)
      /\ (forall others : list (ChannelState.t F),
            GoInt.index others ch = GoInt.index (Player.Channels p) ch ->
            exists q',
              Player.processEffect ch fx (Player.set_Channels others p) = Some q'
              /\ GoInt.index (Player.Channels q') ch = GoInt.index (Player.Channels p') ch
              /\ Player.Song q' = Player.Song p'
              /\ Player.TickSamples q' = Player.TickSamples p').
Proof.
  split; [apply processEffect_total|]. intros p' Hp.
  pose proof (processEffect_frame _ _ _ _ Hp) as ((_ & _ & _ & Hlen) & _ & _ & _ & Hoth & _).
  split; [done|]. split.
  - intros j Hj. unfold GoInt.index. destruct (Z.ltb_spec j 0); [done|].
    unfold GoInt.index in Hp. unfold Player.processEffect in Hp.
    destruct (decide (Z.to_nat j = Z.to_nat ch)) as [Heq|Hne]; [|by apply Hoth].
    assert (ch < 0) as Hneg by lia.
    destruct (_ && _); [by simplify_eq|].
    unfold GoInt.index in Hp. destruct (Z.ltb_spec ch 0); [done|lia].
  - intros others Hsame. by eapply processEffect_reads_own.
Qed.

End EffectProperties.

(** A two-channel song at 100 samples per second (2 samples per tick at
    tempo 125), with the instruments and ornaments of [NewSong]: a C-4 on the
    first row of channel 0, and on channel 1 a note-off on row 1 and a
    set-volume command on row 2. *)
Definition demo_pattern : Pattern.t :=
  Pattern.mk 4 2
    [ [Note.mk 48 1 (-1) Effect.none; Note.mk 36 2 32 Effect.none];
      [Note.empty; Note.mk (-2) 0 (-1) Effect.none];
      [Note.empty; Note.mk (-1) 0 (-1) (Effect.mk FxVolume 32)];
      [Note.empty; Note.empty] ].

Definition demo_song : Song.t :=
  Song.mk 6 125 100 2 Song.default_instruments Song.default_ornaments
          [demo_pattern] [0]
          [ChannelConfig.mk GenTriangle 64 false (-1) 0 0;
           ChannelConfig.mk GenSawtooth 64 false 0 1 (-32)].

Definition demo_player : Player.t float :=
  default (Player.mk demo_song [] 0 false 0 0 0 0 0 0 [] [] [])
          (Player.NewPlayer (H:=Binary64.run) demo_song).

Lemma processEffect_confined_witness :
  exists p',
    Player.processEffect (H:=Binary64.run) 1 (Effect.mk FxVolume 32) demo_player = Some p'
    /\ GoInt.index (Player.Channels p') 0 = GoInt.index (Player.Channels demo_player) 0
    /\ (ChannelState.Volume <$> GoInt.index (Player.Channels p') 1) = Some 0.5%float.
Proof.
  destruct (processEffect_confined (H:=Binary64.run) 1 (Effect.mk FxVolume 32) demo_player)
    as [Htotal Hframe].
  destruct Htotal as [p' Hp'].
  - vm_compute. split; [discriminate|reflexivity].
  - exists p'. split; [exact Hp'|].
    destruct (Hframe p' Hp') as (_ & Hother & _).
    split; [apply Hother; discriminate|].
    vm_compute in Hp'. injection Hp' as <-. vm_compute. reflexivity.
Defined.

(** ** Note triggers *)

(** The cell's command is a set-volume command that takes effect (Cxx with
    xx <= 64). *)
Definition setsVolume (fx : Effect.t) : Prop :=
  Effect.Type_ fx = FxVolume /\ Effect.Param fx <= 64.

Section TriggerProperties.
Context {F : Type} `{Float64 F}.
Implicit Types (p : Player.t F) (cs : ChannelState.t F).

(** A voice right after a note-on for [pitch]. *)
Definition triggered (pitch : Z) cs : Prop :=
  ChannelState.Active cs = true
  /\ Oscillator.Phase (ChannelState.Oscillator cs) = fz 0
  /\ ChannelState.Frequency cs = NoteToFreq pitch
  /\ Oscillator.Frequency (ChannelState.Oscillator cs) = NoteToFreq pitch
  /\ ChannelState.EnvPhase cs = 0
  /\ ChannelState.EnvPos cs = fz 0
  /\ ChannelState.OrnPos cs = 0
  /\ ChannelState.OrnTick cs = 0.

Lemma TriggerNote_triggered pitch inst vol cs :
  triggered pitch (ChannelState.TriggerNote pitch inst vol cs).
Proof.
  unfold triggered, ChannelState.TriggerNote.
  destruct inst as [inst|]; repeat case_match; cbn; by repeat split.
Qed.

Lemma TriggerNote_TargetVol pitch inst vol cs :
  ChannelState.TargetVol (ChannelState.TriggerNote pitch inst vol cs)
  = if vol >=? 0 then f_of_Z vol ⊘ fz 64
    else match inst with
         | Some i => f_of_Z (Instrument.Volume i) ⊘ fz 64
         | None => ChannelState.TargetVol cs
         end.
Proof.
  unfold ChannelState.TriggerNote.
  destruct (Z.geb_spec vol 0), (Z.ltb_spec vol 0); try lia;
    destruct inst as [inst|]; repeat case_match; cbn; done.
Qed.

(** What a command does to the voice it addresses. *)
Lemma processEffect_voice ch fx p p' cs :
  Player.processEffect ch fx p = Some p' ->
  GoInt.index (Player.Channels p) ch = Some cs ->
  exists cs',
    GoInt.index (Player.Channels p') ch = Some cs'
    /\ ChannelState.Active cs' = ChannelState.Active cs
    /\ (forall pitch, triggered pitch cs -> triggered pitch cs')
    /\ (~ setsVolume fx ->
        ChannelState.TargetVol cs' = ChannelState.TargetVol cs
        /\ ChannelState.Volume cs' = ChannelState.Volume cs).
Proof.
  unfold Player.processEffect, setsVolume. intros Hp Hcs.
  destruct (_ && _) eqn:Hnone.
  { simplify_eq. exists cs. split; [done|]. split; [done|]. split; [done|]. by intros. }
  rewrite Hcs in Hp. cbn [mbind option_bind] in Hp. injection Hp as <-.
  apply index_Some in Hcs as [Hch Hcs]. assert (Hl := lookup_lt_Some _ _ _ Hcs).
  assert (Hi : forall x, GoInt.index (<[Z.to_nat ch := x]> (Player.Channels p)) ch = Some x).
  { intros x. apply index_Some. split; [done|]. by apply list_lookup_insert_eq. }
  assert (Hi0 : GoInt.index (Player.Channels p) ch = Some cs) by (by apply index_Some).
  repeat case_match; cbn; rewrite ?Hi, ?Hi0; eexists; (split; [reflexivity|]);
    unfold triggered; cbn; repeat split; try tauto; try done.
  all: exfalso; match goal with Hn : ~ _ |- _ => apply Hn end;
    split; [by apply Z.eqb_eq|by apply Z.leb_le].
Qed.

Lemma resolveInstrument_song note cs p q :
  Song.Instruments (Player.Song q) = Song.Instruments (Player.Song p) ->
  Player.resolveInstrument note cs q = Player.resolveInstrument note cs p.
Proof. unfold Player.resolveInstrument. by intros ->. Qed.

(** A cell with a note on its own channel. *)
Lemma processCell_trigger ch note p p' cs0 :
  Player.processCell ch note p = Some p' ->
  GoInt.index (Player.Channels p) ch = Some cs0 ->
  0 <= Note.Pitch note ->
  exists inst cs1 cs',
    Player.resolveInstrument note cs0 p = Some (inst, cs1)
    /\ GoInt.index (Player.Channels p') ch = Some cs'
    /\ triggered (Note.Pitch note) cs'
    /\ (~ setsVolume (Note.Effect note) ->
        ChannelState.TargetVol cs'
        = ChannelState.TargetVol
            (ChannelState.TriggerNote (Note.Pitch note) inst (Note.Volume note) cs1)).
Proof.
  unfold Player.processCell. intros Hp Hcs Hpitch. rewrite Hcs in Hp.
  cbn [mbind option_bind] in Hp.
  destruct (Z.eqb_spec (Note.Pitch note) (-2)); [lia|].
  destruct (Z.geb_spec (Note.Pitch note) 0); [|lia].
  destruct (resolveInstrument_Some note cs0 p) as (inst & cs1 & Hres & _).
  rewrite Hres in Hp. cbn [mbind option_bind] in Hp.
  exists inst, cs1.
  set (cst := ChannelState.TriggerNote _ _ _ _) in *.
  assert (Hput : GoInt.index (Player.Channels (Player.put_channel ch cst p)) ch = Some cst).
  { apply index_Some in Hcs as [Hch Hcs]. apply index_Some. split; [done|].
    cbn. apply list_lookup_insert_eq. by eapply lookup_lt_Some. }
  destruct (processEffect_voice _ _ _ _ _ Hp Hput) as (cs' & Hcs' & _ & Htrig & Hvol).
  exists cs'. split; [done|]. split; [done|]. split.
  - apply Htrig, TriggerNote_triggered.
  - intros Hn. by destruct (Hvol Hn).
Qed.

(** The row loop takes the voice of a channel from the cell of that channel
    alone. *)
Lemma rowLoop_channel cells : forall k p p' (i : nat) note,
  0 <= k ->
  Player.rowLoop cells k p = Some p' ->
  cells !! i = Some note ->
  k + Z.of_nat i < Song.Channels (Player.Song p) ->
  exists p1 p2,
    frame p p1
    /\ GoInt.index (Player.Channels p1) (k + Z.of_nat i)
       = GoInt.index (Player.Channels p) (k + Z.of_nat i)
    /\ Player.processCell (k + Z.of_nat i) note p1 = Some p2
    /\ GoInt.index (Player.Channels p') (k + Z.of_nat i)
       = GoInt.index (Player.Channels p2) (k + Z.of_nat i).
Proof.
  induction cells as [|c rest IH]; intros k p p' i note Hk Hrun Hi Hlt; [done|].
  cbn in Hrun.
  destruct (Z.ltb_spec k (Song.Channels (Player.Song p))); [|destruct i; cbn in *; lia].
  destruct (Player.processCell k c p) as [pa|] eqn:Hcell; [|done].
  cbn [mbind option_bind] in Hrun.
  destruct i as [|i]; cbn in Hi.
  - simplify_eq. exists p, pa. rewrite Z.add_0_r.
    split; [apply frame_refl|]. split; [done|]. split; [done|].
    apply rowLoop_frame in Hrun as (_ & _ & _ & _ & Hoth & _); [|lia].
    unfold GoInt.index. destruct (k <? 0); [done|]. apply Hoth. lia.
  - apply processCell_frame in Hcell as (Hf & _ & _ & _ & Hoth & _).
    assert (Hch : Song.Channels (Player.Song pa) = Song.Channels (Player.Song p)).
    { by destruct Hf as ((_ & ? & _) & _). }
    destruct (IH (k + 1) pa p' i note) as (p1 & p2 & Hf1 & Hsame & Hc & Hres);
      [lia|done|done|lia|].
    replace (k + 1 + Z.of_nat i) with (k + Z.of_nat (S i)) in * by lia.
    exists p1, p2. split; [by eapply frame_trans|]. split; [|done].
    rewrite Hsame. unfold GoInt.index. destruct (_ <? 0); [done|]. apply Hoth. lia.
Qed.

(** C4, amended: when [ProcessRow] reads, on channel [ch], a cell with pitch
    >= 0, the voice of [ch] after the call is active, its oscillator phase is
    0, its frequency (and its oscillator's) is [NoteToFreq] of the pitch, i.e.
    440 * Pow(2, (pitch - 57) / 12), its envelope phase and position and its
    ornament cursor are 0; and, unless the cell's own command is a set-volume
    command (Cxx, xx <= 64), its target volume is the cell's volume / 64 when
    that is >= 0, otherwise the default volume / 64 of the instrument the note
    resolves to (the cell's instrument when it names one, else the channel's
    last one), and unchanged when the note resolves to no instrument. *)
Theorem ProcessRow_triggers_note p p' pat cells (ch : nat) note cs0 :
  Player.ProcessRow p = Some p' ->
  GoInt.index (Song.Patterns (Player.Song p)) (Player.Pattern p) = Some pat ->
  Player.Row p < Pattern.Rows pat ->
  GoInt.index (Pattern.Notes pat) (Player.Row p) = Some cells ->
  cells !! ch = Some note ->
  Z.of_nat ch < Song.Channels (Player.Song p) ->
  Player.Channels p !! ch = Some cs0 ->
  0 <= Note.Pitch note ->
  exists inst cs1 cs',
    Player.resolveInstrument note cs0 p = Some (inst, cs1)
    /\ Player.Channels p' !! ch = Some cs'
    /\ ChannelState.Active cs' = true
    /\ Oscillator.Phase (ChannelState.Oscillator cs') = fz 0
    /\ ChannelState.Frequency cs' = NoteToFreq (Note.Pitch note)
    /\ Oscillator.Frequency (ChannelState.Oscillator cs') = NoteToFreq (Note.Pitch note)
    /\ ChannelState.EnvPhase cs' = 0
    /\ ChannelState.EnvPos cs' = fz 0
    /\ ChannelState.OrnPos cs' = 0
    /\ (~ setsVolume (Note.Effect note) ->
        ChannelState.TargetVol cs'
        = if Note.Volume note >=? 0 then f_of_Z (Note.Volume note) ⊘ fz 64
          else match inst with
               | Some i => f_of_Z (Instrument.Volume i) ⊘ fz 64
               | None => ChannelState.TargetVol cs0
               end).
Proof.
  intros Hrun Hpat Hrow Hcells Hcell Hch Hcs0 Hpitch.
  unfold Player.ProcessRow in Hrun.
  apply index_lt in Hpat as Hlt.
  destruct (Z.geb_spec (Player.Pattern p) (GoInt.len (Song.Patterns (Player.Song p)))); [lia|].
  rewrite Hpat in Hrun. cbn [mbind option_bind] in Hrun.
  destruct (Z.geb_spec (Player.Row p) (Pattern.Rows pat)); [lia|].
  cbn [Player.Song Player.set_RowLog Player.Row] in Hrun.
  destruct (Z.ltb_spec 0 (Song.Channels (Player.Song p))); [|lia].
  rewrite Hcells in Hrun. cbn [mbind option_bind] in Hrun.
  destruct (rowLoop_channel _ _ _ _ ch note (Z.le_refl 0) Hrun Hcell)
    as (p1 & p2 & Hf & Hsame & Hc & Hres); [cbn; lia|].
  rewrite Z.add_0_l in Hsame, Hres, Hc.
  cbn [Player.Channels Player.set_RowLog] in Hsame.
  rewrite (index_nat (Player.Channels p)), Hcs0 in Hsame.
  destruct (processCell_trigger _ _ _ _ _ Hc Hsame Hpitch)
    as (inst & cs1 & cs' & Hres1 & Hcs' & Htrig & Hvol).
  exists inst, cs1, cs'.
  rewrite (resolveInstrument_song _ _ p) in Hres1.
  2:{ destruct Hf as ((_ & _ & Hi & _) & _). exact Hi. }
  split; [done|]. rewrite <- index_nat, Hres. split; [done|].
  destruct Htrig as (?&?&?&?&?&?&?&?). repeat split; try done.
  intros Hn. rewrite (Hvol Hn), TriggerNote_TargetVol.
  destruct (Note.Volume note >=? 0); [done|]. destruct inst; [done|].
  unfold Player.resolveInstrument in Hres1.
  repeat case_match; simplify_option_eq; done.
Qed.

End TriggerProperties.

Lemma ProcessRow_triggers_note_witness :
  exists p' cs',
    Player.ProcessRow (H:=Binary64.run) demo_player = Some p'
    /\ Player.Channels p' !! 1%nat = Some cs'
    /\ ChannelState.Active cs' = true
    /\ ChannelState.Frequency cs' = NoteToFreq (H:=Binary64.run) 36
    /\ ChannelState.TargetVol cs' = 0.5%float.
Proof.
  destruct (Player.ProcessRow (H:=Binary64.run) demo_player) as [p'|] eqn:Hrun;
    [|vm_compute in Hrun; discriminate].
  destruct (Player.Channels demo_player !! 1%nat) as [cs0|] eqn:Hcs0;
    [|vm_compute in Hcs0; discriminate].
  destruct (ProcessRow_triggers_note (H:=Binary64.run) demo_player p' demo_pattern
              [Note.mk 48 1 (-1) Effect.none; Note.mk 36 2 32 Effect.none]
              1 (Note.mk 36 2 32 Effect.none) cs0)
    as (inst & cs1 & cs' & _ & Hcs' & Hact & _ & Hfreq & _ & _ & _ & _ & Hvol).
  - exact Hrun.
  - reflexivity.
  - reflexivity.
  - reflexivity.
  - reflexivity.
  - reflexivity.
  - exact Hcs0.
  - cbn. lia.
  - exists p', cs'. split; [reflexivity|]. split; [exact Hcs'|]. split; [exact Hact|].
    split; [exact Hfreq|]. rewrite Hvol.
    + reflexivity.
    + intros [Hty _]. discriminate Hty.
Defined.

(** A one-channel song whose first cell carries a note with volume 32 and
    the set-volume command C10. *)
Definition volume_clash_song : Song.t :=
  Song.mk 6 125 100 1 Song.default_instruments Song.default_ornaments
          [Pattern.mk 1 1 [[Note.mk 48 1 32 (Effect.mk FxVolume 16)]]] [0]
          [ChannelConfig.mk GenTriangle 64 false (-1) 0 0].

Definition volume_clash_player : Player.t float :=
  default (Player.mk volume_clash_song [] 0 false 0 0 0 0 0 0 [] [] [])
          (Player.NewPlayer (H:=Binary64.run) volume_clash_song).

(** C4 as stated fails: [ProcessRow] reads the cell above (pitch 48, volume
    override 32) on channel 0, and after the call the target volume of the
    voice is 16/64, not 32/64: the cell's own command has set it. *)
Lemma ProcessRow_volume_command_wins :
  exists p' cs',
    Player.ProcessRow (H:=Binary64.run) volume_clash_player = Some p'
    /\ Player.Channels p' !! 0%nat = Some cs'
    /\ ChannelState.TargetVol cs' = 0.25%float
    /\ ChannelState.TargetVol cs'
       <> @f_div float Binary64.run (@f_of_Z float Binary64.run 32) (@fz float Binary64.run 64).
Proof.
  destruct (Player.ProcessRow (H:=Binary64.run) volume_clash_player) as [p'|] eqn:Hrun;
    [|vm_compute in Hrun; discriminate].
  vm_compute in Hrun. injection Hrun as <-.
  eexists _, _. split; [reflexivity|]. split; [reflexivity|]. split; [reflexivity|].
  apply Binary64.neq_of_eqb; reflexivity.
Qed.

(** ** Release and silence *)

Section EnvelopeProperties.
Context {F : Type} `{Float64 F}.
Implicit Types (p : Player.t F) (cs : ChannelState.t F).

(** The volume one tick of release takes the voice to, before the
    threshold test. *)
Definition releaseDecay (env : Envelope.t) cs : F :=
  ChannelState.Volume cs
  ⊗ (fz 1 ⊖ (ChannelState.EnvPos cs ⊕ fz 1 ⊘ f_of_Z (Envelope.Release env)) ⊗ fdec 1 10).

(** The voice is inactive and its volume is 0. *)
Definition silent cs : Prop :=
  ChannelState.Active cs = false /\ ChannelState.Volume cs = fz 0.

Lemma ProcessEnvelope_release env ts cs :
  ChannelState.EnvPhase cs = 3 ->
  let cs' := ChannelState.ProcessEnvelope (Some env) ts cs in
  if (Envelope.Release env =? 0) || (ChannelState.Volume cs <=. fdec 1 1000)
     || (releaseDecay env cs <=. fdec 1 1000)
  then silent cs'
  else ChannelState.Active cs' = ChannelState.Active cs
       /\ ChannelState.Volume cs' = releaseDecay env cs.
Proof.
  intros Hph. unfold ChannelState.ProcessEnvelope, releaseDecay, silent. rewrite Hph.
  cbn [Z.eqb Pos.eqb].
  destruct (Envelope.Release env =? 0); [done|].
  destruct (ChannelState.Volume cs <=. fdec 1 1000); [done|]. cbn.
  destruct (_ <=. _); done.
Qed.

End EnvelopeProperties.

(** The cell of channel [j] in the row that a log entry names. *)
Definition loggedCell (pats : list Pattern.t) (j : nat) (e : Z * Z * Z) : option Note.t :=
  pat ← GoInt.index pats e.1.2;
  cells ← GoInt.index (Pattern.Notes pat) e.2;
  cells !! j.

(** In each of the logged rows, the cell of channel [j] (if the row has
    one) is [ok]. *)
Definition rowsHave (ok : Note.t -> Prop) (song : Song.t) (j : nat)
    (rows : list (Z * Z * Z)) : Prop :=
  Forall (fun e => forall note, loggedCell (Song.Patterns song) j e = Some note -> ok note) rows.

Section Silence.
Context {F : Type} `{Float64 F}.
Implicit Types (p : Player.t F) (cs : ChannelState.t F).

(** A property [P] of inactive voices that the cells [okCell] keep on the
    channel [j] they are on. *)
Variable j : nat.
Variable P : ChannelState.t F -> Prop.
Variable okCell : Note.t -> Prop.
Hypothesis P_inactive : forall cs, P cs -> ChannelState.Active cs = false.
Hypothesis P_cell : forall note q q' cs,
  okCell note ->
  Player.processCell (Z.of_nat j) note q = Some q' ->
  GoInt.index (Player.Channels q) (Z.of_nat j) = Some cs -> P cs ->
  exists cs', GoInt.index (Player.Channels q') (Z.of_nat j) = Some cs' /\ P cs'.

Definition holds p : Prop :=
  exists cs, Player.Channels p !! j = Some cs /\ P cs.

Lemma rowLoop_holds cells : forall k p p',
  0 <= k ->
  (forall (i : nat) note, cells !! i = Some note -> k + Z.of_nat i = Z.of_nat j -> okCell note) ->
  Player.rowLoop cells k p = Some p' -> holds p -> holds p'.
Proof using P_cell.
  induction cells as [|c rest IH]; intros k p p' Hk Hok Hrun Hp; cbn in Hrun.
  { by simplify_eq. }
  destruct (k <? Song.Channels (Player.Song p)); [|by simplify_eq].
  destruct (Player.processCell k c p) as [pa|] eqn:Hcell; [|done].
  cbn [mbind option_bind] in Hrun.
  apply (IH (k + 1) pa p'); [lia| |done|].
  - intros i note Hi Hj. apply (Hok (S i) note); [done|lia].
  - destruct Hp as (cs & Hcs & HP).
    destruct (decide (k = Z.of_nat j)) as [->|Hne].
    + destruct (P_cell c p pa cs) as (cs' & Hcs' & HP'); [|done| |done|].
      * apply (Hok 0%nat c); [done|lia].
      * by rewrite index_nat.
      * exists cs'. by rewrite <- index_nat.
    + apply processCell_frame in Hcell as (_ & _ & _ & _ & Hoth & _).
      exists cs. rewrite Hoth by lia. done.
Qed.

Lemma ProcessRow_holds p p' :
  rowsHave okCell (Player.Song p) j (rowEntry p) ->
  Player.ProcessRow p = Some p' -> holds p -> holds p'.
Proof using P_cell.
  unfold Player.ProcessRow, rowsHave, rowEntry, liveRow, loggedCell. intros Hrows Hrun Hp.
  destruct (_ >=? _); [by simplify_eq|].
  destruct (GoInt.index (Song.Patterns _) _) as [pat|] eqn:Hpat; [|done].
  cbn [mbind option_bind] in Hrun.
  destruct (_ >=? _); [by simplify_eq|].
  cbn [Player.Song Player.set_RowLog Player.Row] in Hrun.
  destruct (0 <? _); [|by simplify_eq].
  destruct (GoInt.index (Pattern.Notes pat) _) as [cells|] eqn:Hcells; [|done].
  cbn [mbind option_bind] in Hrun.
  eapply (rowLoop_holds cells 0); [lia| |exact Hrun|exact Hp].
  intros i note Hi Hj. apply Forall_cons in Hrows as [Hrow _].
  apply Hrow. cbn [fst snd]. rewrite Hpat. cbn [mbind option_bind]. rewrite Hcells.
  cbn [mbind option_bind]. by replace j with i by lia.
Qed.

Lemma advance_holds p q :
  Player.advance p = Some q ->
  exists rows,
    Player.RowLog q = Player.RowLog p ++ rows
    /\ Song.Patterns (Player.Song q) = Song.Patterns (Player.Song p)
    /\ (rowsHave okCell (Player.Song p) j rows -> holds p -> holds q).
Proof using P_cell P_inactive.
  unfold Player.advance. intros Hadv.
  destruct (Player.Playing p); [|simplify_eq; exists []; by rewrite app_nil_r].
  destruct (_ >=? _); [|simplify_eq; exists []; cbn; by rewrite app_nil_r].
  match type of Hadv with (?m ≫= _) = _ => destruct m as [p1|] eqn:Hrow; [|done] end.
  cbn [mbind option_bind] in Hadv.
  destruct (Player.ProcessTick p1) as [p2|] eqn:Htick; [|done].
  cbn [mbind option_bind] in Hadv.
  assert (H1 : exists rows,
             Player.RowLog p1 = Player.RowLog p ++ rows
             /\ Song.Patterns (Player.Song p1) = Song.Patterns (Player.Song p)
             /\ (rowsHave okCell (Player.Song p) j rows -> holds p -> holds p1)).
  { destruct (Player.Tick _ =? 0); [|simplify_eq; exists []; cbn; by rewrite app_nil_r].
    eexists. split; [|split].
    - apply ProcessRow_frame in Hrow as (_ & _ & _ & Hlog & _). exact Hlog.
    - apply ProcessRow_frame in Hrow as (((_ & _ & _ & _ & Hpat & _) & _) & _). exact Hpat.
    - intros Hrows Hp.
      match type of Hrow with Player.ProcessRow ?p0 = _ =>
        exact (ProcessRow_holds p0 p1 Hrows Hrow Hp) end. }
  destruct H1 as (rows & Hlog1 & Hpat1 & Hkeep1).
  apply ProcessTick_frame in Htick as ((Hs2 & _ & _ & _ & Hlog2 & _) & _ & _ & Hin2).
  exists rows.
  assert (Hend : Player.RowLog q = Player.RowLog p2 /\ Player.Song q = Player.Song p2
                 /\ Player.Channels q = Player.Channels p2).
  { destruct (_ >=? _); [|by simplify_eq].
    apply advanceRow_frame in Hadv as (Hs3 & _ & _ & _ & _ & _ & Hl3 & Hch & _). done. }
  destruct Hend as (Hl3 & Hs3 & Hc3).
  split; [congruence|]. split; [congruence|].
  intros Hrows Hp. destruct (Hkeep1 Hrows Hp) as (cs & Hcs & HP).
  exists cs. split; [|done]. rewrite Hc3. apply Hin2; [done|]. by apply P_inactive.
Qed.

Lemma sampleStep_holds p p' x :
  Player.sampleStep p = Some (p', x) ->
  exists rows,
    Player.RowLog p' = Player.RowLog p ++ rows
    /\ Song.Patterns (Player.Song p') = Song.Patterns (Player.Song p)
    /\ (rowsHave okCell (Player.Song p) j rows -> holds p -> holds p').
Proof using P_cell P_inactive.
  unfold Player.sampleStep. intros Hrun.
  destruct (Player.advance p) as [q|] eqn:Hadv; [|done]. cbn [mbind option_bind] in Hrun.
  destruct (Player.renderLoop _ _ _ _) as [[q' y]|] eqn:Hren; [|done].
  cbn [mbind option_bind] in Hrun. simplify_eq.
  apply renderLoop_frame in Hren as ((Hsong & _ & _ & _ & Hlog & _) & _ & Hin); [|lia].
  destruct (advance_holds _ _ Hadv) as (rows & Hlog1 & Hpat1 & Hkeep).
  exists rows. split; [congruence|]. split; [congruence|].
  intros Hrows Hp. destruct (Hkeep Hrows Hp) as (cs & Hcs & HP).
  exists cs. split; [|done]. apply Hin; [done|]. by apply P_inactive.
Qed.

Lemma GenerateSamples_holds n : forall p p' buf,
  Player.GenerateSamples n p = Some (p', buf) ->
  exists rows,
    Player.RowLog p' = Player.RowLog p ++ rows
    /\ Song.Patterns (Player.Song p') = Song.Patterns (Player.Song p)
    /\ (rowsHave okCell (Player.Song p) j rows -> holds p -> holds p').
Proof using P_cell P_inactive.
  induction n as [|n IH]; intros p p' buf Hrun; cbn in Hrun.
  { simplify_eq. exists []. by rewrite app_nil_r. }
  destruct (Player.sampleStep p) as [[p1 x]|] eqn:Hstep; [|done].
  cbn [mbind option_bind] in Hrun.
  destruct (Player.GenerateSamples n p1) as [[p2 xs]|] eqn:Hrest; [|done].
  cbn [mbind option_bind] in Hrun. simplify_eq.
  destruct (sampleStep_holds _ _ _ Hstep) as (rows1 & Hlog1 & Hpat1 & Hkeep1).
  destruct (IH _ _ _ Hrest) as (rows2 & Hlog2 & Hpat2 & Hkeep2).
  exists (rows1 ++ rows2). split; [by rewrite Hlog2, Hlog1, app_assoc|].
  split; [congruence|].
  intros [Hr1 Hr2]%Forall_app Hp. apply Hkeep2; [|by apply Hkeep1].
  unfold rowsHave. by rewrite Hpat1.
Qed.

End Silence.

(** The cell triggers no new note. *)
Definition noNoteOn (note : Note.t) : Prop := Note.Pitch note < 0.

(** The cell triggers no new note and sets no volume. *)
Definition restCell (note : Note.t) : Prop :=
  Note.Pitch note < 0 /\ ~ setsVolume (Note.Effect note).

Section ReleaseProperties.
Context {F : Type} `{Float64 F}.
Implicit Types (p : Player.t F) (cs : ChannelState.t F).

Lemma processCell_rest ch note q q' cs :
  Note.Pitch note < 0 ->
  Player.processCell ch note q = Some q' ->
  GoInt.index (Player.Channels q) ch = Some cs ->
  exists cs',
    GoInt.index (Player.Channels q') ch = Some cs'
    /\ ChannelState.Active cs' = ChannelState.Active cs
    /\ (~ setsVolume (Note.Effect note) -> ChannelState.Volume cs' = ChannelState.Volume cs).
Proof.
  unfold Player.processCell. intros Hpitch Hrun Hcs. rewrite Hcs in Hrun.
  cbn [mbind option_bind] in Hrun.
  destruct (Z.geb_spec (Note.Pitch note) 0); [lia|].
  destruct (Note.Pitch note =? -2); cbn [mbind option_bind] in Hrun.
  - assert (Hput : GoInt.index (Player.Channels (Player.put_channel ch (ChannelState.NoteOff cs) q)) ch
                   = Some (ChannelState.NoteOff cs)).
    { apply index_Some in Hcs as [Hch Hcs]. apply index_Some. split; [done|].
      cbn. apply list_lookup_insert_eq. by eapply lookup_lt_Some. }
    destruct (processEffect_voice _ _ _ _ _ Hrun Hput) as (cs' & Hcs' & Hact & _ & Hvol).
    exists cs'. split; [done|]. split; [done|]. intros Hn. by destruct (Hvol Hn).
  - destruct (processEffect_voice _ _ _ _ _ Hrun Hcs) as (cs' & Hcs' & Hact & _ & Hvol).
    exists cs'. split; [done|]. split; [done|]. intros Hn. by destruct (Hvol Hn).
Qed.

(** C7, amended: when a voice in the release phase of a bound envelope has
    its volume at or below 0.001, on entry or after the decay of the tick,
    that [ProcessEnvelope] call sets its volume to 0 and deactivates it.  A
    voice that is inactive with volume 0 is left untouched by every
    [ProcessTick].  Through any number of generated samples the log grows by
    the rows that were processed in between; the voice stays inactive as long
    as none of those rows has a note in the cell of its channel, and its
    volume stays 0 as long as, in addition, none of those cells carries a
    set-volume command (Cxx, xx <= 64).  So the deactivation happens once per
    released note. *)
Theorem release_deactivation_is_final :
  (forall (env : Envelope.t) (ts : Z) cs,
      ChannelState.EnvPhase cs = 3 ->
      (ChannelState.Volume cs <=. fdec 1 1000) = true
      \/ (releaseDecay env cs <=. fdec 1 1000) = true ->
      silent (ChannelState.ProcessEnvelope (Some env) ts cs))
  /\ forall p (j : nat) cs,
      Player.Channels p !! j = Some cs -> silent cs ->
      (forall p', Player.ProcessTick p = Some p' -> Player.Channels p' !! j = Some cs)
      /\ (forall n p' buf,
            Player.GenerateSamples n p = Some (p', buf) ->
            exists rows,
              Player.RowLog p' = Player.RowLog p ++ rows
              /\ (rowsHave noNoteOn (Player.Song p) j rows ->
                  exists cs', Player.Channels p' !! j = Some cs'
                              /\ ChannelState.Active cs' = false)
              /\ (rowsHave restCell (Player.Song p) j rows ->
                  exists cs', Player.Channels p' !! j = Some cs' /\ silent cs')).
Proof.
  split.
  - intros env ts cs Hph Hfall.
    pose proof (ProcessEnvelope_release env ts cs Hph) as Hrel. cbn zeta in Hrel.
    destruct Hfall as [Hv|Hd]; rewrite ?Hv, ?Hd, ?orb_true_r in Hrel; exact Hrel.
  - intros p j cs Hcs [Hact Hvol]. split.
    + intros p' (_ & _ & _ & Hin)%ProcessTick_frame. by apply Hin.
    + intros n p' buf Hrun.
      destruct (GenerateSamples_holds j (fun c => ChannelState.Active c = false) noNoteOn)
        with (n := n) (p := p) (p' := p') (buf := buf) as (rows & Hlog & _ & Hoff); try done.
      { intros note q q' c Hok Hcell Hc Hc0.
        destruct (processCell_rest _ _ _ _ _ Hok Hcell Hc) as (c' & Hc' & Ha & _).
        exists c'. split; [done|congruence]. }
      destruct (GenerateSamples_holds j silent restCell)
        with (n := n) (p := p) (p' := p') (buf := buf) as (rows' & Hlog' & _ & Hzero); try done.
      { by intros c [? _]. }
      { intros note q q' c [Hok Hnv] Hcell Hc [Ha0 Hv0].
        destruct (processCell_rest _ _ _ _ _ Hok Hcell Hc) as (c' & Hc' & Ha & Hv).
        exists c'. split; [done|]. split; [congruence|]. rewrite Hv; done. }
      assert (rows' = rows) as -> by (apply (app_inv_head (Player.RowLog p)); congruence).
      exists rows. split; [done|]. split.
      * intros Hrows. apply Hoff; [done|]. by exists cs.
      * intros Hrows. apply Hzero; [done|]. by exists cs.
Qed.

End ReleaseProperties.

(** A voice of the "Bass" instrument in release, its volume (2^-11) below
    the threshold. *)
Definition bass : Instrument.t :=
  Instrument.mk GenSawtooth (Envelope.mk 0 40 40 20) 0 56 0.

Definition fading_voice : ChannelState.t float :=
  ChannelState.set_Volume 0x1p-11%float
    (ChannelState.NoteOff (H:=Binary64.run)
       (ChannelState.TriggerNote (H:=Binary64.run) 36 (Some bass) 32
          (ChannelState.NewChannelState (H:=Binary64.run) 100%float))).

(** The demo player at tick 0 of row 2 (channel 1: the command C20, no
    note), playing, with the voice above on channel 1 after one envelope
    tick. *)
Definition after_release : Player.t float :=
  Player.set_Playing true
    (Player.set_Row 2
       (Player.put_channel 1
          (ChannelState.ProcessEnvelope (H:=Binary64.run)
             (Some (Instrument.Envelope bass)) 2 fading_voice)
          demo_player)).

(** C7 as stated fails: the voice of channel 1 has been deactivated with
    volume 0 by its release; the next tick processes a row that triggers no
    note on channel 1, and leaves the voice inactive with volume 0.5. *)
Lemma inactive_voice_volume_set_by_command :
  (exists cs, Player.Channels after_release !! 1%nat = Some cs
              /\ ChannelState.Active cs = false /\ ChannelState.Volume cs = 0%float)
  /\ exists p' buf cs',
      Player.GenerateSamples (H:=Binary64.run) 2 after_release = Some (p', buf)
      /\ Player.RowLog p' = [(0, 0, 2)]
      /\ Player.Channels p' !! 1%nat = Some cs'
      /\ ChannelState.Active cs' = false
      /\ ChannelState.Volume cs' = 0.5%float
      /\ ChannelState.Volume cs' <> 0%float.
Proof.
  split.
  - eexists. split; [reflexivity|]. split; reflexivity.
  - destruct (Player.GenerateSamples (H:=Binary64.run) 2 after_release) as [[p' buf]|] eqn:Hrun;
      [|vm_compute in Hrun; discriminate].
    vm_compute in Hrun. injection Hrun as <- <-.
    eexists _, _, _. split; [reflexivity|]. split; [reflexivity|]. split; [reflexivity|].
    split; [reflexivity|]. split; [reflexivity|].
    apply Binary64.neq_of_eqb; reflexivity.
Qed.

(** The start of [ExportWAV]: [SetPosition(0, 0)], then [Play()]. *)
Definition export_start (song : Song.t) : option (Player.t float) :=
  p ← Player.NewPlayer (H:=Binary64.run) song;
  p ← Player.SetPosition 0 0 p;
  Player.Play (H:=Binary64.run) p.

(** A two-channel song at 100 samples per second (a row is 12 samples):
    channel 0 plays four notes; channel 1 plays one note of instrument 2 at
    row 0 and releases it at row 2, and carries a slide command at row 13. *)
Definition release_song : Song.t :=
  let on pitch inst := Note.mk pitch inst (-1) Effect.none in
  let rows :=
    <[13%nat := [Note.empty; Note.mk (-1) 0 (-1) (Effect.mk FxSlideUp 4)]]>
      (<[12%nat := [on 60 1; Note.empty]]>
         (<[8%nat := [on 55 1; Note.empty]]>
            (<[4%nat := [on 52 1; Note.empty]]>
               (<[2%nat := [Note.empty; Note.mk (-2) 0 (-1) Effect.none]]>
                  (<[0%nat := [on 48 1; on 36 2]]>
                     (replicate 16 [Note.empty; Note.empty])))))) in
  Song.mk 6 125 100 2 Song.default_instruments Song.default_ornaments
          [Pattern.mk 16 2 rows] [0]
          [ChannelConfig.mk GenTriangle 64 false (-1) 0 0;
           ChannelConfig.mk GenSawtooth 64 false (-1) 0 0].

(** The player of [release_song] after [ExportWAV] has started it and
    generated [n] samples. *)
Definition release_playback (n : nat) : Player.t float :=
  default (Player.mk release_song [] 0 false 0 0 0 0 0 0 [] [] [])
          (p ← export_start release_song;
           fst <$> Player.GenerateSamples (H:=Binary64.run) n p).

(** The rows 11 to 15 of the pattern. *)
Definition rows_11_to_15 : list (Z * Z * Z) :=
  [(0, 0, 11); (0, 0, 12); (0, 0, 13); (0, 0, 14); (0, 0, 15)].

Lemma release_playback_rows :
  match Player.GenerateSamples (H:=Binary64.run) 60 (release_playback 132) with
  | Some (p', _) => Player.RowLog p' = Player.RowLog (release_playback 132) ++ rows_11_to_15
  | None => False
  end.
Proof. vm_compute. reflexivity. Qed.

Lemma release_deactivation_is_final_witness :
  (exists cs,
      Player.Channels (release_playback 121) !! 1%nat = Some cs
      /\ ChannelState.Active cs = true
      /\ silent (H:=Binary64.run)
           (ChannelState.ProcessEnvelope (H:=Binary64.run)
              (Some (Envelope.mk 0 40 40 20)) 2 cs))
  /\ exists p' buf cs',
      Player.GenerateSamples (H:=Binary64.run) 60 (release_playback 132) = Some (p', buf)
      /\ Player.RowLog p' = Player.RowLog (release_playback 132) ++ rows_11_to_15
      /\ Player.Channels p' !! 1%nat = Some cs' /\ silent (H:=Binary64.run) cs'.
Proof.
  destruct (release_deactivation_is_final (H:=Binary64.run)) as [Hoff Hstay].
  split.
  - destruct (Player.Channels (release_playback 121) !! 1%nat) as [cs|] eqn:Hcs;
      [|vm_compute in Hcs; discriminate].
    exists cs. split; [reflexivity|].
    vm_compute in Hcs. injection Hcs as <-. split; [reflexivity|].
    apply Hoff; [reflexivity|]. right. vm_compute. reflexivity.
  - destruct (Player.Channels (release_playback 132) !! 1%nat) as [cs|] eqn:Hcs;
      [|vm_compute in Hcs; discriminate].
    assert (Hsilent : silent (H:=Binary64.run) cs).
    { vm_compute in Hcs. injection Hcs as <-. split; reflexivity. }
    assert (Hsong : Player.Song (release_playback 132) = release_song).
    { vm_compute. reflexivity. }
    destruct (Hstay (release_playback 132) 1%nat cs Hcs Hsilent) as [_ Hgen].
    pose proof release_playback_rows as Hrows. revert Hrows.
    destruct (Player.GenerateSamples (H:=Binary64.run) 60 (release_playback 132))
      as [[p' buf]|] eqn:Hrun; [intros Hrows|intros []].
    destruct (Hgen 60%nat p' buf Hrun) as (rows & Hlog & _ & Hrest).
    assert (rows = rows_11_to_15) as ->.
    { apply (app_inv_head (Player.RowLog (release_playback 132))). congruence. }
    rewrite Hsong in Hrest.
    destruct Hrest as (cs' & Hcs' & Hs').
    + unfold rowsHave, rows_11_to_15.
      repeat (apply Forall_cons_2;
              [intros note Hnote; vm_compute in Hnote; injection Hnote as <-;
               split; [cbn; lia|intros [Hty _]; discriminate Hty]|]).
      apply Forall_nil_2.
    + exists p', buf, cs'. split; [reflexivity|]. split; [exact Hlog|]. split; [exact Hcs'|exact Hs'].
Defined.

(** ** Echo bus *)

(** Go's [a % n] is the mathematical [a mod n] whenever it is not negative
    (and a negative one is no index). *)
Lemma rem_nonneg_mod (a n : Z) : 0 < n -> 0 <= Z.rem a n -> Z.rem a n = a mod n.
Proof.
  intros Hn Hrem. destruct (Z.le_gt_cases 0 a) as [Ha|Ha].
  - apply Z.rem_mod_nonneg; lia.
  - assert (Hr := Z.rem_nonpos a n ltac:(lia) ltac:(lia)).
    assert (H0 : Z.rem a n = 0) by lia.
    rewrite H0. symmetry. apply Z.rem_divide in H0; [|lia].
    apply Z.mod_divide; [lia|done].
Qed.

Section EchoProperties.
Context {F : Type} `{Float64 F}.
Implicit Types (p : Player.t F) (cs : ChannelState.t F).

Lemma newChannel_EchoVolMod (song : Song.t) (i : nat) cfg :
  Song.ChanConfig song !! i = Some cfg ->
  ChannelState.EchoVolMod (Player.newChannel song i)
  = f_of_Z (ChannelConfig.EchoVolume cfg) ⊘ fz 64
  /\ ChannelState.EchoSource (Player.newChannel song i) = ChannelConfig.EchoSource cfg
  /\ ChannelState.EchoDelay (Player.newChannel song i) = ChannelConfig.EchoDelay cfg.
Proof. intros Hcfg. unfold Player.newChannel. by rewrite Hcfg. Qed.

(** The echo the renderer adds for a voice, when it reads one. *)
Lemma echoSample_read cs p e :
  Player.echoSample cs p = Some (Some e) ->
  let D := ChannelState.EchoDelay cs * Player.TickSamples p * Song.Speed (Player.Song p) in
  - 2 ^ 60 <= ChannelState.EchoDelay cs * Player.TickSamples p <= 2 ^ 60 ->
  - 2 ^ 60 <= D <= 2 ^ 60 ->
  (forall b, GoInt.index (Player.EchoBuffers p) (ChannelState.EchoSource cs) = Some b ->
             GoInt.len b <= 2 ^ 60) ->
  exists buf pos x,
    GoInt.index (Player.EchoBuffers p) (ChannelState.EchoSource cs) = Some buf
    /\ GoInt.index (Player.EchoPos p) (ChannelState.EchoSource cs) = Some pos
    /\ (0 <= pos < GoInt.len buf ->
        GoInt.index buf ((pos - D) mod GoInt.len buf) = Some x
        /\ (D mod GoInt.len buf <> 0 -> (pos - D) mod GoInt.len buf <> pos))
    /\ e = x ⊗ (fz 1 ⊕ ChannelState.EchoVolMod cs).
Proof.
  intros He D HdT HD Hlen. unfold Player.echoSample in He.
  destruct (_ && _); [|done].
  destruct (GoInt.index (Player.EchoPos p) _) as [pos|] eqn:Hpos; [|done].
  destruct (GoInt.index (Player.EchoBuffers p) _) as [buf|] eqn:Hbuf; [|done].
  cbn [mbind option_bind] in He.
  unfold GoInt.rem in He. destruct (Z.eqb_spec (GoInt.len buf) 0) as [|Hn0]; [done|].
  cbn [mbind option_bind] in He.
  destruct (GoInt.index buf _) as [x|] eqn:Hx; [|done].
  cbn [mbind option_bind] in He. injection He as <-.
  exists buf, pos, x. split; [done|]. split; [done|]. split; [|done].
  intros Hrange. specialize (Hlen buf eq_refl).
  assert (Hl : 0 < GoInt.len buf) by (unfold GoInt.len in *; lia).
  assert (Hmul1 : GoInt.mul (ChannelState.EchoDelay cs) (Player.TickSamples p)
                  = ChannelState.EchoDelay cs * Player.TickSamples p).
  { apply mul_id. unfold GoInt.is_int, GoInt.min_int, GoInt.max_int. lia. }
  rewrite Hmul1 in Hx.
  rewrite mul_id in Hx by (unfold GoInt.is_int, GoInt.min_int, GoInt.max_int; fold D; lia).
  fold D in Hx.
  rewrite sub_id in Hx by (unfold GoInt.is_int, GoInt.min_int, GoInt.max_int; lia).
  rewrite add_id in Hx by (unfold GoInt.is_int, GoInt.min_int, GoInt.max_int; lia).
  apply index_lt in Hx as Hidx.
  rewrite rem_nonneg_mod in Hx by lia.
  replace ((pos - D + GoInt.len buf) mod GoInt.len buf) with ((pos - D) mod GoInt.len buf) in Hx.
  2:{ rewrite <- (Z.mul_1_l (GoInt.len buf)) at 2. by rewrite Z.mod_add by lia. }
  split; [done|]. intros HDn Heq. apply HDn.
  apply Z.mod_divide; [lia|].
  assert (Hd := Z.div_mod (pos - D) (GoInt.len buf) ltac:(lia)). rewrite Heq in Hd.
  exists (- ((pos - D) / GoInt.len buf)). lia.
Qed.

(** C5: a sample the renderer generates for channel [ch] is the sample the
    voice wrote into its own ring buffer, plus -- when the voice's echo source
    [s] is a channel index and its echo delay [d] is > 0 -- the term
    EchoBuffers[s][(writePos_s - d * TickSamples * Speed) mod len] *
    (1 + EchoVolMod), read at the source's current write position moved back
    by the delay (a position other than the write position itself unless the
    delay is a multiple of the buffer length); with d <= 0 (d = 0 included)
    nothing is added.  EchoVolMod is EchoVolume / 64 of the channel's
    configuration, as [NewPlayer] sets it.  (Delay and buffer length are
    taken within 2^60 so that no product overflows.) *)
Theorem echo_contribution ch p p' x :
  Player.renderChannel ch p = Some (p', x) ->
  exists cs own ownPos ownBuf,
    GoInt.index (Player.Channels p) ch = Some cs
    /\ GoInt.index (Player.EchoPos p) ch = Some ownPos
    /\ GoInt.index (Player.EchoBuffers p') ch = Some ownBuf
    /\ GoInt.index ownBuf ownPos = Some own
    /\ (ChannelState.EchoDelay cs <= 0 -> x = own)
    /\ (let s := ChannelState.EchoSource cs in
        let D := ChannelState.EchoDelay cs * Player.TickSamples p' * Song.Speed (Player.Song p') in
        0 <= s < GoInt.len (Player.Channels p) ->
        0 < ChannelState.EchoDelay cs ->
        - 2 ^ 60 <= ChannelState.EchoDelay cs * Player.TickSamples p' <= 2 ^ 60 ->
        - 2 ^ 60 <= D <= 2 ^ 60 ->
        (forall b, GoInt.index (Player.EchoBuffers p') s = Some b -> GoInt.len b <= 2 ^ 60) ->
        exists buf pos e,
          GoInt.index (Player.EchoBuffers p') s = Some buf
          /\ GoInt.index (Player.EchoPos p') s = Some pos
          /\ (0 <= pos < GoInt.len buf ->
              GoInt.index buf ((pos - D) mod GoInt.len buf) = Some e
              /\ (D mod GoInt.len buf <> 0 -> (pos - D) mod GoInt.len buf <> pos))
          /\ x = own ⊕ e ⊗ (fz 1 ⊕ ChannelState.EchoVolMod cs))
    /\ forall (song : Song.t) (i : nat) cfg,
        Song.ChanConfig song !! i = Some cfg ->
        ChannelState.EchoVolMod (Player.newChannel song i)
        = f_of_Z (ChannelConfig.EchoVolume cfg) ⊘ fz 64.
Proof.
  unfold Player.renderChannel. intros Hrun.
  destruct (GoInt.index (Player.Channels p) ch) as [cs|] eqn:Hcs; [|done].
  cbn [mbind option_bind] in Hrun.
  destruct (ChannelState.GenerateSample cs) as [cs1 smp] eqn:Hgen.
  destruct (GenerateSample_voice cs) as [o Ho]. rewrite Hgen in Ho. cbn [fst] in Ho.
  cbn [Player.Song Player.put_channel Player.set_Channels Player.EchoBuffers Player.EchoPos]
    in Hrun.
  set (own := match GoInt.index (Song.ChanConfig (Player.Song p)) ch with
              | Some cfg => if negb (ChannelConfig.Muted cfg)
                            then smp ⊗ (f_of_Z (ChannelConfig.Volume cfg) ⊘ fz 64) else smp
              | None => smp end) in *.
  destruct (GoInt.index (Player.EchoBuffers p) ch) as [buf0|] eqn:Hbuf0; [|done].
  cbn [mbind option_bind] in Hrun.
  destruct (GoInt.index (Player.EchoPos p) ch) as [pos0|] eqn:Hpos0; [|done].
  cbn [mbind option_bind] in Hrun.
  destruct (GoInt.store buf0 pos0 own) as [buf1|] eqn:Hstore; [|done].
  cbn [mbind option_bind] in Hrun.
  destruct (GoInt.rem _ _) as [pos1|] eqn:Hrem; [|done].
  cbn [mbind option_bind] in Hrun.
  match type of Hrun with (Player.echoSample _ ?q ≫= _) = _ => set (q1 := q) in * end.
  destruct (Player.echoSample cs1 q1) as [e|] eqn:Hecho; [|done].
  cbn [mbind option_bind] in Hrun. injection Hrun as <- <-.
  assert (Hstored : buf1 = <[Z.to_nat pos0 := own]> buf0 /\ 0 <= pos0
                    /\ (Z.to_nat pos0 < length buf0)%nat).
  { unfold GoInt.store in Hstore. destruct (Z.ltb_spec pos0 0); [done|].
    destruct (buf0 !! Z.to_nat pos0) eqn:Hl; [|done]. simplify_eq.
    split; [done|]. split; [done|]. by eapply lookup_lt_Some. }
  destruct Hstored as (-> & Hpos0nn & Hpos0lt).
  assert (Hch : 0 <= ch /\ (Z.to_nat ch < length (Player.EchoBuffers p))%nat).
  { apply index_Some in Hbuf0 as [? Hb]. split; [done|]. by eapply lookup_lt_Some. }
  exists cs, own, pos0, (<[Z.to_nat pos0 := own]> buf0).
  split; [done|]. split; [done|]. split.
  { subst q1. cbn. apply index_Some. split; [lia|]. apply list_lookup_insert_eq, Hch. }
  split.
  { apply index_Some. split; [done|]. by apply list_lookup_insert_eq. }
  assert (Hfields : ChannelState.EchoDelay cs1 = ChannelState.EchoDelay cs
                    /\ ChannelState.EchoSource cs1 = ChannelState.EchoSource cs
                    /\ ChannelState.EchoVolMod cs1 = ChannelState.EchoVolMod cs).
  { by rewrite Ho. }
  destruct Hfields as (Hd & Hs & Hv).
  split; [|split].
  - intros Hle. unfold Player.echoSample in Hecho. rewrite Hd in Hecho.
    destruct (Z.gtb_spec (ChannelState.EchoDelay cs) 0); [lia|].
    rewrite andb_false_r in Hecho. by simplify_eq.
  - cbv zeta. intros Hsrc Hdel HdT HD Hlen.
    set (s := ChannelState.EchoSource cs) in *.
    destruct e as [e|].
    + destruct (echoSample_read cs1 q1 e Hecho) as (buf & pos & y & Hb & Hp & Hidx & ->).
      * by rewrite Hd.
      * by rewrite Hd.
      * rewrite Hs. exact Hlen.
      * rewrite Hs, Hd, Hv in *. exists buf, pos, y.
        split; [done|]. split; [done|]. split; [exact Hidx|done].
    + exfalso. unfold Player.echoSample in Hecho. rewrite Hd, Hs in Hecho.
      assert (Hlen' : GoInt.len (Player.Channels q1) = GoInt.len (Player.Channels p)).
      { subst q1. cbn. unfold GoInt.len. by rewrite length_insert. }
      rewrite Hlen' in Hecho. fold s in Hecho.
      destruct (Z.geb_spec s 0); [|lia].
      destruct (Z.ltb_spec s (GoInt.len (Player.Channels p))); [|lia].
      destruct (Z.gtb_spec (ChannelState.EchoDelay cs) 0); [|lia].
      cbn [andb] in Hecho.
      repeat (match type of Hecho with (?m ≫= _) = _ => destruct m; [|done] end;
              cbn [mbind option_bind] in Hecho).
      done.
  - intros song i cfg Hcfg. by destruct (newChannel_EchoVolMod song i cfg Hcfg).
Qed.

End EchoProperties.

(** Channel 1 of the demo song echoes channel 0 one row (12 samples) late
    at half volume. *)
Lemma echo_contribution_witness :
  exists p' x cs own buf e,
    Player.renderChannel (H:=Binary64.run) 1 demo_player = Some (p', x)
    /\ GoInt.index (Player.Channels demo_player) 1 = Some cs
    /\ GoInt.index (Player.EchoBuffers p') 0 = Some buf
    /\ GoInt.index buf 88 = Some e
    /\ x = @f_add float Binary64.run own
             (@f_mul float Binary64.run e
                (@f_add float Binary64.run (@fz float Binary64.run 1)
                   (ChannelState.EchoVolMod cs))).
Proof.
  destruct (Player.renderChannel (H:=Binary64.run) 1 demo_player) as [[p' x]|] eqn:Hrun;
    [|vm_compute in Hrun; discriminate].
  destruct (echo_contribution (H:=Binary64.run) 1 demo_player p' x Hrun)
    as (cs & own & ownPos & ownBuf & Hcs & _ & _ & _ & _ & Hecho & _).
  assert (Hp' : Player.TickSamples p' = 2 /\ Song.Speed (Player.Song p') = 6
                /\ GoInt.index (Player.EchoPos p') 0 = Some 0
                /\ (GoInt.len <$> GoInt.index (Player.EchoBuffers p') 0) = Some 100).
  { vm_compute in Hrun. injection Hrun as <- _. repeat split. }
  destruct Hp' as (HT & HS & Hpos & Hlen).
  assert (Hcs' : ChannelState.EchoSource cs = 0 /\ ChannelState.EchoDelay cs = 1).
  { vm_compute in Hcs. injection Hcs as <-. split; reflexivity. }
  destruct Hcs' as [Hsrc Hdel].
  cbv zeta in Hecho. rewrite Hsrc, Hdel, HT, HS in Hecho.
  destruct Hecho as (buf & pos & e & Hbuf & Hpos' & Hidx & Hx).
  - vm_compute. split; [discriminate|reflexivity].
  - lia.
  - lia.
  - lia.
  - intros b Hb. rewrite Hb in Hlen. injection Hlen as ->. lia.
  - exists p', x, cs, own, buf, e.
    rewrite Hbuf in Hlen. injection Hlen as Hlen.
    rewrite Hpos in Hpos'. injection Hpos' as <-.
    destruct Hidx as [Hidx _]; [lia|]. rewrite Hlen in Hidx.
    split; [reflexivity|]. split; [exact Hcs|]. split; [exact Hbuf|].
    split; [exact Hidx|exact Hx].
Defined.

(** ** Out-of-range indices *)

(** The song of [NewSong(1)] at 100 samples per second with its order list
    emptied. *)
Definition empty_order_song : Song.t :=
  Song.mk 6 125 100 1 Song.default_instruments Song.default_ornaments
          [Pattern.NewPattern 64 1] []
          [ChannelConfig.mk GenTriangle 64 false (-1) 0 0].

Definition empty_order_player : option (Player.t float) :=
  Player.NewPlayer (H:=Binary64.run) empty_order_song ≫= Player.Play (H:=Binary64.run).

(** At the end of a pattern an empty order list makes the row advance
    panic: the position is reset to 0 and [Order[0]] is read. *)
Lemma advanceRow_empty_order {F} `{Float64 F} (p : Player.t F) pat :
  Song.Order (Player.Song p) = [] ->
  GoInt.index (Song.Patterns (Player.Song p)) (Player.Pattern p) = Some pat ->
  GoInt.add (Player.Row p) 1 >= Pattern.Rows pat ->
  Player.advanceRow p = None.
Proof.
  intros Hord Hpat Hrow. unfold Player.advanceRow.
  cbn [Player.Song Player.set_Tick Player.set_Row Player.Pattern Player.Row].
  apply index_lt in Hpat as Hlt.
  destruct (Z.ltb_spec (Player.Pattern p) (GoInt.len (Song.Patterns (Player.Song p)))); [|lia].
  rewrite Hpat. cbn [mbind option_bind].
  destruct (Z.geb_spec (GoInt.add (Player.Row p) 1) (Pattern.Rows pat)); [|lia].
  cbn. rewrite Hord.
  destruct (_ >=? _); cbn; unfold GoInt.index; rewrite ?Hord; by destruct (_ <? 0).
Qed.

(** C2 fails on an empty order list: the player of the song above plays its
    64 rows (767 samples return), and the sample that ends the pattern panics
    in [GenerateSamples]. *)
Theorem GenerateSamples_panics_on_empty_order :
  (p ← empty_order_player;
   Some (returned (Player.GenerateSamples (H:=Binary64.run) 767 p),
         returned (Player.GenerateSamples (H:=Binary64.run) 768 p)))
  = Some (true, false).
Proof. vm_compute. reflexivity. Qed.

(** ** Row triggers *)

(** The song [main] builds for a new one-channel song: [NewSong(1)] with
    four notes in its pattern ([Note{Pitch: 48, Instrument: 1}] leaves the
    volume and the effect at their zero values). *)
Definition main_song : Song.t :=
  let s := Song.NewSong 1 in
  let cell pitch := [Note.mk pitch 1 0 Effect.none] in
  let rows := <[12%nat := cell 60]> (<[8%nat := cell 55]> (<[4%nat := cell 52]>
                (<[0%nat := cell 48]> (replicate 64 [Note.empty])))) in
  Song.mk (Song.Speed s) (Song.Tempo s) (Song.SampleRate s) (Song.Channels s)
          (Song.Instruments s) (Song.Ornaments s) [Pattern.mk 64 1 rows] (Song.Order s)
          (Song.ChanConfig s).

(** The same song at 100 samples per second: a row is 12 samples. *)
Definition main_song_100 : Song.t :=
  Song.mk 6 125 100 1 (Song.Instruments main_song) (Song.Ornaments main_song)
          (Song.Patterns main_song) (Song.Order main_song) (Song.ChanConfig main_song).

(** C3 fails on the first pass after [Play]: [Play] processes row 0 and the
    first tick of [GenerateSamples] processes row 0 again, so the notes of the
    row are triggered twice.  At 100 samples per second a row is 12 samples and
    the whole pass 768: row 0 is processed twice, rows 1 to 63 once each, and
    the scheduler is back at order position 0, row 0, still playing. *)
Theorem Play_then_GenerateSamples_processes_row_twice :
  (p ← export_start main_song_100;
   '(p', _) ← Player.GenerateSamples (H:=Binary64.run) 2 p;
   Some (Player.RowLog p, Player.RowLog p'))
  = Some ([(0, 0, 0)], [(0, 0, 0); (0, 0, 0)])
  /\ (p ← export_start main_song_100;
      '(p', _) ← Player.GenerateSamples (H:=Binary64.run) 768 p;
      Some (Player.RowLog p', Player.GetPlaybackInfo p'))
     = Some ((0, 0, 0) :: (0, 0, 0) :: map (fun r => (0, 0, r)) (seqZ 1 63),
             (0, 0, 0, 0, true)).
Proof. split; vm_compute; reflexivity. Qed.

(* ===================================================================== *)
(** * Further properties of the engine *)
(* ===================================================================== *)

(** ** Buffers and chunks *)

Section Chunks.
Context {F : Type} `{Float64 F}.
Implicit Types (p : Player.t F).

(** Filling a buffer of [n + m] samples is filling one of [n] and then one
    of [m]: the audio does not depend on the sizes of the buffers the
    consumer asks for. *)
Theorem GenerateSamples_chunks (n m : nat) p :
  Player.GenerateSamples (n + m) p
  = '(p1, b1) ← Player.GenerateSamples n p;
    '(p2, b2) ← Player.GenerateSamples m p1;
    Some (p2, b1 ++ b2).
Proof.
  revert p. induction n as [|n IH]; intros p.
  - cbn. by destruct (Player.GenerateSamples m p) as [[p2 b2]|].
  - cbn [Nat.add Player.GenerateSamples].
    destruct (Player.sampleStep p) as [[p1 x]|]; [|done]. cbn [mbind option_bind].
    rewrite IH.
    destruct (Player.GenerateSamples n p1) as [[p2 b1]|]; [|done]. cbn [mbind option_bind].
    by destruct (Player.GenerateSamples m p2) as [[p3 b2]|].
Qed.

(** A call that returns has filled the whole buffer. *)
Lemma GenerateSamples_length n : forall p p' buf,
  Player.GenerateSamples n p = Some (p', buf) -> length buf = n.
Proof.
  induction n as [|n IH]; intros p p' buf Hrun; cbn in Hrun; [by simplify_eq|].
  destruct (Player.sampleStep p) as [[p1 x]|]; [|done]. cbn in Hrun.
  destruct (Player.GenerateSamples n p1) as [[p2 xs]|] eqn:Hrest; [|done].
  cbn in Hrun. simplify_eq. cbn. f_equal. by eapply IH.
Qed.

End Chunks.

(** ** Stop *)

Section StopProperties.
Context {F : Type} `{Float64 F}.
Implicit Types (p : Player.t F) (cs : ChannelState.t F).

Lemma advance_stopped p : Player.Playing p = false -> Player.advance p = Some p.
Proof. intros Hp. unfold Player.advance. by rewrite Hp. Qed.

Lemma sampleStep_stopped p p' x :
  Player.Playing p = false ->
  Player.sampleStep p = Some (p', x) ->
  quiet p p'
  /\ (forall (j : nat) cs, Player.Channels p !! j = Some cs ->
                           ChannelState.Active cs = false -> Player.Channels p' !! j = Some cs).
Proof.
  unfold Player.sampleStep. intros Hstop Hrun. rewrite advance_stopped in Hrun by done.
  cbn [mbind option_bind] in Hrun.
  destruct (Player.renderLoop _ _ _ _) as [[q y]|] eqn:Hren; [|done].
  cbn [mbind option_bind] in Hrun. simplify_eq.
  apply renderLoop_frame in Hren as (Hq & _ & Hin); [|lia]. done.
Qed.

Lemma GenerateSamples_stopped n : forall p p' buf,
  Player.Playing p = false ->
  Player.GenerateSamples n p = Some (p', buf) ->
  quiet p p'
  /\ (forall (j : nat) cs, Player.Channels p !! j = Some cs ->
                           ChannelState.Active cs = false -> Player.Channels p' !! j = Some cs).
Proof.
  induction n as [|n IH]; intros p p' buf Hstop Hrun; cbn in Hrun.
  { simplify_eq. split; [apply quiet_refl|done]. }
  destruct (Player.sampleStep p) as [[p1 x]|] eqn:Hstep; [|done]. cbn in Hrun.
  destruct (Player.GenerateSamples n p1) as [[p2 xs]|] eqn:Hrest; [|done].
  cbn in Hrun. simplify_eq.
  apply sampleStep_stopped in Hstep as [Hq1 Hin1]; [|done].
  apply IH in Hrest as [Hq2 Hin2].
  2:{ destruct Hq1 as (_ & _ & _ & Hc & _). unfold cursor in Hc. simplify_eq. congruence. }
  split; [by eapply quiet_trans|]. intros j cs Hj Hact. apply Hin2; [|done]. by apply Hin1.
Qed.

(** After [Stop] the player is not playing and every voice is inactive
    with volume 0; the song, the cursor, the echo rings and the log are
    untouched.  Buffers generated from then on move nothing but the echo
    rings: the cursor, the timing, the song, the log and every voice stay as
    [Stop] left them -- so playback resumes from the very row and tick where it was
    stopped. *)
Theorem Stop_freezes_player p :
  let q := Player.Stop p in
  (Player.Playing q = false
   /\ Forall (fun cs => ChannelState.Active cs = false /\ ChannelState.Volume cs = fz 0)
             (Player.Channels q)
   /\ length (Player.Channels q) = length (Player.Channels p)
   /\ Player.Song q = Player.Song p
   /\ (Player.Position q, Player.Pattern q, Player.Row q, Player.Tick q, Player.TickCounter q)
      = (Player.Position p, Player.Pattern p, Player.Row p, Player.Tick p, Player.TickCounter p)
   /\ Player.EchoBuffers q = Player.EchoBuffers p
   /\ Player.EchoPos q = Player.EchoPos p
   /\ Player.RowLog q = Player.RowLog p)
  /\ (forall n, Player.AdvanceTime n q = Some q)
  /\ forall n q' buf,
      Player.GenerateSamples n q = Some (q', buf) ->
      Player.Channels q' = Player.Channels q
      /\ Player.Song q' = Player.Song q
      /\ Player.TickSamples q' = Player.TickSamples q
      /\ cursor q' = cursor q
      /\ Player.RowLog q' = Player.RowLog q.
Proof.
  intros q. subst q. split; [|split].
  - unfold Player.Stop. cbn. rewrite length_map. repeat split; try done.
    apply Forall_forall. intros cs (c & -> & _)%list_elem_of_fmap. done.
  - intros n. reflexivity.
  - intros n q' buf Hrun.
    apply GenerateSamples_stopped in Hrun as [(Hs & _ & Ht & Hc & Hl & Hlen) Hin]; [|done].
    repeat split; try done.
    apply list_eq. intros j.
    destruct (Player.Channels (Player.Stop p) !! j) as [cs|] eqn:Hj.
    + apply Hin; [done|]. unfold Player.Stop in Hj. cbn in Hj.
      apply list_lookup_fmap_Some in Hj as (c & -> & Hc'). done.
    + apply lookup_ge_None. apply lookup_ge_None in Hj. lia.
Qed.

End StopProperties.

Lemma Stop_freezes_player_witness :
  exists q' buf,
    Player.GenerateSamples (H:=Binary64.run) 5 (Player.Stop (H:=Binary64.run) (release_playback 30)) = Some (q', buf)
    /\ Player.Channels q' = Player.Channels (Player.Stop (H:=Binary64.run) (release_playback 30))
    /\ Player.GetPlaybackInfo q' = (0, 0, 2, 3, false).
Proof.
  destruct (Stop_freezes_player (H:=Binary64.run) (release_playback 30)) as (_ & _ & Hgen).
  destruct (Player.GenerateSamples (H:=Binary64.run) 5 (Player.Stop (H:=Binary64.run) (release_playback 30)))
    as [[q' buf]|] eqn:Hrun; [|vm_compute in Hrun; discriminate].
  destruct (Hgen 5%nat q' buf Hrun) as (Hch & _ & _ & Hcur & _).
  exists q', buf. split; [reflexivity|]. split; [exact Hch|].
  assert (Hstop : cursor (Player.Stop (H:=Binary64.run) (release_playback 30))
                 = (false, 0, 0, 2, 3, 0)) by (vm_compute; reflexivity).
  rewrite Hstop in Hcur. unfold cursor in Hcur. unfold Player.GetPlaybackInfo.
  injection Hcur as -> -> -> -> -> _. reflexivity.
Defined.


(** ** Set position *)

Section PositionProperties.
Context {F : Type} `{Float64 F}.
Implicit Types (p : Player.t F).

(** [SetPosition(pos, row)] panics for a negative [pos] (the guard
    [pos < len(Order)] lets it through to [Order[pos]]).  Otherwise it
    returns with the cursor at tick 0 of row [row] of position [pos], in the
    pattern [Order[pos]], or in the pattern it was in when [pos] is beyond
    the order list; [row] is taken as it is.  [Play] then processes exactly
    that row, when it is one: the log grows by [(pos, pattern, row)]. *)
Theorem SetPosition_then_Play pos row p :
  (pos < 0 -> Player.SetPosition pos row p = None)
  /\ (0 <= pos ->
      exists p1,
        Player.SetPosition pos row p = Some p1
        /\ Player.GetPlaybackInfo p1
           = (pos, default (Player.Pattern p) (Song.Order (Player.Song p) !! Z.to_nat pos),
              row, 0, Player.Playing p)
        /\ Player.TickCounter p1 = 0
        /\ Player.Song p1 = Player.Song p /\ Player.Channels p1 = Player.Channels p
        /\ Player.RowLog p1 = Player.RowLog p
        /\ forall p2 pat,
            Player.Play p1 = Some p2 ->
            GoInt.index (Song.Patterns (Player.Song p)) (Player.Pattern p1) = Some pat ->
            0 <= row < Pattern.Rows pat ->
            Player.RowLog p2 = Player.RowLog p ++ [(pos, Player.Pattern p1, row)]
            /\ Player.GetPlaybackInfo p2 = (pos, Player.Pattern p1, row, 0, true)).
Proof.
  unfold Player.SetPosition. cbn [Player.Song Player.set_Position]. split.
  - intros Hneg.
    assert (Hl : 0 <= GoInt.len (Song.Order (Player.Song p))) by (unfold GoInt.len; lia).
    destruct (Z.ltb_spec pos (GoInt.len (Song.Order (Player.Song p)))); [|lia].
    unfold GoInt.index. by destruct (Z.ltb_spec pos 0); [|lia].
  - intros Hpos.
    assert (Hgo : exists pt,
               (if pos <? GoInt.len (Song.Order (Player.Song p))
                then pat ← GoInt.index (Song.Order (Player.Song p)) pos;
                     Some (Player.set_Pattern pat (Player.set_Position pos p))
                else Some (Player.set_Position pos p))
               = Some (Player.set_Pattern pt (Player.set_Position pos p))
               /\ pt = default (Player.Pattern p) (Song.Order (Player.Song p) !! Z.to_nat pos)).
    { destruct (Z.ltb_spec pos (GoInt.len (Song.Order (Player.Song p)))) as [Hlt|Hge].
      - destruct (index_is_Some (Song.Order (Player.Song p)) pos) as [pt Hpt]; [lia|].
        exists pt. rewrite Hpt. split; [done|].
        apply index_Some in Hpt as [_ ->]. done.
      - exists (Player.Pattern p). split; [by destruct p|].
        rewrite (proj2 (lookup_ge_None _ _)); [done|]. unfold GoInt.len in Hge. lia. }
    destruct Hgo as (pt & -> & Hpt). cbn [mbind option_bind].
    eexists. split; [reflexivity|]. cbn. rewrite <- Hpt.
    do 5 (split; [done|]). intros p2 pat Hplay Hpat Hrow.
    unfold Player.Play in Hplay.
    apply ProcessRow_frame in Hplay as ((_ & _ & Hc & _) & _ & _ & Hlog & _).
    split.
    + rewrite Hlog. cbn. unfold rowEntry, liveRow. cbn.
      apply index_lt in Hpat as Hlt.
      destruct (Z.geb_spec pt (GoInt.len (Song.Patterns (Player.Song p)))); [lia|].
      rewrite Hpat. by destruct (Z.geb_spec row (Pattern.Rows pat)); [lia|].
    + unfold cursor in Hc. cbn in Hc. unfold Player.GetPlaybackInfo.
      injection Hc as -> -> -> -> -> _. done.
Qed.

End PositionProperties.

Lemma SetPosition_then_Play_witness :
  exists p1 p2,
    Player.SetPosition 0 1 demo_player = Some p1
    /\ Player.Play (H:=Binary64.run) p1 = Some p2
    /\ Player.RowLog p2 = [(0, 0, 1)]
    /\ Player.GetPlaybackInfo p2 = (0, 0, 1, 0, true).
Proof.
  destruct (SetPosition_then_Play (H:=Binary64.run) 0 1 demo_player) as [_ Hset].
  destruct (Hset ltac:(lia)) as (p1 & Hp1 & Hinfo & _ & _ & _ & _ & Hplay).
  assert (Hpat : Player.Pattern p1 = 0).
  { vm_compute in Hinfo. by injection Hinfo. }
  destruct (Player.Play (H:=Binary64.run) p1) as [p2|] eqn:Hp2.
  2:{ vm_compute in Hp1. injection Hp1 as <-. vm_compute in Hp2. discriminate. }
  destruct (Hplay p2 demo_pattern eq_refl) as [Hlog Hcur].
  - rewrite Hpat. reflexivity.
  - cbn. lia.
  - exists p1, p2. rewrite Hpat in *. done.
Defined.

(** ** The length of a row *)

Section RowLength.
Context {F : Type} `{Float64 F}.
Implicit Types (p : Player.t F).

(** A row lasts Speed * TickSamples samples.  From a playing state at the
    start of a row (tick 0, sample 0 of the tick) whose cells carry no
    set-speed-or-tempo command: [k] samples further, for every [k] short of
    Speed * TickSamples, the scheduler is still on that row, at tick
    [k / TickSamples], and has processed the row once if the first tick has
    elapsed; the buffer of exactly Speed * TickSamples samples ends at tick 0
    of the next row -- or, after the last row of the pattern, of row 0 of the
    pattern at the next order position, the first when the order list is at
    its end -- with the row processed exactly once. *)
Theorem row_lasts_Speed_times_TickSamples p pat :
  let T := Player.TickSamples p in
  let S := Song.Speed (Player.Song p) in
  let here := (Player.Position p, Player.Pattern p, Player.Row p) in
  1 <= T <= GoInt.max_int -> 1 <= S <= GoInt.max_int ->
  Player.Playing p = true -> Player.Tick p = 0 -> Player.TickCounter p = 0 ->
  GoInt.index (Song.Patterns (Player.Song p)) (Player.Pattern p) = Some pat ->
  0 <= Player.Row p < Pattern.Rows pat -> Pattern.Rows pat <= GoInt.max_int ->
  GoInt.is_int (Player.Position p + 1) ->
  rowKeepsTiming p ->
  (forall (k : nat) q buf,
      Z.of_nat k < S * T ->
      Player.GenerateSamples k p = Some (q, buf) ->
      (Player.Position q, Player.Pattern q, Player.Row q) = here
      /\ Player.Tick q = Z.of_nat k / T /\ Player.TickCounter q = Z.of_nat k mod T
      /\ Player.RowLog q = Player.RowLog p ++ (if T <=? Z.of_nat k then [here] else []))
  /\ forall p' buf,
      Player.GenerateSamples (Z.to_nat (S * T)) p = Some (p', buf) ->
      Player.RowLog p' = Player.RowLog p ++ [here]
      /\ Player.Playing p' = true /\ Player.Tick p' = 0 /\ Player.TickCounter p' = 0
      /\ Player.TickSamples p' = T /\ Player.Song p' = Player.Song p
      /\ if Player.Row p + 1 <? Pattern.Rows pat
         then (Player.Position p', Player.Pattern p', Player.Row p')
              = (Player.Position p, Player.Pattern p, Player.Row p + 1)
         else let pos := if Player.Position p + 1 >=? GoInt.len (Song.Order (Player.Song p))
                         then 0 else Player.Position p + 1 in
              Player.Position p' = pos /\ Player.Row p' = 0
              /\ GoInt.index (Song.Order (Player.Song p)) pos = Some (Player.Pattern p').
Proof.
  intros T S here HT HS Hplay Htick Htc Hpat Hrow Hrows Hpos Hkeep.
  assert (Hstart : rowStart T S (Sched.view p)) by (by repeat split).
  assert (Hentry : Sched.rowEntry (Sched.view p) = [here]).
  { unfold Sched.rowEntry, Sched.liveRow. cbn. apply index_lt in Hpat as Hlt.
    destruct (Z.geb_spec (Player.Pattern p) (GoInt.len (Song.Patterns (Player.Song p)))); [lia|].
    rewrite Hpat. by destruct (Z.geb_spec (Player.Row p) (Pattern.Rows pat)); [lia|]. }
  assert (Hsched : forall (k : nat) q buf,
             Z.of_nat k <= S * T -> Player.GenerateSamples k p = Some (q, buf) ->
             Sched.run k (Sched.view p) = Some (Sched.view q)).
  { intros k q buf Hk Hrun. apply GenerateSamples_sched in Hrun as [Hrun _]; [done|].
    intros i s Hi His _.
    eapply (keeps_in_row T S HT HS); [exact Hstart|exact Hkeep| |exact His]. lia. }
  split.
  - intros k q buf Hk Hrun. apply Hsched in Hrun; [|lia].
    rewrite (run_inRow T S HT HS _ k Hstart Hk) in Hrun.
    unfold inRow in Hrun. rewrite Hentry in Hrun. unfold Sched.view in Hrun. cbn in Hrun.
    injection Hrun as _ _ _ Hq1 Hq2 Hq3 Hq4 Hq5 Hq6.
    subst here. repeat split; congruence.
  - intros p' buf Hrun. apply Hsched in Hrun; [|lia].
    rewrite (run_row T S HT HS _ Hstart) in Hrun. rewrite Hentry in Hrun.
    unfold Sched.advanceRow in Hrun. cbn in Hrun.
    apply index_lt in Hpat as Hlt.
    destruct (Z.ltb_spec (Player.Pattern p) (GoInt.len (Song.Patterns (Player.Song p)))); [|lia].
    rewrite Hpat in Hrun. cbn in Hrun.
    rewrite add_id in Hrun by (unfold GoInt.is_int, GoInt.min_int, GoInt.max_int in *; lia).
    destruct (Z.geb_spec (Player.Row p + 1) (Pattern.Rows pat)) as [Hend|Hin].
    + destruct (Z.ltb_spec (Player.Row p + 1) (Pattern.Rows pat)); [lia|].
      rewrite add_id in Hrun by done.
      destruct (GoInt.index (Song.Order (Player.Song p)) _) as [pat'|] eqn:Hord; [|done].
      cbn in Hrun. unfold Sched.view in Hrun.
      injection Hrun as Hq0 Hq1 Hq2 Hq3 Hq4 Hq5 Hq6 Hq7 Hq8.
      cbv zeta. rewrite <- Hq3, <- Hq4 in *. repeat split; try congruence.
    + destruct (Z.ltb_spec (Player.Row p + 1) (Pattern.Rows pat)); [|lia].
      unfold Sched.view in Hrun.
      injection Hrun as Hq0 Hq1 Hq2 Hq3 Hq4 Hq5 Hq6 Hq7 Hq8.
      repeat split; congruence.
Qed.

End RowLength.

(** The demo player, playing, at the start of the last row of its
    pattern. *)
Definition last_row_player : Player.t float :=
  Player.set_Row 3 (Player.set_Playing true demo_player).

Lemma last_row_player_returns :
  returned (Player.GenerateSamples (H:=Binary64.run) 12 last_row_player) = true.
Proof. vm_compute. reflexivity. Qed.

Lemma row_lasts_Speed_times_TickSamples_witness :
  exists p' buf,
    Player.GenerateSamples (H:=Binary64.run) 12 last_row_player = Some (p', buf)
    /\ Player.RowLog p' = [(0, 0, 3)]
    /\ Player.Position p' = 0 /\ Player.Row p' = 0.
Proof.
  pose proof last_row_player_returns as Hret.
  destruct (Player.GenerateSamples (H:=Binary64.run) 12 last_row_player)
    as [[p' buf]|] eqn:Hrun; [|discriminate Hret].
  destruct (row_lasts_Speed_times_TickSamples (H:=Binary64.run) last_row_player demo_pattern)
    as [_ Hend].
  - vm_compute. split; discriminate.
  - vm_compute. split; discriminate.
  - reflexivity.
  - reflexivity.
  - reflexivity.
  - reflexivity.
  - cbn. lia.
  - vm_compute. discriminate.
  - vm_compute. split; discriminate.
  - intros pat cells Hpat Hcells. vm_compute in Hpat. injection Hpat as <-.
    vm_compute in Hcells. injection Hcells as <-.
    repeat constructor; vm_compute; discriminate.
  - destruct (Hend p' buf Hrun) as (Hlog & _ & _ & _ & _ & _ & Hnext).
    exists p', buf. split; [reflexivity|]. split; [exact Hlog|].
    destruct Hnext as (Hpos & Hrow & _). split; [exact Hpos|exact Hrow].
Defined.

(** ** The tick length follows the tempo *)

Section TimingProperties.
Context {F : Type} `{Float64 F}.
Implicit Types (p : Player.t F).

(** [TickSamples] is what [UpdateTiming] computes from the sample rate of
    the player and the tempo of the song. *)
Definition timed p : Prop :=
  Player.TickSamples p = Player.TickSamples (Player.UpdateTiming p).

Lemma timed_eq p p' :
  Player.SampleRate p' = Player.SampleRate p ->
  Song.Tempo (Player.Song p') = Song.Tempo (Player.Song p) ->
  Player.TickSamples p' = Player.TickSamples p ->
  timed p -> timed p'.
Proof.
  unfold timed, Player.UpdateTiming. cbn. intros -> -> ->. done.
Qed.

Lemma UpdateTiming_timed p : timed (Player.UpdateTiming p).
Proof. reflexivity. Qed.

Lemma processEffect_timed ch fx p p' :
  Player.processEffect ch fx p = Some p' -> timed p -> timed p'.
Proof.
  unfold Player.processEffect. intros Hp Ht.
  repeat case_match; simplify_option_eq;
    try done; try (by apply UpdateTiming_timed);
    try (eapply timed_eq; [| | |exact Ht]; done).
Qed.

Lemma processCell_timed ch note p p' :
  Player.processCell ch note p = Some p' -> timed p -> timed p'.
Proof.
  unfold Player.processCell. intros Hp Ht.
  destruct (GoInt.index (Player.Channels p) ch) as [cs|]; [|done].
  cbn [mbind option_bind] in Hp.
  match type of Hp with (?m ≫= _) = _ => destruct m as [pm|] eqn:Hm; [|done] end.
  cbn [mbind option_bind] in Hp.
  apply processEffect_timed in Hp; [done|].
  assert (Hpm : pm = p \/ exists cs', pm = Player.put_channel ch cs' p).
  { destruct (Note.Pitch note =? -2); [simplify_eq; eauto|].
    destruct (Note.Pitch note >=? 0); [|simplify_eq; eauto].
    destruct (resolveInstrument_Some note cs p) as (i & c & Hr & _).
    rewrite Hr in Hm. cbn in Hm. simplify_eq. eauto. }
  destruct Hpm as [->|[cs' ->]]; [done|]. eapply timed_eq; [| | |exact Ht]; done.
Qed.

Lemma rowLoop_timed cells : forall k p p',
  Player.rowLoop cells k p = Some p' -> timed p -> timed p'.
Proof.
  induction cells as [|note rest IH]; intros k p p' Hrun Ht; cbn in Hrun; [by simplify_eq|].
  destruct (k <? Song.Channels (Player.Song p)); [|by simplify_eq].
  destruct (Player.processCell k note p) as [pa|] eqn:Hcell; [|done]. cbn in Hrun.
  eapply IH; [exact Hrun|]. by eapply processCell_timed.
Qed.

Lemma ProcessRow_timed p p' :
  Player.ProcessRow p = Some p' -> timed p -> timed p'.
Proof.
  unfold Player.ProcessRow. intros Hp Ht.
  destruct (_ >=? _); [by simplify_eq|].
  destruct (GoInt.index (Song.Patterns _) _) as [pat|]; [|done]. cbn [mbind option_bind] in Hp.
  destruct (_ >=? _); [by simplify_eq|].
  cbn [Player.Song Player.set_RowLog Player.Row] in Hp.
  destruct (0 <? _); [|simplify_eq; eapply timed_eq; [| | |exact Ht]; done].
  destruct (GoInt.index (Pattern.Notes pat) _) as [cells|]; [|done].
  cbn [mbind option_bind] in Hp.
  eapply rowLoop_timed; [exact Hp|]. eapply timed_eq; [| | |exact Ht]; done.
Qed.

Lemma quiet_timed p p' : quiet p p' -> timed p -> timed p'.
Proof. intros (Hs & Hr & Ht & _) Htm. eapply timed_eq; [| | |exact Htm]; congruence. Qed.

Lemma advance_timed p p' : Player.advance p = Some p' -> timed p -> timed p'.
Proof.
  unfold Player.advance. intros Hadv Ht.
  destruct (Player.Playing p); [|by simplify_eq].
  destruct (_ >=? _); [|simplify_eq; eapply timed_eq; [| | |exact Ht]; done].
  match type of Hadv with (?m ≫= _) = _ => destruct m as [p1|] eqn:Hrow; [|done] end.
  cbn [mbind option_bind] in Hadv.
  destruct (Player.ProcessTick p1) as [p2|] eqn:Htick; [|done].
  cbn [mbind option_bind] in Hadv.
  assert (H1 : timed p1).
  { destruct (Player.Tick _ =? 0).
    - eapply ProcessRow_timed; [exact Hrow|]. eapply timed_eq; [| | |exact Ht]; done.
    - simplify_eq. eapply timed_eq; [| | |exact Ht]; done. }
  apply ProcessTick_frame in Htick as (Hq & _).
  apply (quiet_timed _ _ Hq) in H1.
  assert (H2 : timed (Player.set_Tick (GoInt.add (Player.Tick p2) 1) p2)).
  { eapply timed_eq; [| | |exact H1]; done. }
  destruct (_ >=? _); [|by simplify_eq].
  apply advanceRow_frame in Hadv as (Hs & Hr & Hts & _).
  eapply timed_eq; [| | |exact H2]; congruence.
Qed.

Lemma sampleStep_timed p p' x : Player.sampleStep p = Some (p', x) -> timed p -> timed p'.
Proof.
  unfold Player.sampleStep. intros Hrun Ht.
  destruct (Player.advance p) as [q|] eqn:Hadv; [|done]. cbn [mbind option_bind] in Hrun.
  destruct (Player.renderLoop _ _ _ _) as [[q' y]|] eqn:Hren; [|done].
  cbn [mbind option_bind] in Hrun. simplify_eq.
  apply renderLoop_frame in Hren as (Hq & _); [|lia].
  eapply quiet_timed; [exact Hq|]. by eapply advance_timed.
Qed.

(** The tick length never goes stale: [NewPlayer] sets [TickSamples] from
    the tempo, and [Play], [Stop], [SetPosition] and every generated buffer --
    tempo commands (Fxx, xx >= 32) included -- leave it equal to what
    [UpdateTiming] computes from the current tempo and sample rate. *)
Theorem TickSamples_follows_tempo :
  (forall song p, Player.NewPlayer song = Some p -> timed p)
  /\ (forall p p', timed p -> Player.Play p = Some p' -> timed p')
  /\ (forall p, timed p -> timed (Player.Stop p))
  /\ (forall pos row p p', timed p -> Player.SetPosition pos row p = Some p' -> timed p')
  /\ (forall n p p' buf, timed p -> Player.GenerateSamples n p = Some (p', buf) -> timed p').
Proof.
  split; [|split; [|split; [|split]]].
  - intros song p Hnew. unfold Player.NewPlayer in Hnew.
    repeat case_match; simplify_eq. apply UpdateTiming_timed.
  - intros p p' Ht Hplay. unfold Player.Play in Hplay.
    eapply ProcessRow_timed; [exact Hplay|]. eapply timed_eq; [| | |exact Ht]; done.
  - intros p Ht. eapply timed_eq; [| | |exact Ht]; done.
  - intros pos row p p' Ht Hset. unfold Player.SetPosition in Hset.
    repeat (first [progress simplify_option_eq | case_match]);
      (eapply timed_eq; [| | |exact Ht]; done).
  - induction n as [|n IH]; intros p p' buf Ht Hrun; cbn in Hrun; [by simplify_eq|].
    destruct (Player.sampleStep p) as [[p1 x]|] eqn:Hstep; [|done]. cbn in Hrun.
    destruct (Player.GenerateSamples n p1) as [[p2 xs]|] eqn:Hrest; [|done].
    cbn in Hrun. simplify_eq. eapply IH; [|exact Hrest]. by eapply sampleStep_timed.
Qed.

End TimingProperties.

(** The demo song with a tempo command (FFA: tempo 250) on row 1. *)
Definition tempo_song : Song.t :=
  Song.mk 6 125 100 2 Song.default_instruments Song.default_ornaments
          [Pattern.mk 4 2
             [ [Note.mk 48 1 (-1) Effect.none; Note.empty];
               [Note.mk (-1) 0 (-1) (Effect.mk FxSpeed 250); Note.empty];
               [Note.empty; Note.empty];
               [Note.empty; Note.empty] ]] [0]
          [ChannelConfig.mk GenTriangle 64 false (-1) 0 0;
           ChannelConfig.mk GenSawtooth 64 false (-1) 0 0].

Definition tempo_player : Player.t float :=
  default (Player.mk tempo_song [] 0 false 0 0 0 0 0 0 [] [] [])
          (export_start tempo_song).

Lemma TickSamples_follows_tempo_witness :
  exists p' buf,
    Player.GenerateSamples (H:=Binary64.run) 16 tempo_player = Some (p', buf)
    /\ Player.TickSamples tempo_player = 2
    /\ Song.Tempo (Player.Song p') = 250
    /\ Player.TickSamples p' = 1
    /\ timed (H:=Binary64.run) p'.
Proof.
  destruct (TickSamples_follows_tempo (H:=Binary64.run)) as (Hnew & Hplay & _ & Hset & Hgen).
  destruct (Player.GenerateSamples (H:=Binary64.run) 16 tempo_player)
    as [[p' buf]|] eqn:Hrun; [|vm_compute in Hrun; discriminate].
  assert (Ht : timed (H:=Binary64.run) p').
  { apply (Hgen 16%nat tempo_player p' buf); [|exact Hrun]. vm_compute. reflexivity. }
  exists p', buf. split; [reflexivity|]. split; [reflexivity|].
  vm_compute in Hrun. injection Hrun as <- _.
  split; [reflexivity|]. split; [reflexivity|]. exact Ht.
Defined.

(** ** Echo delays longer than the ring *)

Section EchoOverrun.
Context {F : Type} `{Float64 F}.
Implicit Types (p : Player.t F) (cs : ChannelState.t F).

(** The echo read position [(pos - D + len) % len] is negative, and the
    read panics, as soon as the delay [D] in samples exceeds the write
    position plus the length of the ring (and misses the multiples of the
    length). *)
Lemma echoSample_overrun cs p buf pos :
  let s := ChannelState.EchoSource cs in
  let D := ChannelState.EchoDelay cs * Player.TickSamples p * Song.Speed (Player.Song p) in
  0 <= s < GoInt.len (Player.Channels p) ->
  0 < ChannelState.EchoDelay cs ->
  GoInt.index (Player.EchoPos p) s = Some pos ->
  GoInt.index (Player.EchoBuffers p) s = Some buf ->
  - 2 ^ 60 <= ChannelState.EchoDelay cs * Player.TickSamples p <= 2 ^ 60 ->
  - 2 ^ 60 <= D <= 2 ^ 60 ->
  0 <= pos <= 2 ^ 60 -> GoInt.len buf <= 2 ^ 60 ->
  pos + GoInt.len buf < D ->
  (D - pos) mod GoInt.len buf <> 0 ->
  Player.echoSample cs p = None.
Proof.
  intros s D Hs Hd Hpos Hbuf HdT HD Hp Hl Hover Hmul.
  unfold Player.echoSample. fold s.
  destruct (Z.geb_spec s 0); [|lia].
  destruct (Z.ltb_spec s (GoInt.len (Player.Channels p))); [|lia].
  destruct (Z.gtb_spec (ChannelState.EchoDelay cs) 0); [|lia].
  cbn [andb]. rewrite Hpos, Hbuf. cbn [mbind option_bind].
  assert (Hl0 : 0 <= GoInt.len buf) by (unfold GoInt.len; lia).
  rewrite (mul_id (ChannelState.EchoDelay cs))
    by (unfold GoInt.is_int, GoInt.min_int, GoInt.max_int; lia).
  rewrite mul_id by (unfold GoInt.is_int, GoInt.min_int, GoInt.max_int; fold D; lia).
  fold D.
  rewrite sub_id by (unfold GoInt.is_int, GoInt.min_int, GoInt.max_int; lia).
  rewrite add_id by (unfold GoInt.is_int, GoInt.min_int, GoInt.max_int; lia).
  unfold GoInt.rem. destruct (Z.eqb_spec (GoInt.len buf) 0) as [|Hn0]; [done|].
  cbn [mbind option_bind].
  assert (Hneg : Z.rem (pos - D + GoInt.len buf) (GoInt.len buf) < 0).
  { assert (Hr := Z.rem_nonpos (pos - D + GoInt.len buf) (GoInt.len buf) ltac:(lia) ltac:(lia)).
    destruct (Z.eq_dec (Z.rem (pos - D + GoInt.len buf) (GoInt.len buf)) 0) as [Hz|Hz]; [|lia].
    exfalso. apply Hmul.
    apply Z.rem_divide in Hz; [|lia]. destruct Hz as [k Hk].
    apply Z.mod_divide; [lia|]. exists (1 - k). lia. }
  unfold GoInt.index. destruct (Z.ltb_spec (Z.rem (pos - D + GoInt.len buf) (GoInt.len buf)) 0);
    [done|lia].
Qed.

(** A channel that echoes another channel panics in the renderer when its
    delay in samples, EchoDelay * TickSamples * Speed, exceeds the write
    position of the source ring plus the ring's length and lies off the
    multiples of the length: the read index
    [(pos - delaySamples + len) % len] is negative.  (Delay, position and
    length are taken within 2^60 so that no product overflows.) *)
Theorem renderChannel_echo_overrun ch p cs buf pos :
  let s := ChannelState.EchoSource cs in
  let D := ChannelState.EchoDelay cs * Player.TickSamples p * Song.Speed (Player.Song p) in
  GoInt.index (Player.Channels p) ch = Some cs ->
  s <> ch -> 0 <= s < GoInt.len (Player.Channels p) ->
  0 < ChannelState.EchoDelay cs ->
  GoInt.index (Player.EchoPos p) s = Some pos ->
  GoInt.index (Player.EchoBuffers p) s = Some buf ->
  - 2 ^ 60 <= ChannelState.EchoDelay cs * Player.TickSamples p <= 2 ^ 60 ->
  - 2 ^ 60 <= D <= 2 ^ 60 ->
  0 <= pos <= 2 ^ 60 -> GoInt.len buf <= 2 ^ 60 ->
  pos + GoInt.len buf < D ->
  (D - pos) mod GoInt.len buf <> 0 ->
  Player.renderChannel ch p = None
  /\ forall n acc, Player.renderLoop (S n) ch acc p = None.
Proof.
  intros s D Hcs Hne Hs Hd Hpos Hbuf HdT HD Hp Hl Hover Hmul.
  assert (Hren : Player.renderChannel ch p = None).
  { unfold Player.renderChannel. rewrite Hcs. cbn [mbind option_bind].
    destruct (ChannelState.GenerateSample cs) as [cs1 smp] eqn:Hgen.
    destruct (GenerateSample_voice cs) as [o Ho]. rewrite Hgen in Ho. cbn [fst] in Ho.
    cbn [Player.Song Player.put_channel Player.set_Channels Player.EchoBuffers Player.EchoPos].
    destruct (GoInt.index (Player.EchoBuffers p) ch) as [buf0|] eqn:Hbuf0; [|done].
    cbn [mbind option_bind].
    destruct (GoInt.index (Player.EchoPos p) ch) as [pos0|] eqn:Hpos0; [|done].
    cbn [mbind option_bind].
    destruct (GoInt.store buf0 pos0 _) as [buf1|] eqn:Hstore; [|done].
    cbn [mbind option_bind].
    destruct (GoInt.rem _ _) as [pos1|] eqn:Hrem; [|done].
    cbn [mbind option_bind].
    rewrite (echoSample_overrun cs1 _ buf pos); [done|..]; rewrite ?Ho; cbn;
      rewrite ?length_insert; try done.
    - unfold GoInt.len in *. by rewrite length_insert.
    - apply index_Some in Hpos as [Hge Hpos]. apply index_Some. split; [done|].
      rewrite list_lookup_insert_ne; [done|]. apply index_Some in Hcs as [Hc _]. lia.
    - apply index_Some in Hbuf as [Hge Hbuf]. apply index_Some. split; [done|].
      rewrite list_lookup_insert_ne; [done|]. apply index_Some in Hcs as [Hc _]. lia. }
  split; [done|]. intros n acc. cbn. by rewrite Hren.
Qed.

End EchoOverrun.

(** The demo song with channel 1 echoing channel 0 nine rows (108 samples)
    late, in rings of 100 samples. *)
Definition long_echo_song : Song.t :=
  Song.mk 6 125 100 2 Song.default_instruments Song.default_ornaments
          [demo_pattern] [0]
          [ChannelConfig.mk GenTriangle 64 false (-1) 0 0;
           ChannelConfig.mk GenSawtooth 64 false 0 9 (-32)].

Definition long_echo_player : Player.t float :=
  default (Player.mk long_echo_song [] 0 false 0 0 0 0 0 0 [] [] [])
          (Player.NewPlayer (H:=Binary64.run) long_echo_song).

Lemma renderChannel_echo_overrun_witness :
  Player.renderChannel (H:=Binary64.run) 1 long_echo_player = None
  /\ Player.GenerateSamples (H:=Binary64.run) 1 long_echo_player = None.
Proof.
  split; [|vm_compute; reflexivity].
  destruct (Player.Channels long_echo_player !! 1%nat) as [cs|] eqn:Hcs;
    [|vm_compute in Hcs; discriminate].
  assert (Hecho : ChannelState.EchoSource cs = 0 /\ ChannelState.EchoDelay cs = 9).
  { vm_compute in Hcs. injection Hcs as <-. split; reflexivity. }
  destruct Hecho as [Hsrc Hdel].
  apply (renderChannel_echo_overrun (H:=Binary64.run) 1 long_echo_player cs
           (replicate 100 0%float) 0).
  - exact Hcs.
  - rewrite Hsrc. discriminate.
  - rewrite Hsrc. vm_compute. split; [discriminate|reflexivity].
  - rewrite Hdel. reflexivity.
  - rewrite Hsrc. vm_compute. reflexivity.
  - rewrite Hsrc. vm_compute. reflexivity.
  - rewrite Hdel. vm_compute. split; discriminate.
  - rewrite Hdel. vm_compute. split; discriminate.
  - lia.
  - vm_compute. discriminate.
  - rewrite Hdel. vm_compute. reflexivity.
  - rewrite Hdel. vm_compute. discriminate.
Defined.


(** ** Muted channels *)

Section MuteProperties.
Context {F : Type} `{Float64 F}.
Implicit Types (p : Player.t F) (cs : ChannelState.t F).

(** The mute flag of a channel only bypasses the scaling by the channel
    volume: the renderer's sample for a muted channel without echo is the
    sample of its voice (oscillator value times voice volume) unscaled, and
    that sample is what the channel writes into its echo ring; for a channel
    that is not muted it is the voice's sample times Volume / 64. *)
Theorem muted_channel_is_not_silenced ch p p' x cs cfg :
  Player.renderChannel ch p = Some (p', x) ->
  GoInt.index (Player.Channels p) ch = Some cs ->
  GoInt.index (Song.ChanConfig (Player.Song p)) ch = Some cfg ->
  ChannelState.EchoDelay cs <= 0 ->
  let voice := snd (ChannelState.GenerateSample cs) in
  x = (if ChannelConfig.Muted cfg then voice
       else voice ⊗ (f_of_Z (ChannelConfig.Volume cfg) ⊘ fz 64))
  /\ exists buf pos,
      GoInt.index (Player.EchoPos p) ch = Some pos
      /\ GoInt.index (Player.EchoBuffers p') ch = Some buf
      /\ GoInt.index buf pos = Some x.
Proof.
  intros Hrun Hcs Hcfg Hdel voice. subst voice.
  unfold Player.renderChannel in Hrun. rewrite Hcs in Hrun. cbn [mbind option_bind] in Hrun.
  destruct (ChannelState.GenerateSample cs) as [cs1 smp] eqn:Hgen.
  destruct (GenerateSample_voice cs) as [o Ho]. rewrite Hgen in Ho. cbn [fst] in Ho.
  cbn [Player.Song Player.put_channel Player.set_Channels Player.EchoBuffers Player.EchoPos]
    in Hrun.
  rewrite Hcfg in Hrun.
  destruct (GoInt.index (Player.EchoBuffers p) ch) as [buf0|] eqn:Hbuf0; [|done].
  cbn [mbind option_bind] in Hrun.
  destruct (GoInt.index (Player.EchoPos p) ch) as [pos0|] eqn:Hpos0; [|done].
  cbn [mbind option_bind] in Hrun.
  destruct (GoInt.store buf0 pos0 _) as [buf1|] eqn:Hstore; [|done].
  cbn [mbind option_bind] in Hrun.
  destruct (GoInt.rem _ _) as [pos1|] eqn:Hrem; [|done].
  cbn [mbind option_bind] in Hrun.
  destruct (Player.echoSample cs1 _) as [e|] eqn:Hecho; [|done].
  cbn [mbind option_bind] in Hrun.
  unfold Player.echoSample in Hecho. rewrite Ho in Hecho. cbn in Hecho.
  destruct (Z.gtb_spec (ChannelState.EchoDelay cs) 0); [lia|].
  rewrite andb_false_r in Hecho. injection Hecho as <-.
  injection Hrun as <- <-. cbn [snd].
  split; [by destruct (ChannelConfig.Muted cfg)|].
  unfold GoInt.store in Hstore. destruct (Z.ltb_spec pos0 0); [done|].
  destruct (buf0 !! Z.to_nat pos0) eqn:Hl; [|done]. injection Hstore as <-.
  apply index_Some in Hbuf0 as [Hch Hb0].
  eexists _, pos0. split; [done|]. split.
  - cbn. apply index_Some. split; [done|]. apply list_lookup_insert_eq.
    by eapply lookup_lt_Some.
  - apply index_Some. split; [lia|]. apply list_lookup_insert_eq. by eapply lookup_lt_Some.
Qed.

End MuteProperties.

(** The demo song with channel 0 muted, at the sample where row 0 has just
    triggered its notes. *)
Definition muted_song : Song.t :=
  Song.mk 6 125 100 2 Song.default_instruments Song.default_ornaments
          [demo_pattern] [0]
          [ChannelConfig.mk GenTriangle 32 true (-1) 0 0;
           ChannelConfig.mk GenSawtooth 64 false (-1) 0 0].

Definition muted_player : Player.t float :=
  default (Player.mk muted_song [] 0 false 0 0 0 0 0 0 [] [] [])
          (p ← export_start muted_song;
           '(p, _) ← Player.GenerateSamples (H:=Binary64.run) 3 p;
           Player.advance (H:=Binary64.run) p).

Lemma muted_channel_is_not_silenced_witness :
  exists p' x,
    Player.renderChannel (H:=Binary64.run) 0 muted_player = Some (p', x)
    /\ PrimFloat.ltb 0 (PrimFloat.abs x) = true.
Proof.
  destruct (Player.renderChannel (H:=Binary64.run) 0 muted_player) as [[p' x]|] eqn:Hrun;
    [|vm_compute in Hrun; discriminate].
  destruct (Player.Channels muted_player !! 0%nat) as [cs|] eqn:Hcs;
    [|vm_compute in Hcs; discriminate].
  destruct (muted_channel_is_not_silenced (H:=Binary64.run) 0 muted_player p' x cs
              (ChannelConfig.mk GenTriangle 32 true (-1) 0 0) Hrun) as [Hx _].
  - exact Hcs.
  - vm_compute. reflexivity.
  - vm_compute in Hcs. injection Hcs as <-. vm_compute. discriminate.
  - exists p', x. split; [reflexivity|]. rewrite Hx. cbn [ChannelConfig.Muted].
    vm_compute in Hcs. injection Hcs as <-. vm_compute. reflexivity.
Defined.

(** ** Note names *)

Module NoteNameProperties.
Import Stdlib.Strings.Ascii Stdlib.Strings.String NoteName.

(** What [StringToNote] makes of the name of [pitch]. *)
Definition round_trip (pitch : Z) : bool :=
  match NoteToString pitch with
  | Some s => (Nat.eqb (String.length s) 3)
              && (StringToNote s =? if pitch <? -2 then -1 else pitch)
  | None => false
  end.

Lemma round_trip_all : forallb round_trip (seqZ (-128) 256) = true.
Proof. vm_compute. reflexivity. Qed.

(** Note names round-trip: for every [int8] pitch, [NoteToString] returns
    a three-byte name, and [StringToNote] maps it back to the pitch -- for the
    notes 0 to 127, for the note-off sentinel -2 and for the empty cell -1; the
    other negative pitches are shown as the empty cell, and read back as -1. *)
Theorem StringToNote_NoteToString (pitch : Z) :
  -128 <= pitch <= 127 ->
  exists s,
    NoteToString pitch = Some s
    /\ String.length s = 3%nat
    /\ StringToNote s = if pitch <? -2 then -1 else pitch.
Proof.
  intros Hp.
  assert (Hin : pitch ∈ seqZ (-128) 256) by (apply elem_of_seqZ; lia).
  pose proof round_trip_all as Hall.
  rewrite forallb_forall in Hall. apply list_elem_of_In in Hin.
  specialize (Hall pitch Hin). unfold round_trip in Hall.
  destruct (NoteToString pitch) as [s|]; [|done].
  apply andb_true_iff in Hall as [Hlen Heq].
  exists s. split; [done|]. split.
  - by apply Nat.eqb_eq.
  - by apply Z.eqb_eq.
Qed.

Lemma StringToNote_NoteToString_witness :
  NoteToString 60 = Some "C-5"%string /\ StringToNote "C-5"%string = 60.
Proof.
  destruct (StringToNote_NoteToString 60) as (s & Hs & _ & Hback); [lia|].
  assert (Hname : NoteToString 60 = Some "C-5"%string) by reflexivity.
  rewrite Hname in Hs. injection Hs as <-. split; [exact Hname|exact Hback].
Defined.

End NoteNameProperties.

(** ** WAV export *)

Section ExportProperties.
Context {F : Type} `{Float64 F}.
Implicit Types (p : Player.t F).

Lemma int_of_float_is_int (x : F) : GoInt.is_int (int_of_float x).
Proof.
  unfold int_of_float, GoInt.is_int. destruct (f_trunc x) as [z|].
  - destruct (Z.leb_spec GoInt.min_int z), (Z.leb_spec z GoInt.max_int); cbn;
      unfold GoInt.min_int, GoInt.max_int in *; lia.
  - unfold GoInt.min_int, GoInt.max_int. lia.
Qed.

Lemma le_length n z : length (WAV.le n z) = n.
Proof. unfold WAV.le. by rewrite length_map, length_seq. Qed.

Lemma WriteHeader_length sr ch ds : length (WAV.WriteHeader sr ch ds) = 44%nat.
Proof.
  unfold WAV.WriteHeader, WAV.uint32, WAV.uint16.
  rewrite !length_app, !le_length. reflexivity.
Qed.

Lemma WriteSamples_length (samples : list F) :
  length (WAV.WriteSamples samples) = (2 * length samples)%nat.
Proof.
  induction samples as [|s rest IH]; [done|].
  unfold WAV.WriteSamples in *. cbn [flat_map]. rewrite length_app, IH.
  unfold WAV.pcm16, WAV.uint16. rewrite le_length. cbn. lia.
Qed.

Lemma WriteSamples_app (a b : list F) :
  WAV.WriteSamples (a ++ b) = WAV.WriteSamples a ++ WAV.WriteSamples b.
Proof. unfold WAV.WriteSamples. by rewrite flat_map_app. Qed.

(** The chunk loop generates the samples that are left, in one piece. *)
Lemma exportLoop_one_shot (fuel : nat) : forall total written p out,
  GoInt.is_int total -> 0 <= written ->
  (total - written + 4095) / 4096 <= Z.of_nat fuel ->
  WAV.exportLoop fuel total written WAV.chunkSize p out
  = match Player.GenerateSamples (Z.to_nat (total - written)) p with
    | Some (p', samples) => WAV.Returned (p', out ++ WAV.WriteSamples samples)
    | None => WAV.Panicked
    end.
Proof.
  induction fuel as [|fuel IH]; intros total written p out Htot Hw Hfuel.
  - assert (total <= written).
    { destruct (Z.le_gt_cases total written); [done|].
      assert (1 <= (total - written + 4095) / 4096); [|lia].
      apply Z.div_le_lower_bound; lia. }
    cbn. destruct (Z.ltb_spec written total); [lia|].
    replace (Z.to_nat (total - written)) with 0%nat by lia. cbn. by rewrite app_nil_r.
  - cbn [WAV.exportLoop]. destruct (Z.ltb_spec written total) as [Hlt|Hge].
    2:{ replace (Z.to_nat (total - written)) with 0%nat by lia. cbn. by rewrite app_nil_r. }
    rewrite sub_id by (unfold GoInt.is_int, GoInt.min_int, GoInt.max_int in *; lia).
    unfold WAV.chunkSize. destruct (Z.ltb_spec (total - written) 4096) as [Hlast|Hmore].
    + destruct (Player.GenerateSamples (Z.to_nat (total - written)) p)
        as [[p1 buf]|] eqn:Hgen; [|done].
      apply GenerateSamples_length in Hgen as Hlen.
      assert (Hl : GoInt.len buf = total - written) by (unfold GoInt.len; lia).
      rewrite Hl. rewrite add_id by (replace (written + (total - written)) with total by lia; done).
      replace (written + (total - written)) with total by lia.
      destruct fuel; cbn; by destruct (Z.ltb_spec total total); [lia|].
    + replace (Z.to_nat (total - written))
        with (Z.to_nat 4096 + Z.to_nat (total - (written + 4096)))%nat by lia.
      rewrite GenerateSamples_chunks.
      destruct (Player.GenerateSamples (Z.to_nat 4096) p) as [[p1 buf]|] eqn:Hgen; [|done].
      cbn [mbind option_bind].
      apply GenerateSamples_length in Hgen as Hlen.
      assert (Hl : GoInt.len buf = 4096) by (unfold GoInt.len; lia).
      rewrite Hl. rewrite add_id by (unfold GoInt.is_int, GoInt.min_int, GoInt.max_int in *; lia).
      change (WAV.exportLoop fuel total (written + 4096) 4096 p1 (out ++ WAV.WriteSamples buf))
        with (WAV.exportLoop fuel total (written + 4096) WAV.chunkSize p1
                (out ++ WAV.WriteSamples buf)).
      rewrite IH; [|done|lia|].
      * destruct (Player.GenerateSamples _ p1) as [[p2 buf2]|]; cbn [mbind option_bind]; [|done].
        by rewrite WriteSamples_app, app_assoc.
      * replace (total - written + 4095) with (total - (written + 4096) + 4095 + 1 * 4096) in Hfuel
          by lia.
        rewrite Z.div_add in Hfuel by lia. lia.
Qed.

(** [ExportWAV] writes the 44-byte header followed by the 16-bit samples
    of one run of [GenerateSamples] over the whole duration from
    [SetPosition(0, 0); Play()], whatever the chunking: with enough passes for
    the chunk loop (one per 4096 samples) -- so the loop terminates --, the call
    panics exactly when that run does, and otherwise leaves the player stopped
    behind that run and has written 44 + 2 * totalSamples bytes, the data
    size the header announces. *)
Theorem ExportWAV_writes_one_run (fuel : nat) p (durationSeconds : F) :
  let total := int_of_float (durationSeconds ⊗ f_of_Z (Player.SampleRate p)) in
  (total + 4095) / 4096 <= Z.of_nat fuel ->
  WAV.ExportWAV fuel p durationSeconds
  = match p0 ← Player.SetPosition 0 0 p; p1 ← Player.Play p0;
          Player.GenerateSamples (Z.to_nat total) p1 with
    | Some (p', samples) =>
        WAV.Returned (Player.Stop p',
                      WAV.WriteHeader (Player.SampleRate p) 1 (GoInt.mul total 2)
                      ++ WAV.WriteSamples samples)
    | None => WAV.Panicked
    end
  /\ forall p' out,
      WAV.ExportWAV fuel p durationSeconds = WAV.Returned (p', out) ->
      length out = (44 + 2 * Z.to_nat total)%nat
      /\ Player.Playing p' = false.
Proof.
  intros total Hfuel.
  assert (Hone : WAV.ExportWAV fuel p durationSeconds
    = match p0 ← Player.SetPosition 0 0 p; p1 ← Player.Play p0;
            Player.GenerateSamples (Z.to_nat total) p1 with
      | Some (p', samples) =>
          WAV.Returned (Player.Stop p',
                        WAV.WriteHeader (Player.SampleRate p) 1 (GoInt.mul total 2)
                        ++ WAV.WriteSamples samples)
      | None => WAV.Panicked
      end).
  { unfold WAV.ExportWAV. fold total.
    destruct (Player.SetPosition 0 0 p) as [p0|]; [|done]. cbn [mbind option_bind].
    destruct (Player.Play p0) as [p1|]; [|done]. cbn [mbind option_bind].
    rewrite exportLoop_one_shot; [|apply int_of_float_is_int|lia|by rewrite Z.sub_0_r].
    rewrite Z.sub_0_r.
    by destruct (Player.GenerateSamples (Z.to_nat total) p1) as [[p' samples]|]. }
  split; [exact Hone|].
  intros p' out Hret. rewrite Hone in Hret.
  pose proof (WriteHeader_length (Player.SampleRate p) 1 (GoInt.mul total 2)) as Hhdr.
  set (hdr := WAV.WriteHeader _ _ _) in *. clearbody hdr. clear Hone.
  destruct (Player.SetPosition 0 0 p) as [p0|]; [|done]. cbn [mbind option_bind] in Hret.
  destruct (Player.Play p0) as [p1|]; [|done]. cbn [mbind option_bind] in Hret.
  destruct (Player.GenerateSamples (Z.to_nat total) p1) as [[p2 samples]|] eqn:Hgen; [|done].
  injection Hret as <- <-. apply GenerateSamples_length in Hgen.
  rewrite length_app, Hhdr, WriteSamples_length, Hgen. done.
Qed.

End ExportProperties.

Lemma ExportWAV_writes_one_run_witness :
  exists p' out,
    WAV.ExportWAV (H:=Binary64.run) 1 demo_player 0.5%float = WAV.Returned (p', out)
    /\ length out = 144%nat
    /\ Player.Playing p' = false.
Proof.
  destruct (ExportWAV_writes_one_run (H:=Binary64.run) 1 demo_player 0.5%float)
    as [_ Hlen].
  { vm_compute. discriminate. }
  destruct (WAV.ExportWAV (H:=Binary64.run) 1 demo_player 0.5%float)
    as [[p' out]| |] eqn:Hrun; [|vm_compute in Hrun; discriminate..].
  destruct (Hlen p' out eq_refl) as [Hout Hstop].
  exists p', out. split; [reflexivity|]. split; [|exact Hstop].
  rewrite Hout. vm_compute. reflexivity.
Defined.

(** ** Playback without faults *)

(** Song data the engine plays without a fault: the order list is not
    empty and names patterns of the song; every pattern has the rows it
    announces, and no cell of it sets an echo; every ornament loops inside its
    values.  (The lengths of the slices are in [int].) *)
Definition playable (s : Song.t) : Prop :=
  Song.Order s <> []
  /\ GoInt.len (Song.Order s) <= GoInt.max_int
  /\ Forall (fun i => 0 <= i < GoInt.len (Song.Patterns s)) (Song.Order s)
  /\ Forall (fun pat =>
               Pattern.Rows pat <= GoInt.len (Pattern.Notes pat) <= GoInt.max_int
               /\ Forall (Forall (fun note => Effect.Type_ (Note.Effect note) <> FxEcho))
                         (Pattern.Notes pat))
            (Song.Patterns s)
  /\ GoInt.len (Song.Ornaments s) <= GoInt.max_int
  /\ Forall (fun orn => Ornament.Loop orn < GoInt.len (Ornament.Values orn) <= GoInt.max_int)
            (Song.Ornaments s).

(** No cell of the song sets the speed or the tempo. *)
Definition steady (s : Song.t) : Prop :=
  Forall (fun pat => Forall (Forall noSpeedFx) (Pattern.Notes pat)) (Song.Patterns s).

Lemma playable_fixed s s' : song_fixed s s' -> playable s -> playable s'.
Proof.
  intros (_ & _ & _ & Ho & Hp & Hord & _). unfold playable. by rewrite Ho, Hp, Hord.
Qed.

Lemma steady_fixed s s' : song_fixed s s' -> steady s -> steady s'.
Proof. intros (_ & _ & _ & _ & Hp & _). unfold steady. by rewrite Hp. Qed.

Section Safety.
Context {F : Type} `{Float64 F}.
Implicit Types (p : Player.t F) (cs : ChannelState.t F).

(** The ornament cursor of a voice is inside the ornament it steps
    through. *)
Definition ornament_ok (s : Song.t) cs : Prop :=
  0 <= ChannelState.OrnPos cs
  /\ forall orn,
      GoInt.index (Song.Ornaments s) (GoInt.sub (ChannelState.Ornament cs) 1) = Some orn ->
      ChannelState.OrnPos cs = 0 \/ ChannelState.OrnPos cs < GoInt.len (Ornament.Values orn).

(** The echo delay of a voice in samples, as the renderer computes it. *)
Definition delaySamples p cs : Z :=
  GoInt.mul (GoInt.mul (ChannelState.EchoDelay cs) (Player.TickSamples p))
            (Song.Speed (Player.Song p)).

(** The length of the echo ring of channel [i]. *)
Definition ringLen p (i : Z) : option Z := GoInt.len <$> GoInt.index (Player.EchoBuffers p) i.

(** The voice has no echo, or its delay fits the ring of its source in a
    song that keeps its timing. *)
Definition echo_ok p cs : Prop :=
  ChannelState.EchoDelay cs <= 0
  \/ (steady (Player.Song p)
      /\ forall L, ringLen p (ChannelState.EchoSource cs) = Some L ->
                   0 <= delaySamples p cs <= L).

Definition voice_ok p cs : Prop := ornament_ok (Player.Song p) cs /\ echo_ok p cs.

(** Every channel has its ring and a write position inside it. *)
Definition rings_ok p : Prop :=
  length (Player.EchoBuffers p) = length (Player.Channels p)
  /\ length (Player.EchoPos p) = length (Player.Channels p)
  /\ forall (i : nat) buf pos,
      Player.EchoBuffers p !! i = Some buf -> Player.EchoPos p !! i = Some pos ->
      0 <= pos < GoInt.len buf /\ GoInt.len buf <= 2 ^ 62.

Definition cursor_ok p : Prop :=
  0 <= Player.Pattern p < GoInt.len (Song.Patterns (Player.Song p))
  /\ 0 <= Player.Row p < GoInt.max_int
  /\ 0 <= Player.Position p < GoInt.max_int.

(** The states from which playback goes on without a fault. *)
Definition safe p : Prop :=
  playable (Player.Song p)
  /\ Song.Channels (Player.Song p) <= GoInt.len (Player.Channels p)
  /\ rings_ok p
  /\ cursor_ok p
  /\ Forall (voice_ok p) (Player.Channels p).

(** What [voice_ok] reads of a voice, and of a player. *)
Definition vkey cs : Z * Z * Z * Z :=
  (ChannelState.Ornament cs, ChannelState.OrnPos cs,
   ChannelState.EchoSource cs, ChannelState.EchoDelay cs).

Definition stage p p' : Prop :=
  song_fixed (Player.Song p) (Player.Song p')
  /\ Song.Speed (Player.Song p') = Song.Speed (Player.Song p)
  /\ Player.TickSamples p' = Player.TickSamples p
  /\ forall i, ringLen p' i = ringLen p i.

Lemma stage_refl p : stage p p.
Proof. split; [apply song_fixed_refl|done]. Qed.

Lemma stage_trans p1 p2 p3 : stage p1 p2 -> stage p2 p3 -> stage p1 p3.
Proof.
  intros (Hs1 & ? & ? & Hr1) (Hs2 & ? & ? & Hr2).
  split; [by eapply song_fixed_trans|]. split; [congruence|]. split; [congruence|].
  intros i. by rewrite Hr2.
Qed.

Lemma voice_ok_stage p p' cs cs' :
  stage p p' -> vkey cs' = vkey cs -> voice_ok p cs -> voice_ok p' cs'.
Proof.
  intros (Hsong & Hspeed & Hts & Hring) Hkey [[Hpos Horn] Hecho].
  unfold vkey in Hkey. injection Hkey as Hk1 Hk2 Hk3 Hk4.
  split.
  - unfold ornament_ok. rewrite Hk1, Hk2.
    destruct Hsong as (_ & _ & _ & -> & _). done.
  - unfold echo_ok, delaySamples. rewrite Hk3, Hk4, Hspeed, Hts.
    destruct Hecho as [Hoff|[Hst Hfit]]; [by left|right].
    split; [by eapply steady_fixed|]. intros L HL. apply Hfit. by rewrite <- Hring.
Qed.

Lemma quiet_stage p p' :
  quiet p p' -> (forall i, ringLen p' i = ringLen p i) -> stage p p'.
Proof.
  intros (Hs & _ & Ht & _) Hr. unfold stage. rewrite Hs.
  split; [apply song_fixed_refl|done].
Qed.

(** *** Voices *)

Lemma TriggerNote_ok p note inst vol cs :
  echo_ok p cs -> voice_ok p (ChannelState.TriggerNote note inst vol cs).
Proof.
  intros Hecho. split.
  - unfold ornament_ok, ChannelState.TriggerNote.
    destruct inst; repeat case_match; cbn; split; auto; lia.
  - unfold echo_ok, delaySamples in *. unfold ChannelState.TriggerNote.
    destruct inst; repeat case_match; cbn; done.
Qed.

Lemma ProcessOrnament_ok s orn cs :
  GoInt.index (Song.Ornaments s) (GoInt.sub (ChannelState.Ornament cs) 1) = Some orn ->
  Ornament.Loop orn < GoInt.len (Ornament.Values orn) <= GoInt.max_int ->
  ornament_ok s cs ->
  exists cs',
    ChannelState.ProcessOrnament (Some orn) cs = Some cs'
    /\ ornament_ok s cs'
    /\ ChannelState.Active cs' = ChannelState.Active cs
    /\ (ChannelState.EchoSource cs', ChannelState.EchoDelay cs')
       = (ChannelState.EchoSource cs, ChannelState.EchoDelay cs).
Proof.
  intros Horn [Hloop Hlen] [Hpos Hall]. pose proof (Hall orn Horn) as Hin.
  unfold ChannelState.ProcessOrnament.
  destruct (Z.eqb_spec (GoInt.len (Ornament.Values orn)) 0) as [H0|H0].
  { eexists. split; [reflexivity|]. by repeat split. }
  assert (Hl : 0 < GoInt.len (Ornament.Values orn)) by (unfold GoInt.len in *; lia).
  destruct (index_is_Some (Ornament.Values orn) (ChannelState.OrnPos cs)) as [off Hoff]; [lia|].
  rewrite Hoff. cbn [mbind option_bind].
  eexists. split; [reflexivity|]. split; [|by repeat case_match].
  unfold ornament_ok. cbn.
  rewrite ?(add_id (ChannelState.OrnPos cs) 1)
    by (unfold GoInt.is_int, GoInt.min_int, GoInt.max_int in *; lia).
  rewrite ?sub_id by (unfold GoInt.is_int, GoInt.min_int, GoInt.max_int in *; lia).
  repeat case_match; cbn; rewrite ?Horn; split; try lia; intros orn' [= <-]; lia.
Qed.

(** *** The player *)

(** The cell sets no echo, and neither speed nor tempo in a song that
    keeps its timing. *)
Definition cell_ok (s : Song.t) (note : Note.t) : Prop :=
  Effect.Type_ (Note.Effect note) <> FxEcho /\ (steady s -> noSpeedFx note).

Lemma ringLen_eq p p' :
  Player.EchoBuffers p' = Player.EchoBuffers p -> forall i, ringLen p' i = ringLen p i.
Proof. intros Hr i. unfold ringLen. by rewrite Hr. Qed.

Lemma voices_stage p p' :
  stage p p' -> Forall (voice_ok p) (Player.Channels p) ->
  Forall (voice_ok p') (Player.Channels p).
Proof.
  intros Hst Hv. eapply Forall_impl; [exact Hv|].
  intros cs. by apply (voice_ok_stage p p' cs cs Hst).
Qed.

(** [safe] reads the song data, the voices, the rings, the tick length and
    the cursor. *)
Lemma safe_same p p' :
  Player.Song p' = Player.Song p -> Player.Channels p' = Player.Channels p ->
  Player.EchoBuffers p' = Player.EchoBuffers p -> Player.EchoPos p' = Player.EchoPos p ->
  Player.TickSamples p' = Player.TickSamples p ->
  cursor_ok p' ->
  safe p -> safe p'.
Proof.
  intros Hs Hc Hb Hpos Ht Hcur (Hplay & Hch & Hrings & _ & Hv).
  unfold safe, rings_ok. rewrite Hs, Hc, Hb, Hpos.
  split; [done|]. split; [done|]. split; [done|]. split; [done|].
  eapply voices_stage; [|exact Hv].
  split; [rewrite Hs; apply song_fixed_refl|]. rewrite Hs.
  split; [done|]. split; [done|]. by apply ringLen_eq.
Qed.

Lemma put_channel_safe ch cs' p :
  safe p -> voice_ok p cs' -> safe (Player.put_channel ch cs' p).
Proof.
  intros (Hplay & Hch & (Hr1 & Hr2 & Hr3) & Hcur & Hv) Hcs'.
  unfold safe, rings_ok, cursor_ok, Player.put_channel. cbn.
  unfold GoInt.len in *. rewrite length_insert.
  split; [done|]. split; [done|]. split; [done|]. split; [done|].
  apply Forall_insert; [|exact Hcs'].
  eapply Forall_impl; [exact Hv|]. intros cs. apply voice_ok_stage; [|done].
  split; [apply song_fixed_refl|done].
Qed.

Lemma voice_ok_key p cs cs' : vkey cs' = vkey cs -> voice_ok p cs -> voice_ok p cs'.
Proof. apply voice_ok_stage, stage_refl. Qed.

Lemma safe_voice p ch cs :
  safe p -> GoInt.index (Player.Channels p) ch = Some cs -> voice_ok p cs.
Proof.
  intros (_ & _ & _ & _ & Hv) [_ Hcs]%index_Some.
  rewrite Forall_forall in Hv. apply Hv. by eapply list_elem_of_lookup_2.
Qed.

Lemma processEffect_safe ch fx p :
  safe p -> 0 <= ch < GoInt.len (Player.Channels p) ->
  Effect.Type_ fx <> FxEcho -> (steady (Player.Song p) -> Effect.Type_ fx <> FxSpeed) ->
  exists p', Player.processEffect ch fx p = Some p' /\ safe p'.
Proof.
  intros Hsafe Hch Hecho Hspeed. unfold Player.processEffect.
  destruct (_ && _); [eauto|].
  destruct (index_is_Some (Player.Channels p) ch Hch) as [cs Hcs]. rewrite Hcs.
  cbn [mbind option_bind]. eexists. split; [reflexivity|].
  pose proof (safe_voice p ch cs Hsafe Hcs) as Hv.
  destruct (Z.eqb_spec (Effect.Type_ fx) FxSpeed) as [Hty|Hty].
  - (* speed or tempo: the voices have no echo *)
    rewrite Hty. cbn [Z.eqb FxArpeggio FxSlideUp FxSlideDown FxPortamento FxVibrato FxVolume
                      FxSpeed Pos.eqb].
    destruct Hsafe as (Hplay & Hc & Hrings & Hcur & Hvs).
    assert (Hoff : Forall (fun c => ChannelState.EchoDelay c <= 0
                                    /\ ornament_ok (Player.Song p) c) (Player.Channels p)).
    { eapply Forall_impl; [exact Hvs|]. intros c [Ho [He|[Hst _]]]; [done|].
      destruct (Hspeed Hst Hty). }
    destruct (Effect.Param fx <? 32); unfold safe, rings_ok, cursor_ok; cbn;
      (split; [done|]); (split; [done|]); (split; [done|]); (split; [done|]);
      (eapply Forall_impl; [exact Hoff|]); intros c [He Ho]; (split; [done|by left]).
  - repeat case_match; try done;
      try (apply put_channel_safe; [done|]; eapply voice_ok_key; [|exact Hv]; done).
    + apply put_channel_safe; [done|]. destruct Hv as [Ho He]. split; [|done].
      unfold ornament_ok. cbn. split; [lia|auto].
    + exfalso. apply Hecho. by apply Z.eqb_eq.
Qed.

Lemma processCell_safe ch note p :
  safe p -> 0 <= ch < GoInt.len (Player.Channels p) -> cell_ok (Player.Song p) note ->
  exists p', Player.processCell ch note p = Some p' /\ safe p'.
Proof.
  intros Hsafe Hch [Hecho Hspeed]. unfold Player.processCell.
  destruct (index_is_Some (Player.Channels p) ch Hch) as [cs Hcs]. rewrite Hcs.
  cbn [mbind option_bind].
  pose proof (safe_voice p ch cs Hsafe Hcs) as Hv.
  assert (Hmid : exists pm,
             (if Note.Pitch note =? -2
              then Some (Player.put_channel ch (ChannelState.NoteOff cs) p)
              else if Note.Pitch note >=? 0
                   then '(inst, cs0) ← Player.resolveInstrument note cs p;
                        Some (Player.put_channel ch
                                (ChannelState.TriggerNote (Note.Pitch note) inst
                                   (Note.Volume note) cs0) p)
                   else Some p) = Some pm
             /\ safe pm /\ Player.Song pm = Player.Song p
             /\ GoInt.len (Player.Channels pm) = GoInt.len (Player.Channels p)).
  { destruct (Note.Pitch note =? -2).
    - eexists. split; [reflexivity|]. split; [|split; [done|]].
      + apply put_channel_safe; [done|]. eapply voice_ok_key; [|exact Hv]. done.
      + cbn. unfold GoInt.len. by rewrite length_insert.
    - destruct (Note.Pitch note >=? 0); [|by exists p].
      destruct (resolveInstrument_Some note cs p) as (inst & cs0 & Hr & Hcs0).
      rewrite Hr. cbn [mbind option_bind].
      eexists. split; [reflexivity|]. split; [|split; [done|]].
      + apply put_channel_safe; [done|]. apply TriggerNote_ok.
        destruct Hv as [_ He]. by destruct Hcs0 as [->| ->].
      + cbn. unfold GoInt.len. by rewrite length_insert. }
  destruct Hmid as (pm & -> & Hpm & Hsong & Hlen). cbn [mbind option_bind].
  apply processEffect_safe; [done|lia|done|]. by rewrite Hsong.
Qed.

Lemma safe_song_fixed_cells p p' note :
  song_fixed (Player.Song p) (Player.Song p') ->
  cell_ok (Player.Song p) note -> cell_ok (Player.Song p') note.
Proof.
  intros Hf [He Hs]. split; [done|]. intros Hst. apply Hs.
  destruct Hf as (_ & _ & _ & _ & Hp & _). unfold steady in *. by rewrite <- Hp.
Qed.

Lemma rowLoop_safe cells : forall k p,
  safe p -> 0 <= k -> Forall (cell_ok (Player.Song p)) cells ->
  exists p', Player.rowLoop cells k p = Some p' /\ safe p'.
Proof.
  induction cells as [|note rest IH]; intros k p Hsafe Hk Hcells; cbn; [eauto|].
  destruct (Z.ltb_spec k (Song.Channels (Player.Song p))) as [Hlt|]; [|eauto].
  apply Forall_cons in Hcells as [Hnote Hrest].
  destruct (processCell_safe k note p) as (pa & Hpa & Hsa); [done| |done|].
  { destruct Hsafe as (_ & Hc & _). lia. }
  rewrite Hpa. cbn [mbind option_bind]. apply IH; [done|lia|].
  apply processCell_frame in Hpa as ((Hf & _) & _).
  eapply Forall_impl; [exact Hrest|]. intros c. by apply safe_song_fixed_cells.
Qed.

(** The cells of the rows of a playable pattern. *)
Lemma playable_cells s pat cells (i r : Z) :
  playable s ->
  GoInt.index (Song.Patterns s) i = Some pat ->
  GoInt.index (Pattern.Notes pat) r = Some cells ->
  Forall (cell_ok s) cells.
Proof.
  intros (_ & _ & _ & Hpats & _) [_ Hpat]%index_Some [_ Hcells]%index_Some.
  rewrite Forall_forall in Hpats.
  destruct (Hpats pat) as [_ Hrows]; [by eapply list_elem_of_lookup_2|].
  rewrite Forall_forall in Hrows.
  specialize (Hrows cells (list_elem_of_lookup_2 _ _ _ Hcells)).
  apply Forall_forall. intros note Hnote. split.
  - rewrite Forall_forall in Hrows. by apply Hrows.
  - intros Hst. unfold steady in Hst. rewrite Forall_forall in Hst.
    specialize (Hst pat (list_elem_of_lookup_2 _ _ _ Hpat)).
    rewrite Forall_forall in Hst.
    specialize (Hst cells (list_elem_of_lookup_2 _ _ _ Hcells)).
    rewrite Forall_forall in Hst. by apply Hst.
Qed.

Lemma ProcessRow_safe p :
  safe p -> exists p', Player.ProcessRow p = Some p' /\ safe p'.
Proof.
  intros Hsafe. unfold Player.ProcessRow.
  destruct (_ >=? _); [eauto|].
  destruct Hsafe as (Hplay & Hch & Hrings & Hcur & Hv).
  destruct (index_is_Some (Song.Patterns (Player.Song p)) (Player.Pattern p)) as [pat Hpat].
  { apply Hcur. }
  rewrite Hpat. cbn [mbind option_bind].
  destruct (Z.geb_spec (Player.Row p) (Pattern.Rows pat)) as [|Hrow]; [by eexists|].
  cbn [Player.Song Player.set_RowLog Player.Row].
  assert (Hsafe' : safe (Player.set_RowLog
                           (Player.RowLog p ++ [(Player.Position p, Player.Pattern p, Player.Row p)])
                           p)).
  { by apply (safe_same p). }
  destruct (0 <? _); [|eauto].
  assert (Hpats := Hplay). destruct Hpats as (_ & _ & _ & Hpats & _).
  rewrite Forall_forall in Hpats.
  destruct (Hpats pat) as [Hlen _].
  { apply index_Some in Hpat as [_ Hpat']. by eapply list_elem_of_lookup_2. }
  destruct (index_is_Some (Pattern.Notes pat) (Player.Row p)) as [cells Hcells].
  { destruct Hcur as (_ & Hr & _). lia. }
  rewrite Hcells. cbn [mbind option_bind].
  apply rowLoop_safe; [done|lia|]. cbn. by eapply playable_cells.
Qed.

Lemma tick_effects_key env ts cs :
  vkey (ChannelState.ProcessEnvelope env ts
          (Player.tickPortamento (Player.tickSlide (Player.tickVibrato cs))))
  = vkey cs.
Proof.
  assert (H1 : vkey (Player.tickVibrato cs) = vkey cs).
  { unfold Player.tickVibrato. by destruct (_ >. _). }
  assert (H2 : forall c, vkey (Player.tickSlide c) = vkey c).
  { intros c. unfold Player.tickSlide. repeat case_match; done. }
  assert (H3 : forall c, vkey (Player.tickPortamento c) = vkey c).
  { intros c. unfold Player.tickPortamento. repeat case_match; done. }
  assert (H4 : forall c, vkey (ChannelState.ProcessEnvelope env ts c) = vkey c).
  { intros c. unfold ChannelState.ProcessEnvelope. repeat case_match; done. }
  by rewrite H4, H3, H2, H1.
Qed.

Lemma tickChannel_safe ch p :
  safe p -> 0 <= ch < GoInt.len (Player.Channels p) ->
  exists p', Player.tickChannel ch p = Some p' /\ safe p'
             /\ Player.Song p' = Player.Song p
             /\ GoInt.len (Player.Channels p') = GoInt.len (Player.Channels p).
Proof.
  intros Hsafe Hch. unfold Player.tickChannel.
  destruct (index_is_Some (Player.Channels p) ch Hch) as [cs Hcs]. rewrite Hcs.
  cbn [mbind option_bind].
  destruct (negb (ChannelState.Active cs)); [by exists p|].
  pose proof (safe_voice p ch cs Hsafe Hcs) as [Ho He].
  assert (Hplay := Hsafe). destruct Hplay as ((_ & _ & _ & _ & Hlen & Horns) & _).
  assert (Horn : exists cs1,
             (if (ChannelState.Ornament cs >? 0)
                 && (ChannelState.Ornament cs <=? GoInt.len (Song.Ornaments (Player.Song p)))
              then orn ← GoInt.index (Song.Ornaments (Player.Song p))
                                     (GoInt.sub (ChannelState.Ornament cs) 1);
                   ChannelState.ProcessOrnament (Some orn) cs
              else Some cs) = Some cs1
             /\ ornament_ok (Player.Song p) cs1
             /\ (ChannelState.EchoSource cs1, ChannelState.EchoDelay cs1)
                = (ChannelState.EchoSource cs, ChannelState.EchoDelay cs)).
  { destruct (Z.gtb_spec (ChannelState.Ornament cs) 0) as [Hgt|]; [|by exists cs].
    destruct (Z.leb_spec (ChannelState.Ornament cs)
                (GoInt.len (Song.Ornaments (Player.Song p)))) as [Hle|]; [|by exists cs].
    cbn [andb].
    destruct (index_is_Some (Song.Ornaments (Player.Song p))
                (GoInt.sub (ChannelState.Ornament cs) 1)) as [orn Horn].
    { rewrite sub_id by (unfold GoInt.is_int, GoInt.min_int, GoInt.max_int in *; lia). lia. }
    rewrite Horn. cbn [mbind option_bind].
    destruct (ProcessOrnament_ok (Player.Song p) orn cs Horn) as (cs1 & -> & Ho1 & _ & Hk); [|done|].
    { rewrite Forall_forall in Horns. apply Horns.
      apply index_Some in Horn as [_ Horn']. by eapply list_elem_of_lookup_2. }
    by exists cs1. }
  destruct Horn as (cs1 & -> & Ho1 & Hk1). cbn [mbind option_bind].
  eexists. split; [reflexivity|]. split; [|split; [done|]].
  - apply put_channel_safe; [done|].
    apply (voice_ok_key p cs1); [apply tick_effects_key|].
    split; [done|]. injection Hk1 as Hs Hd.
    unfold echo_ok, delaySamples in *. by rewrite Hs, Hd.
  - cbn. unfold GoInt.len. by rewrite length_insert.
Qed.

Lemma tickLoop_safe n : forall k p,
  safe p -> 0 <= k -> k + Z.of_nat n <= GoInt.len (Player.Channels p) ->
  exists p', Player.tickLoop n k p = Some p' /\ safe p'.
Proof.
  induction n as [|n IH]; intros k p Hsafe Hk Hn; cbn; [eauto|].
  destruct (tickChannel_safe k p) as (pa & -> & Hsa & _ & Hlen); [done|lia|].
  cbn [mbind option_bind]. apply IH; [done|lia|lia].
Qed.

Lemma ProcessTick_safe p :
  safe p -> exists p', Player.ProcessTick p = Some p' /\ safe p'.
Proof.
  intros Hsafe. unfold Player.ProcessTick. apply tickLoop_safe; [done|lia|].
  destruct Hsafe as (_ & Hc & _). unfold GoInt.len in *. lia.
Qed.

Lemma advanceRow_safe p :
  safe p -> exists p', Player.advanceRow p = Some p' /\ safe p'.
Proof.
  intros Hsafe. assert (Hs := Hsafe).
  destruct Hs as ((Hne & Holen & Hord & Hpats & _) & _ & _ & (Hpat & Hrow & Hpos) & _).
  unfold Player.advanceRow.
  cbn [Player.Song Player.set_Tick Player.set_Row Player.Pattern Player.Row].
  rewrite add_id by (unfold GoInt.is_int, GoInt.min_int, GoInt.max_int in *; lia).
  destruct (Z.ltb_spec (Player.Pattern p) (GoInt.len (Song.Patterns (Player.Song p)))); [|lia].
  destruct (index_is_Some (Song.Patterns (Player.Song p)) (Player.Pattern p)) as [pat Hp]; [lia|].
  rewrite Hp. cbn [mbind option_bind].
  rewrite Forall_forall in Hpats. destruct (Hpats pat) as [Hlen _].
  { apply index_Some in Hp as [_ Hp']. by eapply list_elem_of_lookup_2. }
  destruct (Z.geb_spec (Player.Row p + 1) (Pattern.Rows pat)) as [Hend|Hin].
  - cbn [Player.Song Player.set_Tick Player.set_Row Player.set_Position Player.Position].
    rewrite add_id by (unfold GoInt.is_int, GoInt.min_int, GoInt.max_int in *; lia).
    assert (Hl : 0 < GoInt.len (Song.Order (Player.Song p))).
    { unfold GoInt.len. destruct (Song.Order (Player.Song p)); [done|cbn; lia]. }
    set (pos := if Player.Position p + 1 >=? GoInt.len (Song.Order (Player.Song p))
                then 0 else Player.Position p + 1).
    assert (Hposr : 0 <= pos < GoInt.len (Song.Order (Player.Song p))).
    { subst pos. destruct (Z.geb_spec (Player.Position p + 1)
                             (GoInt.len (Song.Order (Player.Song p)))); lia. }
    assert (Hgo : exists pt, GoInt.index (Song.Order (Player.Song p)) pos = Some pt
                             /\ 0 <= pt < GoInt.len (Song.Patterns (Player.Song p))).
    { destruct (index_is_Some (Song.Order (Player.Song p)) pos Hposr) as [pt Hpt].
      exists pt. split; [done|]. rewrite Forall_forall in Hord. apply Hord.
      apply index_Some in Hpt as [_ Hpt']. by eapply list_elem_of_lookup_2. }
    destruct Hgo as (pt & Hpt & Hptr).
    subst pos.
    destruct (Z.geb_spec (Player.Position p + 1) (GoInt.len (Song.Order (Player.Song p))));
      cbn [Player.Song Player.set_Tick Player.set_Row Player.set_Position Player.Position];
      rewrite Hpt;
      cbn [mbind option_bind]; (eexists; split; [reflexivity|]);
      (apply (safe_same p); [done..| |exact Hsafe]); unfold cursor_ok; cbn;
      unfold GoInt.max_int in *; lia.
  - eexists. split; [reflexivity|].
    apply (safe_same p); [done..| |exact Hsafe]. unfold cursor_ok. cbn.
    unfold GoInt.max_int in *. lia.
Qed.

Lemma advance_safe p :
  safe p -> exists p', Player.advance p = Some p' /\ safe p'.
Proof.
  intros Hsafe. unfold Player.advance.
  destruct (Player.Playing p); [|eauto].
  assert (Hcur : cursor_ok p) by apply Hsafe.
  destruct (_ >=? _).
  2:{ eexists. split; [reflexivity|]. by apply (safe_same p). }
  assert (H0 : safe (Player.set_TickCounter 0
                       (Player.set_TickCounter (GoInt.add (Player.TickCounter p) 1) p))).
  { by apply (safe_same p). }
  assert (H1 : exists p1,
             (if Player.Tick (Player.set_TickCounter 0
                   (Player.set_TickCounter (GoInt.add (Player.TickCounter p) 1) p)) =? 0
              then Player.ProcessRow (Player.set_TickCounter 0
                     (Player.set_TickCounter (GoInt.add (Player.TickCounter p) 1) p))
              else Some (Player.set_TickCounter 0
                     (Player.set_TickCounter (GoInt.add (Player.TickCounter p) 1) p)))
             = Some p1 /\ safe p1).
  { destruct (_ =? 0); [by apply ProcessRow_safe|eauto]. }
  destruct H1 as (p1 & -> & Hs1). cbn [mbind option_bind].
  destruct (ProcessTick_safe p1 Hs1) as (p2 & -> & Hs2). cbn [mbind option_bind].
  assert (Hs3 : safe (Player.set_Tick (GoInt.add (Player.Tick p2) 1) p2)).
  { apply (safe_same p2); [done..| |exact Hs2]. apply Hs2. }
  destruct (_ >=? _); [by apply advanceRow_safe|eauto].
Qed.

Lemma echoSample_safe cs p :
  rings_ok p -> echo_ok p cs -> exists e, Player.echoSample cs p = Some e.
Proof.
  intros (Hr1 & Hr2 & Hr3) Hecho. unfold Player.echoSample.
  destruct (Z.geb_spec (ChannelState.EchoSource cs) 0) as [Hs0|]; [|eauto].
  destruct (Z.ltb_spec (ChannelState.EchoSource cs) (GoInt.len (Player.Channels p)))
    as [Hs1|]; [|eauto].
  destruct (Z.gtb_spec (ChannelState.EchoDelay cs) 0) as [Hd|]; [|eauto].
  cbn [andb].
  destruct Hecho as [|[_ Hfit]]; [lia|].
  destruct (index_is_Some (Player.EchoPos p) (ChannelState.EchoSource cs)) as [pos Hpos].
  { unfold GoInt.len in *. lia. }
  destruct (index_is_Some (Player.EchoBuffers p) (ChannelState.EchoSource cs)) as [buf Hbuf].
  { unfold GoInt.len in *. lia. }
  rewrite Hpos, Hbuf. cbn [mbind option_bind].
  specialize (Hfit (GoInt.len buf)). unfold ringLen in Hfit. rewrite Hbuf in Hfit.
  specialize (Hfit eq_refl). unfold delaySamples in Hfit.
  set (D := GoInt.mul (GoInt.mul (ChannelState.EchoDelay cs) (Player.TickSamples p))
                      (Song.Speed (Player.Song p))) in *.
  apply index_Some in Hpos as [_ Hpos], Hbuf as [_ Hbuf].
  destruct (Hr3 _ _ _ Hbuf Hpos) as [Hp HL].
  rewrite sub_id by (unfold GoInt.is_int, GoInt.min_int, GoInt.max_int; lia).
  rewrite add_id by (unfold GoInt.is_int, GoInt.min_int, GoInt.max_int; lia).
  unfold GoInt.rem. destruct (Z.eqb_spec (GoInt.len buf) 0); [lia|].
  cbn [mbind option_bind].
  assert (Hrem : 0 <= Z.rem (pos - D + GoInt.len buf) (GoInt.len buf) < GoInt.len buf).
  { apply Z.rem_bound_pos; lia. }
  destruct (index_is_Some buf (Z.rem (pos - D + GoInt.len buf) (GoInt.len buf)) Hrem)
    as [x ->].
  cbn [mbind option_bind]. eauto.
Qed.

(** A sample stored in the ring of channel [ch], and the write position
    moved on. *)
Lemma ring_update_safe (ch k : nat) pos x buf p :
  safe p -> Player.EchoBuffers p !! ch = Some buf ->
  0 <= pos < GoInt.len buf ->
  safe (Player.set_EchoPos (<[ch := pos]> (Player.EchoPos p))
          (Player.set_EchoBuffers (<[ch := <[k := x]> buf]> (Player.EchoBuffers p)) p)).
Proof.
  intros (Hplay & Hc & (Hr1 & Hr2 & Hr3) & Hcur & Hv) Hbuf Hpos.
  unfold safe, rings_ok. cbn. rewrite !length_insert.
  split; [done|]. split; [done|]. split; [|split; [done|]].
  - split; [done|]. split; [done|]. intros i b q Hb Hq.
    destruct (decide (i = ch)) as [->|Hne].
    + rewrite list_lookup_insert_eq in Hb by (by eapply lookup_lt_Some).
      rewrite list_lookup_insert_eq in Hq by (rewrite Hr2, <- Hr1; by eapply lookup_lt_Some).
      simplify_eq. unfold GoInt.len in *. rewrite length_insert.
      destruct (lookup_lt_is_Some_2 (Player.EchoPos p) ch) as [q0 Hq0].
      { rewrite Hr2, <- Hr1. by eapply lookup_lt_Some. }
      destruct (Hr3 _ _ _ Hbuf Hq0). lia.
    + rewrite list_lookup_insert_ne in Hb by done.
      rewrite list_lookup_insert_ne in Hq by done. by eapply Hr3.
  - eapply Forall_impl; [exact Hv|]. intros c. apply voice_ok_stage; [|done].
    split; [apply song_fixed_refl|]. split; [done|]. split; [done|].
    intros i. unfold ringLen, GoInt.index. cbn. destruct (i <? 0); [done|].
    destruct (decide (Z.to_nat i = ch)) as [<-|Hne].
    + rewrite list_lookup_insert_eq by (by eapply lookup_lt_Some). rewrite Hbuf. cbn.
      unfold GoInt.len. by rewrite length_insert.
    + by rewrite list_lookup_insert_ne.
Qed.

Lemma renderChannel_safe ch p :
  safe p -> 0 <= ch < GoInt.len (Player.Channels p) ->
  exists p' x, Player.renderChannel ch p = Some (p', x) /\ safe p'
               /\ GoInt.len (Player.Channels p') = GoInt.len (Player.Channels p).
Proof.
  intros Hsafe Hch. unfold Player.renderChannel.
  destruct (index_is_Some (Player.Channels p) ch Hch) as [cs Hcs]. rewrite Hcs.
  cbn [mbind option_bind].
  pose proof (safe_voice p ch cs Hsafe Hcs) as Hv.
  destruct (ChannelState.GenerateSample cs) as [cs1 smp] eqn:Hgen.
  destruct (GenerateSample_voice cs) as [o Ho]. rewrite Hgen in Ho. cbn [fst] in Ho.
  assert (Hv1 : voice_ok p cs1) by (eapply voice_ok_key; [|exact Hv]; by rewrite Ho).
  pose proof (put_channel_safe ch cs1 p Hsafe Hv1) as Hs1.
  cbn [Player.Song Player.put_channel Player.set_Channels Player.EchoBuffers Player.EchoPos].
  match goal with |- context [GoInt.store _ _ ?v] => generalize v; intros own end.
  assert (Hr := Hsafe). destruct Hr as (_ & _ & (Hr1 & Hr2 & Hr3) & _).
  destruct (index_is_Some (Player.EchoBuffers p) ch) as [buf Hbuf].
  { unfold GoInt.len in *. lia. }
  destruct (index_is_Some (Player.EchoPos p) ch) as [pos Hpos].
  { unfold GoInt.len in *. lia. }
  rewrite Hbuf, Hpos. cbn [mbind option_bind].
  apply index_Some in Hbuf as [Hch0 Hbuf], Hpos as [_ Hpos].
  destruct (Hr3 _ _ _ Hbuf Hpos) as [Hp HL].
  assert (Hstore : GoInt.store buf pos own = Some (<[Z.to_nat pos := own]> buf)).
  { unfold GoInt.store. destruct (Z.ltb_spec pos 0); [lia|].
    destruct (lookup_lt_is_Some_2 buf (Z.to_nat pos)) as [y ->]; [|done].
    unfold GoInt.len in *. lia. }
  rewrite Hstore. cbn [mbind option_bind].
  assert (Hlen : GoInt.len (<[Z.to_nat pos := own]> buf) = GoInt.len buf).
  { unfold GoInt.len. by rewrite length_insert. }
  rewrite Hlen. unfold GoInt.rem. destruct (Z.eqb_spec (GoInt.len buf) 0); [lia|].
  cbn [mbind option_bind].
  rewrite add_id by (unfold GoInt.is_int, GoInt.min_int, GoInt.max_int; lia).
  assert (Hnew : 0 <= Z.rem (pos + 1) (GoInt.len buf) < GoInt.len buf).
  { apply Z.rem_bound_pos; lia. }
  pose proof (ring_update_safe (Z.to_nat ch) (Z.to_nat pos)
                (Z.rem (pos + 1) (GoInt.len buf)) own buf _ Hs1 Hbuf Hnew) as Hs2.
  match goal with |- context [Player.echoSample cs1 ?q] => set (q2 := q) in * end.
  destruct (echoSample_safe cs1 q2) as [e He].
  { apply Hs2. }
  { destruct Hs2 as (_ & _ & _ & _ & Hv2). rewrite Forall_forall in Hv2.
    apply Hv2. subst q2. cbn. apply list_elem_of_lookup. exists (Z.to_nat ch).
    apply list_lookup_insert_eq. unfold GoInt.len in *. lia. }
  rewrite He. cbn [mbind option_bind].
  eexists _, _. split; [reflexivity|]. split; [exact Hs2|].
  subst q2. cbn. unfold GoInt.len. by rewrite length_insert.
Qed.

Lemma renderLoop_safe n : forall k acc p,
  safe p -> 0 <= k -> k + Z.of_nat n <= GoInt.len (Player.Channels p) ->
  exists p' x, Player.renderLoop n k acc p = Some (p', x) /\ safe p'.
Proof.
  induction n as [|n IH]; intros k acc p Hsafe Hk Hn; cbn; [eauto|].
  destruct (renderChannel_safe k p) as (pa & y & -> & Hsa & Hlen); [done|lia|].
  cbn [mbind option_bind]. apply IH; [done|lia|lia].
Qed.

Lemma sampleStep_safe p :
  safe p -> exists p' x, Player.sampleStep p = Some (p', x) /\ safe p'.
Proof.
  intros Hsafe. unfold Player.sampleStep.
  destruct (advance_safe p Hsafe) as (q & -> & Hq). cbn [mbind option_bind].
  destruct (renderLoop_safe (length (Player.Channels q)) 0 (fz 0) q) as (q' & y & -> & Hq');
    [done|lia|unfold GoInt.len; lia|].
  cbn [mbind option_bind]. eauto.
Qed.

Lemma GenerateSamples_safe n : forall p,
  safe p -> exists p' buf, Player.GenerateSamples n p = Some (p', buf) /\ safe p'.
Proof.
  induction n as [|n IH]; intros p Hsafe; cbn; [eauto|].
  destruct (sampleStep_safe p Hsafe) as (p1 & x & -> & Hs1). cbn [mbind option_bind].
  destruct (IH p1 Hs1) as (p2 & xs & -> & Hs2). cbn [mbind option_bind]. eauto.
Qed.

Lemma AdvanceTime_safe n p :
  safe p -> exists p', Player.AdvanceTime n p = Some p' /\ safe p'.
Proof.
  intros Hsafe. unfold Player.AdvanceTime. destruct (negb _); [eauto|].
  generalize (Z.to_nat n). intros k. revert p Hsafe.
  induction k as [|k IH]; intros p Hsafe; cbn; [eauto|].
  assert (Hstep : exists p1, Player.advanceTimeStep p = Some p1 /\ safe p1).
  { unfold Player.advanceTimeStep.
    assert (Hcur : cursor_ok p) by apply Hsafe.
    destruct (_ >=? _).
    2:{ eexists. split; [reflexivity|]. by apply (safe_same p). }
    destruct (ProcessTick_safe (Player.set_TickCounter 0
                (Player.set_TickCounter (GoInt.add (Player.TickCounter p) 1) p)))
      as (p1 & -> & Hs1); [by apply (safe_same p)|].
    cbn [mbind option_bind].
    assert (Hs2 : safe (Player.set_Tick (GoInt.add (Player.Tick p1) 1) p1)).
    { apply (safe_same p1); [done..| |exact Hs1]. apply Hs1. }
    destruct (_ >=? _); [|eauto].
    destruct (advanceRow_safe _ Hs2) as (p2 & -> & Hs3). cbn [mbind option_bind].
    by apply ProcessRow_safe. }
  destruct Hstep as (p1 & -> & Hs1). cbn [mbind option_bind]. by apply IH.
Qed.

Lemma Stop_safe p : safe p -> safe (Player.Stop p).
Proof.
  intros (Hplay & Hc & Hr & Hcur & Hv). unfold safe, rings_ok, cursor_ok, Player.Stop. cbn.
  unfold GoInt.len in *. rewrite length_map.
  split; [done|]. split; [done|]. split; [done|]. split; [done|].
  apply Forall_fmap. eapply Forall_impl; [exact Hv|]. intros cs Hcs. cbn.
  eapply voice_ok_stage; [| |exact Hcs]; [|done].
  split; [apply song_fixed_refl|done].
Qed.

Lemma SetPosition_safe pos row p :
  safe p -> 0 <= pos < GoInt.max_int -> 0 <= row < GoInt.max_int ->
  exists p', Player.SetPosition pos row p = Some p' /\ safe p'.
Proof.
  intros Hsafe Hpos Hrow. unfold Player.SetPosition. cbn [Player.Song Player.set_Position].
  assert (Hs := Hsafe). destruct Hs as ((_ & _ & Hord & _) & _ & _ & (Hpat & _) & _).
  destruct (Z.ltb_spec pos (GoInt.len (Song.Order (Player.Song p)))) as [Hlt|].
  - destruct (index_is_Some (Song.Order (Player.Song p)) pos) as [pt Hpt]; [lia|].
    rewrite Hpt. cbn [mbind option_bind]. eexists. split; [reflexivity|].
    apply (safe_same p); [done..| |exact Hsafe]. unfold cursor_ok. cbn.
    split; [|lia]. rewrite Forall_forall in Hord. apply Hord.
    apply index_Some in Hpt as [_ Hpt']. by eapply list_elem_of_lookup_2.
  - cbn [mbind option_bind]. eexists. split; [reflexivity|].
    apply (safe_same p); [done..| |exact Hsafe]. unfold cursor_ok. cbn. lia.
Qed.

Lemma Play_safe p : safe p -> exists p', Player.Play p = Some p' /\ safe p'.
Proof.
  intros Hsafe. unfold Player.Play. apply ProcessRow_safe.
  apply (safe_same p); [done..| |exact Hsafe]. apply Hsafe.
Qed.

(** The tick length [NewPlayer] computes for a song, and the delay in
    samples the renderer computes for a channel configuration under it. *)
Definition tickLength (s : Song.t) : Z :=
  int_of_float (f_of_Z (Song.SampleRate s) ⊘ (f_of_Z (Song.Tempo s) ⊗ fz 2 ⊘ fz 5)).

Definition configDelay (s : Song.t) (cfg : ChannelConfig.t) : Z :=
  GoInt.mul (GoInt.mul (ChannelConfig.EchoDelay cfg) (tickLength s)) (Song.Speed s).

(** The configuration of every channel has no echo, or a delay that fits
    one second of samples in a song that keeps its timing. *)
Definition echo_config_ok (s : Song.t) : Prop :=
  Forall (fun cfg => ChannelConfig.EchoDelay cfg <= 0
                     \/ (steady s /\ 0 <= configDelay s cfg <= Song.SampleRate s))
         (Song.ChanConfig s).

Lemma NewPlayer_safe song :
  playable song -> echo_config_ok song ->
  0 <= Song.Channels song -> 0 < Song.SampleRate song <= 2 ^ 62 ->
  exists p, Player.NewPlayer song = Some p /\ safe p.
Proof.
  intros Hplay Hcfg Hch Hsr. unfold Player.NewPlayer.
  destruct (Z.ltb_spec (Song.Channels song) 0); [lia|].
  destruct (Z.ltb_spec (Song.SampleRate song) 0); [lia|]. rewrite andb_false_r.
  eexists. split; [reflexivity|].
  unfold safe, rings_ok, cursor_ok, Player.UpdateTiming. cbn.
  unfold GoInt.len. rewrite !length_replicate, length_map, length_seq.
  split; [done|]. split; [lia|]. split; [|split].
  - split; [done|]. split; [done|]. intros i buf pos Hb Hp.
    apply lookup_replicate in Hb as [-> _], Hp as [-> _].
    rewrite length_replicate. lia.
  - destruct Hplay as (Hne & _ & Hord & _).
    destruct (Song.Order song) as [|o rest]; [done|].
    apply Forall_cons in Hord as [Ho _]. unfold GoInt.len, GoInt.max_int in *. lia.
  - apply Forall_fmap, Forall_forall. intros i _. cbn.
    split.
    + unfold ornament_ok, Player.newChannel.
      destruct (Song.ChanConfig song !! i); cbn; auto with lia.
    + unfold echo_ok, Player.newChannel.
      destruct (Song.ChanConfig song !! i) as [cfg|] eqn:Hc; cbn; [|left; lia].
      unfold echo_config_ok in Hcfg. rewrite Forall_forall in Hcfg.
      destruct (Hcfg cfg (list_elem_of_lookup_2 _ _ _ Hc)) as [|[Hst Hfit]]; [by left|right].
      split; [done|]. intros L HL.
      unfold ringLen, GoInt.index in HL. cbn in HL.
      destruct (_ <? 0); [done|].
      destruct (replicate _ _ !! _) as [b|] eqn:Hb; [|done].
      apply lookup_replicate in Hb as [-> _]. cbn in HL. injection HL as <-.
      unfold GoInt.len. rewrite length_replicate.
      unfold delaySamples, configDelay, tickLength in *. cbn. lia.
Qed.

(** A playable song plays without a fault.  [NewPlayer] returns, in a
    state from which [Play], [SetPosition] (to a position and a row that are
    not negative), [Stop], [AdvanceTime] and [GenerateSamples], in any order
    and for buffers of any length, return again, without an index out of range
    or a division by zero. *)
Theorem playable_song_never_panics :
  (forall song,
      playable song -> echo_config_ok song ->
      0 <= Song.Channels song -> 0 < Song.SampleRate song <= 2 ^ 62 ->
      exists p, Player.NewPlayer song = Some p /\ safe p)
  /\ forall p,
      safe p ->
      (exists p', Player.Play p = Some p' /\ safe p')
      /\ safe (Player.Stop p)
      /\ (forall pos row,
            0 <= pos < GoInt.max_int -> 0 <= row < GoInt.max_int ->
            exists p', Player.SetPosition pos row p = Some p' /\ safe p')
      /\ (forall n, exists p', Player.AdvanceTime n p = Some p' /\ safe p')
      /\ forall n, exists p' buf,
            Player.GenerateSamples n p = Some (p', buf) /\ safe p' /\ length buf = n.
Proof.
  split; [apply NewPlayer_safe|].
  intros p Hsafe. split; [by apply Play_safe|]. split; [by apply Stop_safe|].
  split; [intros pos row; by apply SetPosition_safe|].
  split; [intros n; by apply AdvanceTime_safe|].
  intros n. destruct (GenerateSamples_safe n p Hsafe) as (p' & buf & Hrun & Hs').
  exists p', buf. split; [done|]. split; [done|]. by eapply GenerateSamples_length.
Qed.

End Safety.

Lemma playable_song_never_panics_witness :
  exists p p1 p2 buf,
    Player.NewPlayer (H:=Binary64.run) demo_song = Some p
    /\ Player.Play (H:=Binary64.run) p = Some p1
    /\ Player.GenerateSamples (H:=Binary64.run) 48 p1 = Some (p2, buf)
    /\ length buf = 48%nat.
Proof.
  destruct (playable_song_never_panics (H:=Binary64.run)) as [Hnew Hrun].
  assert (Hsteady : steady demo_song).
  { unfold steady, demo_song, demo_pattern. cbn.
    repeat (apply Forall_cons_2 || apply Forall_nil_2); vm_compute; discriminate. }
  destruct (Hnew demo_song) as (p & Hp & Hs).
  - unfold playable, demo_song. cbn.
    split; [discriminate|]. split; [vm_compute; discriminate|].
    split; [repeat (apply Forall_cons_2 || apply Forall_nil_2); vm_compute;
            (split; [discriminate|reflexivity])|].
    split; [|split; [vm_compute; discriminate|]].
    + apply Forall_cons_2; [|apply Forall_nil_2]. split.
      * vm_compute. split; discriminate.
      * unfold demo_pattern. cbn.
        repeat (apply Forall_cons_2 || apply Forall_nil_2); vm_compute; discriminate.
    + unfold Song.default_ornaments.
      repeat (apply Forall_cons_2 || apply Forall_nil_2); vm_compute;
        (split; [reflexivity|discriminate]).
  - unfold echo_config_ok, demo_song. cbn.
    apply Forall_cons_2; [left; cbn; lia|].
    apply Forall_cons_2; [|apply Forall_nil_2].
    right. split; [exact Hsteady|]. vm_compute. split; discriminate.
  - cbn. lia.
  - cbn. lia.
  - destruct (Hrun p Hs) as ((p1 & Hp1 & Hs1) & _).
    destruct (Hrun p1 Hs1) as (_ & _ & _ & _ & Hgen).
    destruct (Hgen 48%nat) as (p2 & buf & Hrun2 & _ & Hlen).
    by exists p, p1, p2, buf.
Defined.
